(** * starttls-backend: the checker's cache, batch pipeline and totals,
      the domain model, the list API, the validator tick.

    A shallow embedding of the Go sources

    - [checker/checker.go]  ([Checker], [Checker.timeout]),
    - [checker/cache.go]    ([ScanStore], [ScanCache], [SimpleStore]),
    - [checker/totals.go]   ([DomainTotals], [CheckCSV]),
    - [models/domain.go]    ([Domain.IsQueueable], [Domain.PopulateFromScan],
                             [Domain.InitializeWithToken],
                             [Domain.PolicyListCheck]),
    - [list_api.go]         ([getNumberParam], [API.GetList]),

    and, from the specification, of the composition of a domain result
    ([checker/domain.go]) and of the validator's tick
    ([validator/validator.go]), whose sources are not at hand; then the
    properties the specification states about them, and further properties
    of the code.

    Conventions.  A Go [int], [int64] or [time.Duration] is a [Z]; where the
    code does arithmetic on it the 64-bit wrap-around is written out
    ([wrap64]).  A Go [error] is the text of its message, and a nil-able
    error is an [option].  A method with a pointer receiver that mutates is a
    function returning the new receiver.  A call that can panic yields how
    it ended ([Completion]).  A map is [nil] or allocated ([GoMap]).  The
    slices of a [DomainTotals] are the lists of their elements, and slices
    of a memory where sharing matters ([Slice]).  [time.Now()] and the
    environment are explicit arguments.  What goes to the standard logger is
    returned as a list of lines.  The goroutines of [CheckCSV] are a
    transition system whose steps interleave in every order. *)

From stdpp Require Import base tactics option list strings gmap fin_maps relations.
From Stdlib Require Import ZArith Lia Ascii.

Local Open Scope Z_scope.

(** ** Go basics *)

Definition error : Type := string.

Definition minInt64 : Z := - 2 ^ 63.
Definition maxInt64 : Z := 2 ^ 63 - 1.

(** Two's complement wrap-around of a 64-bit signed integer. *)
Definition wrap64 (z : Z) : Z := (z + 2 ^ 63) mod 2 ^ 64 - 2 ^ 63.

Definition inInt64 (z : Z) : Prop := minInt64 ≤ z ≤ maxInt64.

(** *** package time *)

(** [time.Duration] is an [int64] count of nanoseconds. *)
Definition Duration : Type := Z.

Definition Nanosecond : Duration := 1.
Definition Microsecond : Duration := 1000 * Nanosecond.
Definition Millisecond : Duration := 1000 * Microsecond.
Definition Second : Duration := 1000 * Millisecond.

(** A [time.Time] is an instant, here a count of nanoseconds on the time
    line; the zero [Time] is instant [0] of that line. *)
Definition Time : Type := Z.

(** [t.Sub(u)]: the duration [t-u], and "if the result exceeds the maximum
    (or minimum) value that can be stored in a Duration, the maximum (or
    minimum) duration will be returned". *)
Definition Sub (t u : Time) : Duration :=
  let d := t - u in
  if d <? minInt64 then minInt64
  else if maxInt64 <? d then maxInt64
  else d.

(** *** Panics and maps *)

(** How a call that returns an [error] ends: it returns, with an error or
    with [nil], or it panics and does not return. *)
Inductive Completion : Type :=
  | Returns (err : option error)
  | Panics (msg : string).

(** A Go map value [map[string]V] is a reference: [nil], the zero value, or
    a table that [make] has allocated. *)
Inductive GoMap (V : Type) : Type :=
  | nilMap
  | madeMap (entries : gmap string V).
Arguments nilMap {V}.
Arguments madeMap {V}.

(** [make(map[string]V)]. *)
Definition makeMap {V : Type} : GoMap V := madeMap ∅.

(** [v, ok := m[key]]: "a nil map is equivalent to an empty map except that
    no elements may be added". *)
#[global] Instance GoMap_lookup {V : Type} : Lookup string V (GoMap V) :=
  λ key mp,
    match mp with
    | nilMap => None
    | madeMap entries => entries !! key
    end.

(** [m[key] = value]: the map after the assignment and, for a nil map, the
    run-time panic. *)
Definition assignEntry {V : Type} (mp : GoMap V) (key : string) (value : V)
  : GoMap V * option string :=
  match mp with
  | nilMap => (nilMap, Some "assignment to entry in nil map")
  | madeMap entries => (madeMap (<[key := value]> entries), None)
  end.

(** ** Result types of the checker

    [checker/result.go], [checker/hostname.go], [checker/domain.go] and
    [checker/mta_sts.go] declare these types; the embedding has the fields
    the sources at hand read or write. *)

(** Modelled from the spec: the severity of a check outcome,
    "severity ∈ {success, warning, failure}" (type [CheckStatus] of the
    missing [checker/result.go]). *)
Inductive CheckStatus : Type := Success | Warning | Failure.

#[global] Instance CheckStatus_eq_dec : EqDecision CheckStatus.
Proof. solve_decision. Defined.

(** Modelled from the spec: a generic check outcome, "{name/check-identifier,
    severity, human message}" (struct [Result] of the missing
    [checker/result.go]). *)
Record Result : Type := mkResult {
  Name : string;
  Status : CheckStatus;
  Message : string
}.

(** Modelled from the spec: the builders [Success], [Warning] and [Failure]
    of the missing [checker/result.go], "builder-style construction
    (success/warning/failure) fixes severity+message atomically".  The
    message is the format with its argument filled in. *)
Definition Result_Success (r : Result) : Result :=
  mkResult (Name r) Success (Message r).
Definition Result_Warning (r : Result) (message : string) : Result :=
  mkResult (Name r) Warning message.
Definition Result_Failure (r : Result) (message : string) : Result :=
  mkResult (Name r) Failure message.

(** Modelled from the spec: the result of probing one hostname,
    "{hostname, status (success/warning/failure tier), message(s), timestamp
    of probe}" (struct [HostnameResult] of the missing
    [checker/hostname.go]). *)
Record HostnameResult : Type := mkHostnameResult {
  Hostname : string;
  HostnameStatus : CheckStatus;
  HostnameMessages : list string;
  Timestamp : Time
}.

(** The zero value of [HostnameResult], which Go yields for a key that a map
    does not hold. *)
Definition zeroHostnameResult : HostnameResult :=
  {| Hostname := ""; HostnameStatus := Success; HostnameMessages := [];
     Timestamp := 0 |}.

(** ** checker/cache.go *)

(** [type ScanStore interface]: reading and writing scans, each against the
    state [S] of the implementation.  A put yields the state the store is
    left in and how the call ended; a call that panics leaves the store as
    it has made it up to the panic. *)
Module ScanStore.
Class Ops (S : Type) : Type := {
  GetHostnameScan : S → string → HostnameResult * option error;
  PutHostnameScan : S → string → HostnameResult → S * Completion
}.
End ScanStore.

(** [type SimpleStore struct { m map[string]HostnameResult; mu sync.RWMutex }].
    Every method holds [mu] for its whole body, so each call is one atomic
    step on the map.  The map of the zero value [SimpleStore{}] is nil;
    [MakeSimpleCache] allocates one. *)
Module SimpleStore.
Record t : Type := mk { m : GoMap HostnameResult }.

(** The zero value. *)
Definition zero : t := mk nilMap.

Definition GetHostnameScan (s : t) (hostname : string)
  : HostnameResult * option error :=
  match m s !! hostname with
  | None =>
      (zeroHostnameResult,
       Some ("Couldn't find scan for hostname " +:+ hostname))
  | Some result => (result, None)
  end.

(** [PutHostnameScan]: [s.m[hostname] = result; return nil].  On a nil map
    the assignment panics, the deferred [Unlock] runs, and the store is as
    it was. *)
Definition PutHostnameScan (s : t) (hostname : string)
    (result : HostnameResult) : t * Completion :=
  match assignEntry (m s) hostname result with
  | (_, Some msg) => (s, Panics msg)
  | (m', None) => (mk m', Returns None)
  end.

#[global] Instance ops : ScanStore.Ops t :=
  {| ScanStore.GetHostnameScan := GetHostnameScan;
     ScanStore.PutHostnameScan := PutHostnameScan |}.
End SimpleStore.

(** [type ScanCache struct { ScanStore; ExpireTime time.Duration }]. *)
Module ScanCache.
Section with_store.
Context {S : Type} `{!ScanStore.Ops S}.

Record t : Type := mk { Store : S; ExpireTime : Duration }.

(** [GetHostnameScan]: the stored scan, with an error when the store has
    none or when the stored one is older than [ExpireTime] at [now]. *)
Definition GetHostnameScan (c : t) (now : Time) (hostname : string)
  : HostnameResult * option error :=
  let '(result, err) := ScanStore.GetHostnameScan (Store c) hostname in
  match err with
  | Some e => (result, Some e)
  | None =>
      if ExpireTime c <? Sub now (Timestamp result) then
        (result,
         Some ("most recent scan for " +:+ hostname +:+ " expired"))
      else (result, None)
  end.

(** [PutHostnameScan]: the put of the store, with its error or its
    panic. *)
Definition PutHostnameScan (c : t) (hostname : string)
    (result : HostnameResult) : t * Completion :=
  let '(s, completion) :=
    ScanStore.PutHostnameScan (Store c) hostname result in
  (mk s (ExpireTime c), completion).
End with_store.
Arguments t S : clear implicits.
End ScanCache.

(** [MakeSimpleCache]: a cache over a [SimpleStore] with a fresh map. *)
Definition MakeSimpleCache (expiryTime : Duration)
  : ScanCache.t SimpleStore.t :=
  ScanCache.mk (SimpleStore.mk makeMap) expiryTime.

(** ** checker/checker.go *)

(** [net.MX]. *)
Record MX : Type := mkMX { Host : string; Pref : Z }.

(** Modelled from the spec: the outcome of the MTA-STS check, "{mode ∈
    {none, testing, enforce}, advertised MX patterns, policy-fetch status}"
    (struct [MTASTSResult] of the missing [checker/mta_sts.go]); the code
    reads [Mode] as a string. *)
Record MTASTSResult : Type := mkMTASTSResult {
  Mode : string;
  MXs : list string;
  FetchStatus : CheckStatus
}.

(** [type Checker struct], over the state [S] of the store behind its
    cache. *)
Record Checker (S : Type) : Type := mkChecker {
  Timeout : Duration;
  Cache : option (ScanCache.t S);
  lookupMXOverride : option (string → list MX + error);
  checkHostnameOverride : option (string → string → HostnameResult);
  checkMTASTSOverride :
    option (string → gmap string HostnameResult → option MTASTSResult)
}.
Arguments mkChecker {S}.
Arguments Timeout {S}.
Arguments Cache {S}.

(** [func (c *Checker) timeout() time.Duration]. *)
Definition timeout {S : Type} (c : Checker S) : Duration :=
  if decide (Timeout c ≠ 0) then Timeout c else wrap64 (10 * Second).

(** ** checker/totals.go *)

(** Modelled from the spec: the result of checking one domain, "{domain
    name, mapping from hostname → HostnameResult, optional MTASTSResult,
    overall status}" (struct [DomainResult] of the missing
    [checker/domain.go]).  The status is the integer the sources compare
    with [0] ([Status != 0]) and build from literals ([Status: 5]);
    [0] is success.  The field of the MTA-STS result is [MTASTS] here, the
    record above having the name of the Go field. *)
Record DomainResult : Type := mkDomainResult {
  Domain : string;
  HostnameResults : gmap string HostnameResult;
  MTASTS : option MTASTSResult;
  DomainStatus : Z
}.

(** What the standard logger receives: [log.Printf("\n%v\n", t)] and
    [log.Println] of a list of names. *)
Inductive LogLine (T : Type) : Type :=
  | LogTotals (t : T)
  | LogNames (names : list string).
Arguments LogTotals {T}.
Arguments LogNames {T}.

Module DomainTotals.
(** [type DomainTotals struct]; the two slices are here the lists of their
    elements. *)
Record t : Type := mk {
  Time : Time;
  Source : string;
  Attempted : Z;
  WithMXs : Z;
  MTASTSTesting : list string;
  MTASTSEnforce : list string
}.

(** The zero value. *)
Definition zero : t := mk 0 "" 0 0 [] [].

Definition incAttempted (x : t) : t :=
  mk (Time x) (Source x) (wrap64 (Attempted x + 1)) (WithMXs x)
     (MTASTSTesting x) (MTASTSEnforce x).
Definition incWithMXs (x : t) : t :=
  mk (Time x) (Source x) (Attempted x) (wrap64 (WithMXs x + 1))
     (MTASTSTesting x) (MTASTSEnforce x).
(** [append] on the elements of a slice that shares no memory with the
    other one; [Slice.append] below is [append] on the slices themselves. *)
Definition appendTesting (x : t) (d : string) : t :=
  mk (Time x) (Source x) (Attempted x) (WithMXs x)
     (MTASTSTesting x ++ [d]) (MTASTSEnforce x).
Definition appendEnforce (x : t) (d : string) : t :=
  mk (Time x) (Source x) (Attempted x) (WithMXs x)
     (MTASTSTesting x) (MTASTSEnforce x ++ [d]).

(** [func (t *DomainTotals) HandleDomain(r DomainResult)]: the new totals
    and the lines logged. *)
Definition HandleDomain (x : t) (r : DomainResult) : t * list (LogLine t) :=
  let x := incAttempted x in
  let out :=
    if Z.rem (Attempted x) 1000 =? 0
    then [LogTotals x; LogNames (MTASTSTesting x);
          LogNames (MTASTSEnforce x)]
    else [] in
  if decide (size (HostnameResults r) = 0%nat) then (x, out)
  else
    let x := incWithMXs x in
    match MTASTS r with
    | Some mr =>
        if decide (Mode mr = "enforce") then (appendEnforce x (Domain r), out)
        else if decide (Mode mr = "testing")
        then (appendTesting x (Domain r), out)
        else (x, out)
    | None => (x, out)
    end.

(** A sequence of [HandleDomain] calls on one [DomainTotals]. *)
Definition handleAll (x : t) (rs : list DomainResult) : t * list (LogLine t) :=
  foldl (λ '(x, log) r, let '(x', out) := HandleDomain x r in (x', log ++ out))
        (x, []) rs.
End DomainTotals.

(** [type ResultHandler interface { HandleDomain(DomainResult) }], against
    the state [H] of the implementation. *)
Class ResultHandler (H : Type) : Type := {
  HandleDomain : H → DomainResult → H
}.

(** [DomainTotals] "implements ResultHandler"; its state carries the log. *)
#[global] Instance DomainTotals_handler
  : ResultHandler (DomainTotals.t * list (LogLine DomainTotals.t)) :=
  {| HandleDomain := λ '(x, log) r,
       let '(x', out) := DomainTotals.HandleDomain x r in (x', log ++ out) |}.

(** *** The slices of a DomainTotals

    [MTASTSTesting] and [MTASTSEnforce] are slices, and [append] is the one
    operation of the sources on them.  [DomainTotals.t] above has the
    elements of the two slices as lists; that is what the slices hold as
    long as they share no memory, which is so for the zero value and stays
    so under [HandleDomain].  Below are the slices themselves, for totals
    that a caller has built from slices of its own. *)
Module Slice.
(** A slice: the window [offset, offset+len) of a backing array, with room
    up to [offset+cap]. *)
Record t : Type := mk { array : nat; offset : nat; len : nat; cap : nat }.

(** The memory: the backing arrays, by number. *)
Abbreviation Memory := (list (list string)).

(** The nil slice, the zero value. *)
Definition nil : t := mk 0 0 0 0.

(** The elements of a slice. *)
Definition elems (mem : Memory) (s : t) : list string :=
  take (len s) (drop (offset s) (default [] (mem !! array s))).

Section append.
(** The growth policy of the run-time system: the room it gives a new array
    beyond the length needed. *)
Variable spare : nat → nat.

(** [append(s, x)]: with room behind the window ([len(s) < cap(s)]) [x] is
    written there, into the array of [s], and the result is the longer
    window of the same array; without room the elements and [x] go to a new
    array. *)
Definition append (mem : Memory) (s : t) (x : string) : Memory * t :=
  if decide (len s < cap s)%nat then
    (alter (λ a, <[(offset s + len s)%nat := x]> a) (array s) mem,
     mk (array s) (offset s) (S (len s)) (cap s))
  else
    (mem ++ [elems mem s ++ x :: replicate (spare (S (len s))) ""],
     mk (length mem) 0 (S (len s)) (S (len s) + spare (S (len s)))).
End append.

(** A slice of the memory: its window is within its room, and its room
    within its array. *)
Definition wf (mem : Memory) (s : t) : Prop :=
  (len s ≤ cap s)%nat
  ∧ ((0 < cap s)%nat →
     ∃ a, mem !! array s = Some a ∧ (offset s + cap s ≤ length a)%nat).

(** Two slices that share no memory: one has no room at all, or they are in
    different arrays, or the room of one ends before that of the other. *)
Definition separate (s1 s2 : t) : Prop :=
  cap s1 = 0%nat ∨ cap s2 = 0%nat ∨ array s1 ≠ array s2
  ∨ (offset s1 + cap s1 ≤ offset s2)%nat
  ∨ (offset s2 + cap s2 ≤ offset s1)%nat.
End Slice.

(** [DomainTotals] with its two slices, and [HandleDomain] on it. *)
Module DomainTotalsSlices.
Record t : Type := mk {
  Time : Time;
  Source : string;
  Attempted : Z;
  WithMXs : Z;
  MTASTSTesting : Slice.t;
  MTASTSEnforce : Slice.t
}.

(** The zero value. *)
Definition zero : t := mk 0 "" 0 0 Slice.nil Slice.nil.

(** The totals with the elements of the two slices. *)
Definition contents (mem : Slice.Memory) (x : t) : DomainTotals.t :=
  DomainTotals.mk (Time x) (Source x) (Attempted x) (WithMXs x)
    (Slice.elems mem (MTASTSTesting x)) (Slice.elems mem (MTASTSEnforce x)).

Definition incAttempted (x : t) : t :=
  mk (Time x) (Source x) (wrap64 (Attempted x + 1)) (WithMXs x)
     (MTASTSTesting x) (MTASTSEnforce x).
Definition incWithMXs (x : t) : t :=
  mk (Time x) (Source x) (Attempted x) (wrap64 (WithMXs x + 1))
     (MTASTSTesting x) (MTASTSEnforce x).
Definition setTesting (x : t) (s : Slice.t) : t :=
  mk (Time x) (Source x) (Attempted x) (WithMXs x) s (MTASTSEnforce x).
Definition setEnforce (x : t) (s : Slice.t) : t :=
  mk (Time x) (Source x) (Attempted x) (WithMXs x) (MTASTSTesting x) s.

Section with_runtime.
Variable spare : nat → nat.

(** [func (t *DomainTotals) HandleDomain(r DomainResult)]: the memory and
    the totals after the call, and the lines logged. *)
Definition HandleDomain (mem : Slice.Memory) (x : t) (r : DomainResult)
  : Slice.Memory * t * list (LogLine DomainTotals.t) :=
  let x := incAttempted x in
  let out :=
    if Z.rem (Attempted x) 1000 =? 0
    then [LogTotals (contents mem x);
          LogNames (Slice.elems mem (MTASTSTesting x));
          LogNames (Slice.elems mem (MTASTSEnforce x))]
    else [] in
  if decide (size (HostnameResults r) = 0%nat) then (mem, x, out)
  else
    let x := incWithMXs x in
    match MTASTS r with
    | Some mr =>
        if decide (Mode mr = "enforce") then
          let '(mem', s) :=
            Slice.append spare mem (MTASTSEnforce x) (Domain r) in
          (mem', setEnforce x s, out)
        else if decide (Mode mr = "testing") then
          let '(mem', s) :=
            Slice.append spare mem (MTASTSTesting x) (Domain r) in
          (mem', setTesting x s, out)
        else (mem, x, out)
    | None => (mem, x, out)
    end.

(** A sequence of [HandleDomain] calls on one [DomainTotals]. *)
Definition handleAll (mem : Slice.Memory) (x : t) (rs : list DomainResult)
  : Slice.Memory * t * list (LogLine DomainTotals.t) :=
  foldl (λ '(mem, x, log) r,
           let '(mem', x', out) := HandleDomain mem x r in
           (mem', x', log ++ out))
        (mem, x, []) rs.
End with_runtime.

(** Totals whose two slices are slices of the memory and share none of
    it. *)
Definition ownSlices (mem : Slice.Memory) (x : t) : Prop :=
  Slice.wf mem (MTASTSEnforce x) ∧ Slice.wf mem (MTASTSTesting x)
  ∧ Slice.separate (MTASTSEnforce x) (MTASTSTesting x).
End DomainTotalsSlices.

(** *** Reading the pool size *)

(** [strconv.ErrSyntax] and [strconv.ErrRange]; the [*NumError] around them
    is left out. *)
Definition ErrSyntax : error := "invalid syntax".
Definition ErrRange : error := "value out of range".

(** The value of a decimal digit, [ch - '0'] when that is at most [9]. *)
Definition digitValue (ch : ascii) : option Z :=
  let n := Z.of_N (Ascii.N_of_ascii ch) in
  if (48 <=? n) && (n <=? 57) then Some (n - 48) else None.

Definition maxUint64 : Z := 2 ^ 64 - 1.

(** How the digit loop ends: with the value of the digits, at a character
    that is not a digit, or at a digit with which the value leaves
    [uint64]. *)
Inductive Parsed : Type :=
  | ParsedValue (n : Z)
  | ParsedSyntax
  | ParsedRange.

(** The digit loop of [strconv.ParseUint] in base 10, from left to right
    with [n] the value so far: a character that is not a digit ends it with
    a syntax error; a digit is refused with a range error when [n] is at
    least the cutoff [maxUint64/10 + 1] ([n*10] overflows) or when
    [n*10 + d] overflows; whichever comes first decides.  On the short
    strings that [Atoi] parses on its fast path ([n = n*10 + int(ch)]) no
    value reaches the cutoff. *)
Fixpoint parseDigits (s : string) (n : Z) : Parsed :=
  match s with
  | EmptyString => ParsedValue n
  | String ch s' =>
      match digitValue ch with
      | Some d =>
          if maxUint64 / 10 + 1 <=? n then ParsedRange
          else if maxUint64 <? n * 10 + d then ParsedRange
          else parseDigits s' (n * 10 + d)
      | None => ParsedSyntax
      end
  end.

(** The optional sign in front of the digits ([s[0] == '-' || s[0] == '+'])
    and the rest of the string. *)
Definition splitSign (s : string) : bool * string :=
  match s with
  | String "-" s' => (true, s')
  | String "+" s' => (false, s')
  | _ => (false, s)
  end.

(** [strconv.Atoi] on a 64-bit platform, as [ParseInt(s, 10, 0)] computes
    it (the fast path of [Atoi] for fewer than 19 characters gives the same
    results): an optional sign and at least one character after it, else
    [ErrSyntax] with [0]; a syntax error of the digit loop is [ErrSyntax]
    with [0]; a range error of the loop, or a value outside [int]
    ([un >= 1<<63] without a minus sign, [un > 1<<63] with one), is
    [ErrRange] with the nearest bound. *)
Definition Atoi (s : string) : Z * option error :=
  let '(neg, body) := splitSign s in
  match body with
  | EmptyString => (0, Some ErrSyntax)
  | _ =>
      match parseDigits body 0 with
      | ParsedSyntax => (0, Some ErrSyntax)
      | ParsedRange =>
          (if neg : bool then minInt64 else maxInt64, Some ErrRange)
      | ParsedValue un =>
          if negb neg && (2 ^ 63 <=? un) then (maxInt64, Some ErrRange)
          else if neg && (2 ^ 63 <? un) then (minInt64, Some ErrRange)
          else (if neg then - un else un, None)
      end
  end.

(** [os.Getenv]: the value of the variable, empty when it is not set. *)
Definition Getenv (env : gmap string string) (key : string) : string :=
  default "" (env !! key).

Definition defaultPoolSize : Z := 16.

(** The first statement of [CheckCSV]:
    [poolSize, err := strconv.Atoi(os.Getenv("CONNECTION_POOL_SIZE"))] and
    the fall-back to [defaultPoolSize]. *)
Definition poolSizeFromEnv (env : gmap string string) : Z :=
  let '(poolSize, err) := Atoi (Getenv env "CONNECTION_POOL_SIZE") in
  if bool_decide (err ≠ None) || (poolSize <=? 0) then defaultPoolSize
  else poolSize.

(** *** CheckCSV

    [CheckCSV] starts a reader goroutine, [poolSize] workers and a goroutine
    that closes [results], and then collects the results itself.  The
    channels [work], [results] and [done] are unbuffered: a send and a
    receive happen together, in one step of the system.  The system below
    interleaves the steps of the goroutines in every order; a goroutine that
    a [go] statement has not started yet is one that has not been scheduled
    yet. *)

(** What one [domains.Read()] yields before the end of the input: a record,
    or an error other than [io.EOF].  After the last outcome every [Read]
    yields [io.EOF]. *)
Inductive ReadOutcome : Type :=
  | Row (data : list string)
  | ReadError (err : error).

(** [data[i]] for an [int] index: out of range is a run-time panic, here
    [None]. *)
Definition index (data : list string) (i : Z) : option string :=
  if i <? 0 then None else data !! Z.to_nat i.

(** The reader goroutine: at [domains.Read()], at [work <- d], at
    [close(work)], finished. *)
Inductive Producer : Type :=
  | PRead
  | PSend (domain : string)
  | PClose
  | PExit.

(** A worker: at [range work], in [c.CheckDomain(domain, nil)], at
    [results <- r], at [done <- struct{}{}], finished. *)
Inductive Worker : Type :=
  | WRecv
  | WCheck (domain : string)
  | WSend (r : DomainResult)
  | WDone
  | WExit.

(** The closing goroutine: [i] receptions from [done] made, or finished. *)
Inductive Closer : Type :=
  | CWait (i : nat)
  | CExit.

(** The body of [CheckCSV] itself: at [range results], in
    [resultHandler.HandleDomain(r)], returned. *)
Inductive Collector : Type :=
  | MRecv
  | MHandle (r : DomainResult)
  | MExit.

(** How the process ends other than by returning: [log.Fatal(err)], or a
    run-time panic. *)
Inductive Halt : Type :=
  | Fatal (err : error)
  | Panic (msg : string).

Section CheckCSV.
Context {H : Type} `{!ResultHandler H}.
(** [c.CheckDomain(domain, nil)], of the missing [checker/domain.go]. *)
Variable CheckDomain : string → DomainResult.
Variable domainColumn : Z.
Variable poolSize : nat.

Record State : Type := mkState {
  input : list ReadOutcome;        (* what the csv reader has left *)
  producer : Producer;
  workClosed : bool;
  workers : list Worker;
  closer : Closer;
  resultsClosed : bool;
  main : Collector;
  handler : H;                     (* the state of [resultHandler] *)
  calls : list DomainResult        (* the [HandleDomain] calls made *)
}.

(** The process: running, or ended by [log.Fatal] or a panic after the
    [HandleDomain] calls listed. *)
Inductive System : Type :=
  | Run (σ : State)
  | Halted (h : Halt) (calls : list DomainResult).

Definition start (rows : list ReadOutcome) (h : H) : System :=
  Run (mkState rows PRead false (replicate poolSize WRecv) (CWait 0) false
               MRecv h []).

Inductive step : System → System → Prop :=
  (* reader: [data, err := domains.Read()] with [err == nil] *)
  | step_read_empty data rows wc ws c rc m h cs :
      length data = 0%nat →
      step (Run (mkState (Row data :: rows) PRead wc ws c rc m h cs))
           (Run (mkState rows PRead wc ws c rc m h cs))
  | step_read_row data d rows wc ws c rc m h cs :
      length data ≠ 0%nat →
      index data domainColumn = Some d →
      step (Run (mkState (Row data :: rows) PRead wc ws c rc m h cs))
           (Run (mkState rows (PSend d) wc ws c rc m h cs))
  | step_read_index_panic data rows wc ws c rc m h cs :
      length data ≠ 0%nat →
      index data domainColumn = None →
      step (Run (mkState (Row data :: rows) PRead wc ws c rc m h cs))
           (Halted (Panic "index out of range") cs)
  (* reader: [err != nil], [err != io.EOF]: [log.Fatal(err)] *)
  | step_read_fatal err rows wc ws c rc m h cs :
      step (Run (mkState (ReadError err :: rows) PRead wc ws c rc m h cs))
           (Halted (Fatal err) cs)
  (* reader: [err == io.EOF]: [break] *)
  | step_read_eof wc ws c rc m h cs :
      step (Run (mkState [] PRead wc ws c rc m h cs))
           (Run (mkState [] PClose wc ws c rc m h cs))
  (* reader: [close(work)] *)
  | step_close_work rows wc ws c rc m h cs :
      step (Run (mkState rows PClose wc ws c rc m h cs))
           (Run (mkState rows PExit true ws c rc m h cs))
  (* [work <- d] meets a worker at [range work] *)
  | step_work d rows ws1 ws2 c rc m h cs :
      step (Run (mkState rows (PSend d) false (ws1 ++ WRecv :: ws2)
                         c rc m h cs))
           (Run (mkState rows PRead false (ws1 ++ WCheck d :: ws2)
                         c rc m h cs))
  (* a worker at [range work] finds [work] closed *)
  | step_work_closed rows p ws1 ws2 c rc m h cs :
      step (Run (mkState rows p true (ws1 ++ WRecv :: ws2) c rc m h cs))
           (Run (mkState rows p true (ws1 ++ WDone :: ws2) c rc m h cs))
  (* a worker: [c.CheckDomain(domain, nil)] returns *)
  | step_check d rows p wc ws1 ws2 c rc m h cs :
      step (Run (mkState rows p wc (ws1 ++ WCheck d :: ws2) c rc m h cs))
           (Run (mkState rows p wc (ws1 ++ WSend (CheckDomain d) :: ws2)
                         c rc m h cs))
  (* [results <- r] meets the collector at [range results] *)
  | step_result r rows p wc ws1 ws2 c h cs :
      step (Run (mkState rows p wc (ws1 ++ WSend r :: ws2) c false MRecv
                         h cs))
           (Run (mkState rows p wc (ws1 ++ WRecv :: ws2) c false
                         (MHandle r) h cs))
  (* [results <- r] on the closed channel panics *)
  | step_result_closed r rows p wc ws1 ws2 c m h cs :
      step (Run (mkState rows p wc (ws1 ++ WSend r :: ws2) c true m h cs))
           (Halted (Panic "send on closed channel") cs)
  (* [done <- struct{}{}] meets [<-done] while [i < poolSize] *)
  | step_done i rows p wc ws1 ws2 rc m h cs :
      (i < poolSize)%nat →
      step (Run (mkState rows p wc (ws1 ++ WDone :: ws2) (CWait i) rc m
                         h cs))
           (Run (mkState rows p wc (ws1 ++ WExit :: ws2) (CWait (S i)) rc m
                         h cs))
  (* the closing goroutine leaves its loop: [close(results)] *)
  | step_close_results i rows p wc ws rc m h cs :
      ¬ (i < poolSize)%nat →
      step (Run (mkState rows p wc ws (CWait i) rc m h cs))
           (Run (mkState rows p wc ws CExit true m h cs))
  (* the collector: [resultHandler.HandleDomain(r)] *)
  | step_handle r rows p wc ws c rc h cs :
      step (Run (mkState rows p wc ws c rc (MHandle r) h cs))
           (Run (mkState rows p wc ws c rc MRecv (HandleDomain h r)
                         (cs ++ [r])))
  (* the collector at [range results] finds [results] closed *)
  | step_return rows p wc ws c h cs :
      step (Run (mkState rows p wc ws c true MRecv h cs))
           (Run (mkState rows p wc ws c true MExit h cs)).

(** [CheckCSV] has returned. *)
Definition returned (s : System) : Prop :=
  match s with
  | Run σ => main σ = MExit
  | Halted _ _ => False
  end.

(** The [HandleDomain] calls made so far. *)
Definition callsOf (s : System) : list DomainResult :=
  match s with
  | Run σ => calls σ
  | Halted _ cs => cs
  end.

(** The domains of the records of an input, [data[domainColumn]] of each
    record that is not empty, up to the first read error or bad index. *)
Fixpoint domainsOf (rows : list ReadOutcome) : list string :=
  match rows with
  | Row data :: rows' =>
      if decide (length data = 0%nat) then domainsOf rows'
      else match index data domainColumn with
           | Some d => d :: domainsOf rows'
           | None => []
           end
  | _ => []
  end.

(** A domain row: a record that holds a domain in column
    [domainColumn]. *)
Definition domainRow (o : ReadOutcome) : Prop :=
  match o with
  | Row data => is_Some (index data domainColumn)
  | ReadError _ => False
  end.
End CheckCSV.
Arguments State H : clear implicits.
Arguments System H : clear implicits.

(** [CheckCSV] from its first statement: the pool size read from the
    environment, then the goroutines. *)
Definition CheckCSV {H : Type} `{!ResultHandler H}
    (env : gmap string string) (domains : list ReadOutcome) (h : H)
  : System H :=
  start (Z.to_nat (poolSizeFromEnv env)) domains h.

(** ** models/domain.go *)

Module Models.
(** [type DomainState string] and its values. *)
Definition DomainState : Type := string.
Definition StateUnknown : DomainState := "unknown".
Definition StateUnconfirmed : DomainState := "unvalidated".
Definition StateTesting : DomainState := "queued".
Definition StateFailed : DomainState := "failed".
Definition StateEnforce : DomainState := "added".

(** [type Domain struct]. *)
Record Domain : Type := mkDomain {
  Name : string;
  Email : string;
  MXs : list string;
  MTASTSMode : string;
  State : DomainState;
  LastUpdated : Time;
  TestingStart : Time;
  QueueWeeks : Z
}.

(** [type DomainStore interface], against the state [S] of the
    implementation. *)
Class DomainStore (S : Type) : Type := {
  PutDomain : S → Domain → S * option error;
  GetDomain : S → string → DomainState → Domain * option error;
  GetDomains : S → DomainState → list Domain * option error;
  SetStatus : S → string → DomainState → S * option error
}.

(** [type policyList interface { HasDomain(string) bool }]. *)
Class policyList (L : Type) : Type := {
  HasDomain : L → string → bool
}.

Section PolicyListCheck.
Context {S L : Type} `{!DomainStore S} `{!policyList L}.
(** The constant [checker.PolicyList], the name of this check, of the
    missing [checker/result.go]. *)
Variable PolicyList : string.

(** [err == nil] for the error of a [GetDomain]. *)
Definition found (store : S) (name : string) (state : DomainState) : bool :=
  bool_decide ((GetDomain store name state).2 = None).

(** [func (d *Domain) PolicyListCheck(store DomainStore, list policyList)
    *checker.Result]: the result and the lines logged. *)
Definition PolicyListCheck (d : Domain) (store : S) (plist : L)
  : Result * list string :=
  let result := mkResult PolicyList Success "" in
  if HasDomain plist (Name d) then (Result_Success result, [])
  else if found store (Name d) StateEnforce then
    (Result_Success result,
     ["Warning: Domain was StateEnforce in DB but was not found on the "
        +:+ "policy list."])
  else if found store (Name d) StateTesting then
    (Result_Warning result
       ("Domain " +:+ Name d +:+ " is queued to be added to the policy list."),
     [])
  else if found store (Name d) StateUnconfirmed then
    (Result_Failure result
       ("The policy addition request for " +:+ Name d
          +:+ " is waiting on email validation"),
     [])
  else
    (Result_Failure result
       ("Domain " +:+ Name d +:+ " is not on the policy list."),
     []).
End PolicyListCheck.

(** A store and a policy list for examples: the store holds (name, state)
    pairs, the list holds names. *)
#[global] Instance pairsStore : DomainStore (list Domain) := {|
  PutDomain := λ s d, (s ++ [d], None);
  GetDomain := λ s name state,
    match filter (λ d, Name d = name ∧ State d = state) s with
    | d :: _ => (d, None)
    | [] => (mkDomain "" "" [] "" "" 0 0 0, Some "sql: no rows in result set")
    end;
  GetDomains := λ s state, (filter (λ d, State d = state) s, None);
  SetStatus := λ s name state,
    ((λ d, if decide (Name d = name)
           then mkDomain (Name d) (Email d) (MXs d) (MTASTSMode d) state
                         (LastUpdated d) (TestingStart d) (QueueWeeks d)
           else d) <$> s, None)
|}.

#[global] Instance namesList : policyList (list string) := {|
  HasDomain := λ l name, bool_decide (name ∈ l)
|}.
End Models.

(** ** The domain check and the validator, from the specification *)

(** Order of severity: success, then warning, then failure. *)
Definition severity (s : CheckStatus) : nat :=
  match s with Success => 0 | Warning => 1 | Failure => 2 end.

(** The more severe of two verdicts. *)
Definition worse (a b : CheckStatus) : CheckStatus :=
  if decide (severity a ≤ severity b)%nat then b else a.

(** The integer of a verdict in a [DomainResult]: [0] is success, as the
    sources have it ([Status != 0]). *)
Definition statusCode (s : CheckStatus) : Z := Z.of_nat (severity s).

(** Modelled from the spec: the tier of an MTA-STS cross-validation
    inconsistency.  The specification has an inconsistency count in the
    overall status ("degrades confidence", "surfaced by the caller as part
    of overall severity", "the most severe of: any hostname failure, any
    cross-validation inconsistency, otherwise success") and does not name
    its tier: it is one of the two tiers that are not success. *)
Inductive InconsistencyTier : Type :=
  | InconsistencyWarning
  | InconsistencyFailure.

Definition inconsistencyStatus (tier : InconsistencyTier) : CheckStatus :=
  match tier with
  | InconsistencyWarning => Warning
  | InconsistencyFailure => Failure
  end.

Section DomainCheck.
(** Whether a hostname satisfies an MX pattern of a policy (a single
    leading wildcard label is supported); the wire grammar is left open by
    the specification. *)
Variable matchesPattern : string → string → bool.
(** The tier that an MTA-STS cross-validation inconsistency has. *)
Variable tier : InconsistencyTier.

(** Modelled from the spec: the cross-validation of the missing
    [checker/mta_sts.go], "every MX pattern declared in the policy must be
    satisfiable by at least one successfully-probed hostname". *)
Definition crossValidates (mr : MTASTSResult)
    (hrs : gmap string HostnameResult) : bool :=
  forallb (λ pattern,
    existsb (λ '(hostname, r),
      bool_decide (HostnameStatus r = Success)
      && matchesPattern hostname pattern) (map_to_list hrs)) (MXs mr).

(** Modelled from the spec: the verdict the MTA-STS result contributes to
    the overall status in step (5) of the missing [checker/domain.go]: the
    tier of an inconsistency when the cross-validation fails; an absent
    result "is not itself an error". *)
Definition mtastsVerdict (mr : option MTASTSResult)
    (hrs : gmap string HostnameResult) : CheckStatus :=
  match mr with
  | Some mr =>
      if crossValidates mr hrs then Success else inconsistencyStatus tier
  | None => Success
  end.

(** Modelled from the spec: step (5) of the domain check of the missing
    [checker/domain.go], "overall status takes the most severe of: any
    hostname failure, any cross-validation inconsistency from MTA-STS,
    otherwise success". *)
Definition overallStatus (hrs : gmap string HostnameResult)
    (mr : option MTASTSResult) : CheckStatus :=
  foldr worse Success
    (mtastsVerdict mr hrs :: (HostnameStatus <$> (map_to_list hrs).*2)).

(** Modelled from the spec: "Compose the DomainResult" of the missing
    [checker/domain.go]. *)
Definition composeDomainResult (domain : string)
    (hrs : gmap string HostnameResult) (mr : option MTASTSResult)
  : DomainResult :=
  mkDomainResult domain hrs mr (statusCode (overallStatus hrs mr)).
End DomainCheck.

Module Validator.
(** Modelled from the spec: the store capability of the missing
    [validator/validator.go], "{DomainsToValidate() → set of domain
    names, HostnamesForDomain(domain) → ordered sequence of hostnames}";
    the domains come in the order the store yields them. *)
Class DomainPolicyStore (S : Type) : Type := {
  DomainsToValidate : S → list string;
  HostnamesForDomain : S → string → list string
}.

(** What a tick does that the outside sees: a call of the check function
    and a call of the failure reporter. *)
Inductive Event : Type :=
  | Checked (domain : string) (hostnames : list string)
  | Reported (name domain : string) (verdict : DomainResult).

Section with_store.
Context {S : Type} `{!DomainPolicyStore S}.

(** Modelled from the spec: a validator of the missing
    [validator/validator.go], "constructed with a name, a revalidation
    interval, a domain-policy store capability, a check function
    (domain, hostnames) → verdict, and a failure-reporting callback". *)
Record t : Type := mk {
  Name : string;
  Interval : Duration;
  Store : S;
  checkPerformer : string → list string → DomainResult
}.

(** Modelled from the spec: what the validator does for one domain,
    "fetch its expected hostnames and invoke the check function; if the
    resulting verdict's status is not success, invoke the failure
    reporter with (validator name, domain, verdict)". *)
Definition validate (v : t) (domain : string) : list Event :=
  let hostnames := HostnamesForDomain (Store v) domain in
  let verdict := checkPerformer v domain hostnames in
  Checked domain hostnames ::
  (if decide (DomainStatus verdict ≠ 0)
   then [Reported (Name v) domain verdict] else []).

(** Modelled from the spec: one tick, "fetch the current domain set from
    the store, and for every domain ...". *)
Definition tick (v : t) : list Event :=
  DomainsToValidate (Store v) ≫= validate v.

End with_store.
Arguments t S : clear implicits.

(** [mockDomainPolicyStore] of the validator's test: a map from each
    domain to its hostnames; the domains come in the order of the map. *)
#[global] Instance mockDomainPolicyStore
  : DomainPolicyStore (gmap string (list string)) := {|
  DomainsToValidate := λ hostnames, (map_to_list hostnames).*1;
  HostnamesForDomain := λ hostnames domain, default [] (hostnames !! domain)
|}.

(** [fakeChecker] of [TestRegularValidationReportsErrors]. *)
Definition fakeChecker (domain : string) (hostnames : list string)
  : DomainResult :=
  if decide (domain = "fail" ∨ domain = "error")
  then mkDomainResult "" ∅ None 5
  else mkDomainResult "" ∅ None 0.
End Validator.

(** ** models/domain.go: the other methods of [Domain] *)

Module DomainMethods.
(** What [domain.go] reads of a [models.Scan], declared in the missing
    [models/scan.go]: the fields [Status], [PreferredHostnames] and
    [MTASTSResult] of its [Data] (a [checker.DomainResult]), and its method
    [SupportsMTASTS]. *)
Class scanView (Scan : Type) : Type := {
  DataStatus : Scan → Z;
  DataPreferredHostnames : Scan → list string;
  DataMTASTSResult : Scan → option MTASTSResult;
  SupportsMTASTS : Scan → bool
}.

(** The method of [scanStore] (missing [models/scan.go]) that [domain.go]
    calls. *)
Class scanStore (SS Scan : Type) : Type := {
  GetLatestScan : SS → string → Scan * option error
}.

(** The method of [tokenStore] (missing [models/token.go]) that [domain.go]
    calls; of the [Token] it returns, the field [Token]. *)
Class tokenStore (T : Type) : Type := {
  PutToken : T → string → T * (string * option error)
}.

(** [%v] of a [[]string]: the elements between brackets, separated by
    spaces. *)
Definition formatStrings (l : list string) : string :=
  "[" +:+ String.concat " " l +:+ "]".

Definition withMTASTSMode (d : Models.Domain) (mode : string) : Models.Domain :=
  Models.mkDomain (Models.Name d) (Models.Email d) (Models.MXs d) mode
    (Models.State d) (Models.LastUpdated d) (Models.TestingStart d)
    (Models.QueueWeeks d).

Definition withMXs (d : Models.Domain) (mxs : list string) : Models.Domain :=
  Models.mkDomain (Models.Name d) (Models.Email d) mxs (Models.MTASTSMode d)
    (Models.State d) (Models.LastUpdated d) (Models.TestingStart d)
    (Models.QueueWeeks d).

Section methods.
Context {S SS L T Scan : Type}.
Context `{!Models.DomainStore S} `{!Models.policyList L}.
Context `{!scanView Scan} `{!scanStore SS Scan} `{!tokenStore T}.
(** [checker.PolicyMatches], of the missing [checker/domain.go]. *)
Variable PolicyMatches : string → list string → bool.

(** The loop over [scan.Data.PreferredHostnames]: whether it runs to its
    end, every hostname matching. *)
Fixpoint hostnamesMatch (hostnames mxs : list string) : bool :=
  match hostnames with
  | [] => true
  | hostname :: rest =>
      if PolicyMatches hostname mxs then hostnamesMatch rest mxs else false
  end.

(** [func (d *Domain) IsQueueable(domains DomainStore, scans scanStore,
    list policyList) (bool, string, Scan)]. *)
Definition IsQueueable (d : Models.Domain) (domains : S) (scans : SS)
    (plist : L) : bool * string * Scan :=
  let '(scan, err) := GetLatestScan scans (Models.Name d) in
  if bool_decide (err ≠ None) then
    (false,
     "We haven't scanned this domain yet. "
       +:+ "Please use the STARTTLS checker to scan your domain's "
       +:+ "STARTTLS configuration so we can validate your submission",
     scan)
  else if bool_decide (DataStatus scan ≠ 0) then
    (false, "Domain hasn't passed our STARTTLS security checks", scan)
  else if Models.HasDomain plist (Models.Name d) then
    (false, "Domain is already on the policy list!", scan)
  else if Models.found domains (Models.Name d) Models.StateEnforce then
    (false, "Domain is already on the policy list!", scan)
  else if bool_decide (Models.MTASTSMode d = "") then
    if hostnamesMatch (DataPreferredHostnames scan) (Models.MXs d)
    then (true, "", scan)
    else
      (false,
       "Hostnames " +:+ formatStrings (DataPreferredHostnames scan)
         +:+ " do not match policy " +:+ formatStrings (Models.MXs d),
       scan)
  else if negb (SupportsMTASTS scan) then
    (false, "Domain does not correctly implement MTA-STS.", scan)
  else (true, "", scan).

(** [func (d *Domain) PopulateFromScan(scan Scan)]. *)
Definition PopulateFromScan (d : Models.Domain) (scan : Scan)
  : Models.Domain :=
  match DataMTASTSResult scan with
  | Some mr =>
      if SupportsMTASTS scan then
        let d := withMTASTSMode d (Mode mr) in
        if decide (length (Models.MXs d) = 0%nat) then withMXs d (MXs mr)
        else d
      else d
  | None => d
  end.

(** [func (d *Domain) InitializeWithToken(store DomainStore, tokens
    tokenStore) (string, error)]: the two stores after the call, and what
    it returns. *)
Definition InitializeWithToken (d : Models.Domain) (store : S) (tokens : T)
  : S * T * (string * option error) :=
  let '(store, err) := Models.PutDomain store d in
  match err with
  | Some e => (store, tokens, ("", Some e))
  | None =>
      let '(tokens, (token, err)) := PutToken tokens (Models.Name d) in
      match err with
      | Some e => (store, tokens, ("", Some e))
      | None => (store, tokens, (token, None))
      end
  end.
End methods.

(** A scan, a scan store and a token store for examples. *)
Record exampleScan : Type := mkExampleScan {
  exStatus : Z;
  exHostnames : list string;
  exMTASTS : option MTASTSResult
}.

#[global] Instance exampleScan_view : scanView exampleScan := {|
  DataStatus := exStatus;
  DataPreferredHostnames := exHostnames;
  DataMTASTSResult := exMTASTS;
  SupportsMTASTS := λ scan,
    match exMTASTS scan with
    | Some mr => bool_decide (FetchStatus mr = Success)
    | None => false
    end
|}.

#[global] Instance exampleScans : scanStore (gmap string exampleScan) exampleScan
  := {|
  GetLatestScan := λ scans domain,
    match scans !! domain with
    | Some scan => (scan, None)
    | None => (mkExampleScan 0 [] None, Some "sql: no rows in result set")
    end
|}.

#[global] Instance exampleTokens : tokenStore (gmap string string) := {|
  PutToken := λ tokens domain,
    (<[domain := "token-" +:+ domain]> tokens, ("token-" +:+ domain, None))
|}.
End DomainMethods.

(** ** list_api.go *)

Module ListAPI.
(** [http.StatusOK] and [http.StatusInternalServerError]. *)
Definition StatusOK : Z := 200.
Definition StatusInternalServerError : Z := 500.

Definition Hour : Duration := 60 * (60 * Second).

(** [policy.TLSPolicy], of the missing [policy] package: the fields
    [GetList] sets. *)
Record TLSPolicy : Type := mkTLSPolicy { Mode : string; MXs : list string }.

(** [policy.List], of the missing [policy] package: the fields [GetList]
    assigns, and the rest of the list. *)
Record List (P : Type) : Type := mkList {
  Timestamp : Time;
  Expires : Time;
  Policies : P
}.
Arguments mkList {P}.
Arguments Timestamp {P}.
Arguments Expires {P}.
Arguments Policies {P}.

(** [APIResponse], of the missing API code: the fields [GetList] sets. *)
Record APIResponse (P : Type) : Type := mkAPIResponse {
  StatusCode : Z;
  Message : string;
  Response : option (List P)
}.
Arguments mkAPIResponse {P}.
Arguments StatusCode {P}.
Arguments Message {P}.
Arguments Response {P}.

Section api.
Context {R S P : Type} `{!Models.DomainStore S}.
(** [getParam], of the missing API code: the value of a parameter of the
    request, or an error. *)
Variable getParam : string → R → string * option error.
(** The method [Add] of [policy.List], of the missing [policy] package. *)
Variable Add : List P → string → TLSPolicy → List P.
(** The constant [db.StateQueued], of the missing [db] package. *)
Variable StateQueued : Models.DomainState.

(** [func getNumberParam(r *http.Request, paramName string, defaultNumber
    int) int]. *)
Definition getNumberParam (r : R) (paramName : string) (defaultNumber : Z)
  : Z :=
  let '(numStr, err) := getParam paramName r in
  match err with
  | None =>
      let '(n, err) := Atoi numStr in
      match err with
      | None => n
      | Some _ => defaultNumber
      end
  | Some _ => defaultNumber
  end.

(** The body of the loop over the queued domains. *)
Definition addQueued (cutoffTime : Time) (list : List P)
    (domainData : Models.Domain) : List P :=
  if cutoffTime <? Models.LastUpdated domainData then list
  else Add list (Models.Name domainData)
         (mkTLSPolicy "enforce" (Models.MXs domainData)).

(** [func (api API) GetList(r *http.Request) APIResponse], with the result
    [raw] of [api.List.Raw()], the database [db] and the two readings of
    [time.Now()].  [t.Add(d)] is the instant [t + d]; the products of
    durations wrap around. *)
Definition GetList (raw : List P) (db : S) (r : R) (now1 now2 : Time)
  : APIResponse P :=
  let expireWeeks := getNumberParam r "expire_weeks" 2 in
  let queuedWeeks := getNumberParam r "queued_weeks" 1 in
  let list := mkList now1 (Expires raw) (Policies raw) in
  let list :=
    mkList (Timestamp list)
      (Timestamp list + wrap64 (Hour * 24 * 7 * expireWeeks))
      (Policies list) in
  let '(queued, err) := Models.GetDomains db StateQueued in
  match err with
  | Some e => mkAPIResponse StatusInternalServerError e None
  | None =>
      let cutoffTime := now2 + wrap64 (- Hour * 24 * 7 * queuedWeeks) in
      mkAPIResponse StatusOK "" (Some (foldl (addQueued cutoffTime) list queued))
  end.
End api.

(** A request and a list for examples: the parameters of the request as a
    map, the policies of the list as a map. *)
Definition exampleGetParam (name : string) (r : gmap string string)
  : string * option error :=
  match r !! name with
  | Some value => (value, None)
  | None => ("", Some ("Parameter " +:+ name +:+ " not specified"))
  end.

Definition exampleAdd (list : List (gmap string TLSPolicy)) (domain : string)
    (policy : TLSPolicy) : List (gmap string TLSPolicy) :=
  mkList (Timestamp list) (Expires list) (<[domain := policy]> (Policies list)).
End ListAPI.

(** ** Notions the properties are stated with *)

(** A decimal numeral: the digits [ds], most significant first, as a
    string, and the number they denote. *)
Definition digitChar (d : nat) : ascii := ascii_of_nat (48 + d).

Fixpoint numeral (ds : list nat) : string :=
  match ds with
  | [] => EmptyString
  | d :: ds' => String (digitChar d) (numeral ds')
  end.

Definition numeralValue (ds : list nat) : Z :=
  foldl (λ n d, n * 10 + Z.of_nat d) 0 ds.

(** A domain result with MX records, and one whose MTA-STS result has a
    given mode. *)
Definition hasMXs (r : DomainResult) : Prop := size (HostnameResults r) ≠ 0%nat.

Definition hasMode (mode : string) (r : DomainResult) : Prop :=
  hasMXs r ∧ Mode <$> MTASTS r = Some mode.

#[global] Instance hasMXs_dec r : Decision (hasMXs r).
Proof. unfold hasMXs. apply _. Defined.

#[global] Instance hasMode_dec mode r : Decision (hasMode mode r).
Proof. unfold hasMode. apply _. Defined.

(** An inconsistency of the MTA-STS cross-validation: there is a policy,
    and it declares an MX pattern that no successfully-probed hostname of
    the domain satisfies. *)
Definition inconsistent (matchesPattern : string → string → bool)
    (mr : option MTASTSResult) (hrs : gmap string HostnameResult) : Prop :=
  ∃ policy pattern,
    mr = Some policy ∧ pattern ∈ MXs policy
    ∧ ∀ hostname hr, hrs !! hostname = Some hr →
        HostnameStatus hr = Success → matchesPattern hostname pattern = false.

(** The reports, and the checks, among the events of a validator. *)
Definition isReport (e : Validator.Event) : bool :=
  match e with Validator.Reported _ _ _ => true | _ => false end.

Definition isCheck (e : Validator.Event) : bool :=
  match e with Validator.Checked _ _ => true | _ => false end.

(** *** The state of the pipeline

    Where each domain of the input is at a given moment, which states of the
    goroutines go together, and how much work is left. *)

Section pipeline_notions.
Context {H : Type} `{!ResultHandler H}.
Variable CheckDomain : string → DomainResult.
Variable domainColumn : Z.
Variable poolSize : nat.

(** The domain the reader holds, read and not yet sent. *)
Definition producerPending (p : Producer) : list string :=
  match p with PSend d => [d] | _ => [] end.

(** The result a worker owes: of the domain it is checking, or the one it
    is sending. *)
Definition workerItems (w : Worker) : list DomainResult :=
  match w with
  | WCheck d => [CheckDomain d]
  | WSend r => [r]
  | _ => []
  end.

(** The result the collector has received and not yet handled. *)
Definition collectorItems (m : Collector) : list DomainResult :=
  match m with MHandle r => [r] | _ => [] end.

(** Every result of the run: handled, held by the collector, owed by a
    worker, or of a domain not yet given to a worker. *)
Definition accounted (σ : State H) : list DomainResult :=
  calls σ ++ collectorItems (main σ) ++ (workers σ ≫= workerItems)
  ++ (CheckDomain <$> (producerPending (producer σ)
                       ++ domainsOf domainColumn (input σ))).

(** A worker that has left its loop. *)
Definition finishing (w : Worker) : bool :=
  match w with WDone | WExit => true | _ => false end.

(** A worker that has finished. *)
Definition exited (w : Worker) : bool :=
  match w with WExit => true | _ => false end.

(** The states that go together: [work] is closed exactly when the reader
    has finished, and then the input is used up; a worker leaves its loop
    only when [work] is closed; the closing goroutine has counted the
    workers that have finished, and [results] is closed only when all have;
    [CheckCSV] returns only when [results] is closed. *)
Definition producerOK (p : Producer) (wc : bool) (rows : list ReadOutcome)
  : Prop :=
  match p with
  | PRead | PSend _ => wc = false
  | PClose => wc = false ∧ rows = []
  | PExit => wc = true ∧ rows = []
  end.

Definition workersOK (wc : bool) (ws : list Worker) : Prop :=
  wc = true ∨ Forall (λ w, finishing w = false) ws.

Definition closerOK (c : Closer) (rc : bool) (ws : list Worker) : Prop :=
  match c with
  | CWait i => rc = false ∧ i = length (filter (λ w, exited w = true) ws)
  | CExit => rc = true ∧ Forall (λ w, exited w = true) ws
  end.

Definition collectorOK (m : Collector) (rc : bool) : Prop :=
  match m with MExit => rc = true | _ => True end.

Definition wf (σ : State H) : Prop :=
  length (workers σ) = poolSize
  ∧ producerOK (producer σ) (workClosed σ) (input σ)
  ∧ workersOK (workClosed σ) (workers σ)
  ∧ closerOK (closer σ) (resultsClosed σ) (workers σ)
  ∧ collectorOK (main σ) (resultsClosed σ).

(** The handler has seen the calls made, in order. *)
Definition handlerOK (h0 : H) (σ : State H) : Prop :=
  handler σ = foldl HandleDomain h0 (calls σ).

(** The steps each goroutine has left at most, and the steps the whole
    system has left. *)
Definition producerWeight (p : Producer) : nat :=
  match p with PRead => 2 | PSend _ => 6 | PClose => 1 | PExit => 0 end.

Definition workerWeight (w : Worker) : nat :=
  match w with
  | WRecv => 2 | WCheck _ => 5 | WSend _ => 4 | WDone => 1 | WExit => 0
  end.

Definition closerWeight (c : Closer) : nat :=
  match c with CWait _ => 1 | CExit => 0 end.

Definition collectorWeight (m : Collector) : nat :=
  match m with MRecv => 1 | MHandle _ => 2 | MExit => 0 end.

Definition measure (s : System H) : nat :=
  match s with
  | Run σ =>
      S (5 * length (input σ) + producerWeight (producer σ)
         + sum_list_with workerWeight (workers σ)
         + closerWeight (closer σ) + collectorWeight (main σ))
  | Halted _ _ => 0
  end.

(** What holds of every running state of [CheckCSV] on the input [rows]
    with the handler [h0]: the states go together, every result of the
    input is in one place, the handler has seen the calls, and a property
    of the input that survives the removal of a first record still holds of
    what is left. *)
Definition runInv (rows : list ReadOutcome) (h0 : H) (s : System H) : Prop :=
  match s with
  | Run σ =>
      wf σ
      ∧ accounted σ ≡ₚ CheckDomain <$> domainsOf domainColumn rows
      ∧ handlerOK h0 σ
      ∧ (∀ P : list ReadOutcome → Prop,
           (∀ data rows', P (Row data :: rows') → P rows') →
           P rows → P (input σ))
  | Halted _ _ => True
  end.

(** A state with no step. *)
Definition stuck (s : System H) : Prop :=
  ∀ s', ¬ step CheckDomain domainColumn poolSize s s'.
End pipeline_notions.

(** A record the reader gets past: an empty one, which it skips, or one with
    a domain in the domain column; and a record that is not empty. *)
Definition readableRow (domainColumn : Z) (o : ReadOutcome) : Prop :=
  match o with
  | Row data => length data = 0%nat ∨ is_Some (index data domainColumn)
  | ReadError _ => False
  end.

Definition nonEmptyRow (o : ReadOutcome) : bool :=
  match o with
  | Row (_ :: _) => true
  | _ => false
  end.

(** A check function for examples: every domain has one MX record. *)
Definition exampleCheck (d : string) : DomainResult :=
  mkDomainResult d {[ "mx." +:+ d := zeroHostnameResult ]} None 0.

(** * Properties *)

(** ** Checker.timeout *)

Lemma wrap64_id (z : Z) : inInt64 z → wrap64 z = z.
Proof.
  unfold inInt64, wrap64, minInt64, maxInt64. intros Hz.
  rewrite Z.mod_small; lia.
Qed.

Lemma ten_seconds : wrap64 (10 * Second) = 10000000000.
Proof. reflexivity. Qed.

(** C7: the timeout of a checker is its [Timeout] field when that is set,
    and 10 seconds (10^10 nanoseconds) when the field is the zero value; in
    both cases it is not zero. *)
Theorem timeout_configured_or_default {S : Type} (c : Checker S) :
  timeout c = (if Timeout c =? 0 then 10 * Second else Timeout c)
  ∧ 10 * Second = 10000000000
  ∧ timeout c ≠ 0.
Proof.
  unfold timeout. rewrite ten_seconds.
  destruct (Z.eqb_spec (Timeout c) 0) as [Hz|Hnz].
  - rewrite decide_False by (intros Hne; apply Hne, Hz). done.
  - by rewrite decide_True.
Qed.

(** ** ScanCache *)

(** Inside the range of a [Duration] the age is the difference of the two
    instants. *)
Lemma Sub_exact (t u : Time) : inInt64 (t - u) → Sub t u = t - u.
Proof.
  unfold inInt64, Sub. intros [Hmin Hmax].
  destruct (Z.ltb_spec (t - u) minInt64); [lia|].
  destruct (Z.ltb_spec maxInt64 (t - u)); [lia | done].
Qed.

Section cache.
Context {S : Type} `{!ScanStore.Ops S}.
Implicit Types (c : ScanCache.t S) (now : Time) (hostname : string).

(** A miss of the store is a miss of the cache, with the store's error. *)
Lemma cache_get_store_error c now hostname result e :
  ScanStore.GetHostnameScan (ScanCache.Store c) hostname = (result, Some e) →
  ScanCache.GetHostnameScan c now hostname = (result, Some e).
Proof. unfold ScanCache.GetHostnameScan. by intros ->. Qed.

(** A stored scan inside the window is returned. *)
Lemma cache_get_fresh c now hostname result :
  ScanStore.GetHostnameScan (ScanCache.Store c) hostname = (result, None) →
  Sub now (Timestamp result) ≤ ScanCache.ExpireTime c →
  ScanCache.GetHostnameScan c now hostname = (result, None).
Proof.
  unfold ScanCache.GetHostnameScan. intros -> Hage.
  destruct (Z.ltb_spec (ScanCache.ExpireTime c) (Sub now (Timestamp result)));
    [lia | done].
Qed.

(** A stored scan outside the window comes with an error. *)
Lemma cache_get_stale c now hostname result :
  ScanStore.GetHostnameScan (ScanCache.Store c) hostname = (result, None) →
  ScanCache.ExpireTime c < Sub now (Timestamp result) →
  ScanCache.GetHostnameScan c now hostname =
    (result, Some ("most recent scan for " +:+ hostname +:+ " expired")).
Proof.
  unfold ScanCache.GetHostnameScan. intros -> Hage.
  destruct (Z.ltb_spec (ScanCache.ExpireTime c) (Sub now (Timestamp result)));
    [done | lia].
Qed.

(** The three cases together: no error exactly for a stored, fresh scan. *)
Lemma cache_get_no_error_iff c now hostname :
  (ScanCache.GetHostnameScan c now hostname).2 = None ↔
  (ScanStore.GetHostnameScan (ScanCache.Store c) hostname).2 = None
  ∧ Sub now (Timestamp (ScanStore.GetHostnameScan (ScanCache.Store c)
                          hostname).1) ≤ ScanCache.ExpireTime c.
Proof.
  destruct (ScanStore.GetHostnameScan (ScanCache.Store c) hostname)
    as [result [e|]] eqn:Hst.
  - rewrite (cache_get_store_error _ now _ _ _ Hst). simpl.
    split; [done | intros [? _]; done].
  - destruct (Z.le_gt_cases (Sub now (Timestamp result))
                (ScanCache.ExpireTime c)) as [Hfresh|Hstale].
    + rewrite (cache_get_fresh _ _ _ _ Hst Hfresh). simpl.
      split; [by split | done].
    + rewrite (cache_get_stale _ _ _ _ Hst Hstale). simpl.
      split; [done | intros [_ ?]; lia].
Qed.

(** The scan returned is the one the store gave, error or not. *)
Lemma cache_get_result c now hostname :
  (ScanCache.GetHostnameScan c now hostname).1 =
  (ScanStore.GetHostnameScan (ScanCache.Store c) hostname).1.
Proof.
  unfold ScanCache.GetHostnameScan.
  destruct (ScanStore.GetHostnameScan (ScanCache.Store c) hostname)
    as [result [e|]]; [done|].
  by destruct (_ <? _).
Qed.

(** C1: a lookup in the cache is a hit (no error) exactly when the store
    behind it holds a scan for the hostname (its own lookup gives no
    error) whose age [now - Timestamp] is at most [ExpireTime]; a hit
    returns the stored scan, and a stored scan older than the window is
    answered with an error, as a miss of the store is. *)
Theorem cache_hit_iff_fresh c now hostname :
  let stored := ScanStore.GetHostnameScan (ScanCache.Store c) hostname in
  let got := ScanCache.GetHostnameScan c now hostname in
  (got.2 = None ↔
     stored.2 = None
     ∧ Sub now (Timestamp stored.1) ≤ ScanCache.ExpireTime c)
  ∧ got.1 = stored.1
  ∧ (stored.2 = None
     → ScanCache.ExpireTime c < Sub now (Timestamp stored.1)
     → is_Some got.2)
  ∧ (is_Some stored.2 → is_Some got.2).
Proof.
  intros stored got. subst stored got.
  split; [apply cache_get_no_error_iff|].
  split; [apply cache_get_result|].
  split.
  - intros Hs Hage.
    destruct (ScanCache.GetHostnameScan c now hostname).2 eqn:Hg; [eauto|].
    apply cache_get_no_error_iff in Hg as [_ ?]. lia.
  - intros [e He].
    destruct (ScanCache.GetHostnameScan c now hostname).2 eqn:Hg; [eauto|].
    apply cache_get_no_error_iff in Hg as [Hnone _]. congruence.
Qed.
End cache.

(** For the in-memory store "holds a scan" is a key of the map. *)
Lemma simple_cache_hit_iff (c : ScanCache.t SimpleStore.t) now hostname :
  (ScanCache.GetHostnameScan c now hostname).2 = None ↔
  ∃ r, SimpleStore.m (ScanCache.Store c) !! hostname = Some r
       ∧ Sub now (Timestamp r) ≤ ScanCache.ExpireTime c.
Proof.
  rewrite cache_get_no_error_iff. simpl. unfold SimpleStore.GetHostnameScan.
  destruct (SimpleStore.m (ScanCache.Store c) !! hostname) as [r|]; simpl.
  - split; [intros [_ ?]; eauto | intros (r' & [= <-] & ?); done].
  - split; [intros [? _]; done | intros (r' & ? & _); done].
Qed.

(** *** Putting into the in-memory store *)

(** Reading a map: an allocated one at its entries, a nil one as empty. *)
Lemma madeMap_lookup {V : Type} (entries : gmap string V) (key : string) :
  madeMap entries !! key = entries !! key.
Proof. reflexivity. Qed.

Lemma nilMap_lookup {V : Type} (key : string) :
  (nilMap : GoMap V) !! key = None.
Proof. reflexivity. Qed.

(** What a put leaves in the map, and how it ends. *)
Lemma simple_store_put (s : SimpleStore.t) hostname result :
  SimpleStore.PutHostnameScan s hostname result
  = match SimpleStore.m s with
    | nilMap => (s, Panics "assignment to entry in nil map")
    | madeMap entries =>
        (SimpleStore.mk (madeMap (<[hostname := result]> entries)),
         Returns None)
    end.
Proof.
  unfold SimpleStore.PutHostnameScan. by destruct (SimpleStore.m s).
Qed.

(** The put of the cache is the put of its store. *)
Lemma cache_put_simple_store (c : ScanCache.t SimpleStore.t) hostname result :
  ScanCache.PutHostnameScan c hostname result
  = ((ScanCache.mk
        (SimpleStore.PutHostnameScan (ScanCache.Store c) hostname result).1
        (ScanCache.ExpireTime c)),
     (SimpleStore.PutHostnameScan (ScanCache.Store c) hostname result).2).
Proof.
  unfold ScanCache.PutHostnameScan. simpl.
  by destruct (SimpleStore.PutHostnameScan _ _ _).
Qed.

(** A put never changes the window of the cache. *)
Lemma cache_put_ExpireTime (c : ScanCache.t SimpleStore.t) hostname result :
  ScanCache.ExpireTime (ScanCache.PutHostnameScan c hostname result).1
  = ScanCache.ExpireTime c.
Proof. by rewrite cache_put_simple_store. Qed.

(** The in-memory store never returns an error from a put; it returns when
    its map is allocated, and only then. *)
Lemma simple_store_put_returns (s : SimpleStore.t) hostname result :
  (SimpleStore.PutHostnameScan s hostname result).2 = Returns None
  ↔ SimpleStore.m s ≠ nilMap.
Proof. rewrite simple_store_put. by destruct (SimpleStore.m s). Qed.

Lemma simple_store_put_panics (s : SimpleStore.t) hostname result :
  (SimpleStore.PutHostnameScan s hostname result).2
  = Panics "assignment to entry in nil map"
  ↔ SimpleStore.m s = nilMap.
Proof. rewrite simple_store_put. by destruct (SimpleStore.m s). Qed.

(** The entry of the hostname after a put that returned, the entries of the
    other hostnames after any put. *)
Lemma simple_store_put_lookup_eq (s : SimpleStore.t) hostname result :
  SimpleStore.m s ≠ nilMap →
  SimpleStore.m (SimpleStore.PutHostnameScan s hostname result).1 !! hostname
  = Some result.
Proof.
  intros Hm. rewrite simple_store_put.
  destruct (SimpleStore.m s) as [|entries]; [done|].
  apply (lookup_insert_eq entries).
Qed.

Lemma simple_store_put_lookup_ne (s : SimpleStore.t) hostname other result :
  hostname ≠ other →
  SimpleStore.m (SimpleStore.PutHostnameScan s hostname result).1 !! other
  = SimpleStore.m s !! other.
Proof.
  intros Hne. rewrite simple_store_put.
  destruct (SimpleStore.m s) as [|entries] eqn:Hm; simpl; [by rewrite Hm|].
  by apply (lookup_insert_ne entries).
Qed.

(** A put leaves a nil map nil and an allocated map allocated. *)
Lemma simple_store_put_nil_iff (s : SimpleStore.t) hostname result :
  SimpleStore.m (SimpleStore.PutHostnameScan s hostname result).1 = nilMap
  ↔ SimpleStore.m s = nilMap.
Proof.
  rewrite simple_store_put.
  by destruct (SimpleStore.m s) as [|entries] eqn:Hm; simpl; rewrite ?Hm.
Qed.

(** C8: on a cache over an in-memory store whose map is allocated, as the
    store of [MakeSimpleCache] is, [PutHostnameScan] returns no error, and a
    [GetHostnameScan] of the same hostname right after it, at a time when
    the scan put is inside the window, returns that scan and no error; the
    map is still allocated afterwards, so this holds of every later put
    too. *)
Theorem put_then_get (c : ScanCache.t SimpleStore.t) (hostname : string)
    (result : HostnameResult) (now : Time) :
  SimpleStore.m (ScanCache.Store c) ≠ nilMap →
  Sub now (Timestamp result) ≤ ScanCache.ExpireTime c →
  (ScanCache.PutHostnameScan c hostname result).2 = Returns None
  ∧ ScanCache.GetHostnameScan (ScanCache.PutHostnameScan c hostname result).1
      now hostname = (result, None)
  ∧ SimpleStore.m
      (ScanCache.Store (ScanCache.PutHostnameScan c hostname result).1)
    ≠ nilMap.
Proof.
  intros Hm Hage. rewrite cache_put_simple_store. simpl.
  split; [by apply simple_store_put_returns|]. split.
  - apply cache_get_fresh; [|done].
    simpl. unfold SimpleStore.GetHostnameScan.
    by rewrite simple_store_put_lookup_eq.
  - by rewrite simple_store_put_nil_iff.
Qed.

Lemma put_then_get_witness :
  let r := mkHostnameResult "mx.example.com" Success [] 1000 in
  let c := MakeSimpleCache (3600 * Second) in
  (ScanCache.PutHostnameScan c "mx.example.com" r).2 = Returns None
  ∧ ScanCache.GetHostnameScan
      (ScanCache.PutHostnameScan c "mx.example.com" r).1
      (1000 + 5 * Second) "mx.example.com" = (r, None)
  ∧ SimpleStore.m
      (ScanCache.Store (ScanCache.PutHostnameScan c "mx.example.com" r).1)
    ≠ nilMap.
Proof.
  apply (put_then_get (MakeSimpleCache (3600 * Second)) "mx.example.com"
           (mkHostnameResult "mx.example.com" Success [] 1000)
           (1000 + 5 * Second)).
  - discriminate.
  - vm_compute. discriminate.
Defined.

(** On the zero value of [SimpleStore], whose map is nil, the put does not
    return: the assignment panics, nothing is stored, and a lookup right
    after finds no scan. *)
Lemma put_on_zero_store :
  let r := mkHostnameResult "mx.example.com" Success [] 1000 in
  let c := ScanCache.mk SimpleStore.zero (3600 * Second) in
  (ScanCache.PutHostnameScan c "mx.example.com" r).2
  = Panics "assignment to entry in nil map"
  ∧ (ScanCache.PutHostnameScan c "mx.example.com" r).2 ≠ Returns None
  ∧ ScanCache.GetHostnameScan
      (ScanCache.PutHostnameScan c "mx.example.com" r).1
      (1000 + 5 * Second) "mx.example.com"
    = (zeroHostnameResult,
       Some "Couldn't find scan for hostname mx.example.com").
Proof. repeat split; discriminate. Qed.

(** The cache of [MakeSimpleCache] has its map allocated, and empty. *)
Lemma MakeSimpleCache_allocated (expiryTime : Duration) :
  SimpleStore.m (ScanCache.Store (MakeSimpleCache expiryTime)) = madeMap ∅.
Proof. reflexivity. Qed.

(** A scan put and then read outside the window is not returned as a hit. *)
Lemma put_then_get_late (c : ScanCache.t SimpleStore.t) hostname result now :
  ScanCache.ExpireTime c < Sub now (Timestamp result) →
  is_Some (ScanCache.GetHostnameScan
             (ScanCache.PutHostnameScan c hostname result).1 now hostname).2.
Proof.
  intros Hage. rewrite cache_put_simple_store.
  unfold ScanCache.GetHostnameScan. simpl.
  unfold SimpleStore.GetHostnameScan.
  destruct (SimpleStore.m _ !! hostname) as [r|] eqn:Hl; [|by eexists].
  destruct (SimpleStore.m (ScanCache.Store c)) as [|entries] eqn:Hm.
  - apply (simple_store_put_nil_iff _ hostname result) in Hm.
    rewrite Hm in Hl. discriminate Hl.
  - rewrite simple_store_put_lookup_eq in Hl by (by rewrite Hm).
    injection Hl as <-.
    destruct (Z.ltb_spec (ScanCache.ExpireTime c) (Sub now (Timestamp result)));
      [by eexists | lia].
Qed.

(** ** The pool size *)

Lemma digitValue_digitChar (d : nat) :
  (d < 10)%nat → digitValue (digitChar d) = Some (Z.of_nat d).
Proof.
  intros Hd. do 10 (destruct d as [|d]; [reflexivity|]). lia.
Qed.

(** Digits after a value only make it larger. *)
Lemma numeralValue_from_ge (ds : list nat) (n : Z) :
  0 ≤ n → n ≤ foldl (λ n d, n * 10 + Z.of_nat d) n ds.
Proof.
  revert n. induction ds as [|d ds IH]; intros n Hn; simpl; [done|].
  etrans; [|apply IH]; lia.
Qed.

(** The digit loop reads a numeral that fits [uint64] as its value. *)
Lemma parseDigits_numeral (ds : list nat) (n : Z) :
  Forall (λ d, (d < 10)%nat) ds → 0 ≤ n →
  foldl (λ n d, n * 10 + Z.of_nat d) n ds ≤ maxUint64 →
  parseDigits (numeral ds) n
  = ParsedValue (foldl (λ n d, n * 10 + Z.of_nat d) n ds).
Proof.
  intros Hds. revert n.
  induction Hds as [|d ds Hd _ IH]; intros n Hn Hmax; [reflexivity|].
  cbn [numeral parseDigits]. cbn [foldl] in *.
  rewrite (digitValue_digitChar d Hd).
  pose proof (numeralValue_from_ge ds (n * 10 + Z.of_nat d)) as Hge.
  unfold maxUint64 in *.
  destruct (Z.leb_spec (( 2 ^ 64 - 1) / 10 + 1) n) as [Hcut|_].
  { change ((2 ^ 64 - 1) / 10 + 1) with 1844674407370955162 in Hcut. lia. }
  destruct (Z.ltb_spec (2 ^ 64 - 1) (n * 10 + Z.of_nat d)) as [Hover|_];
    [lia|].
  apply IH; lia.
Qed.

(** A character that is not a digit never lets the digit loop end with a
    value. *)
Lemma parseDigits_non_digit (s1 s2 : string) (ch : ascii) (n v : Z) :
  digitValue ch = None → parseDigits (s1 +:+ String ch s2) n ≠ ParsedValue v.
Proof.
  intros Hch. revert n.
  induction s1 as [|c s1 IH]; intros n.
  - change (parseDigits (String ch s2) n ≠ ParsedValue v).
    cbn [parseDigits]. by rewrite Hch.
  - change (parseDigits (String c (s1 +:+ String ch s2)) n ≠ ParsedValue v).
    cbn [parseDigits]. destruct (digitValue c); [|done].
    repeat case_match; [done..|apply IH].
Qed.

Lemma splitSign_digit (d : nat) (s : string) :
  (d < 10)%nat →
  splitSign (String (digitChar d) s) = (false, String (digitChar d) s).
Proof.
  intros Hd. do 10 (destruct d as [|d]; [reflexivity|]). lia.
Qed.

(** [Atoi] reads a numeral inside the range of [int] as its value. *)
Lemma Atoi_numeral (ds : list nat) :
  ds ≠ [] → Forall (λ d, (d < 10)%nat) ds → numeralValue ds ≤ maxInt64 →
  0 ≤ numeralValue ds →
  Atoi (numeral ds) = (numeralValue ds, None).
Proof.
  intros Hne Hds Hmax Hmin. destruct ds as [|d ds]; [done|].
  assert (Hparse : parseDigits (numeral (d :: ds)) 0
                   = ParsedValue (numeralValue (d :: ds))).
  { apply parseDigits_numeral; [done..|].
    fold (numeralValue (d :: ds)). unfold maxUint64, maxInt64 in *. lia. }
  assert (Hd : (d < 10)%nat) by (by inversion Hds).
  unfold Atoi. revert Hparse. cbn [numeral]. intros Hparse.
  rewrite (splitSign_digit d _ Hd). cbv beta match.
  rewrite Hparse. cbv beta match. cbn [negb andb].
  destruct (Z.leb_spec (2 ^ 63) (numeralValue (d :: ds))) as [Hge|_];
    [unfold maxInt64 in Hmax; lia | done].
Qed.

Lemma numeralValue_nonneg_from (ds : list nat) (n : Z) :
  0 ≤ n → 0 ≤ foldl (λ n d, n * 10 + Z.of_nat d) n ds.
Proof.
  revert n. induction ds as [|d ds IH]; intros n Hn; simpl; [done|].
  apply IH. lia.
Qed.

Lemma numeralValue_nonneg (ds : list nat) : 0 ≤ numeralValue ds.
Proof. by apply numeralValue_nonneg_from. Qed.

Lemma poolSizeFromEnv_cases (env : gmap string string) :
  poolSizeFromEnv env =
    match Atoi (Getenv env "CONNECTION_POOL_SIZE") with
    | (n, None) => if 0 <? n then n else defaultPoolSize
    | (_, Some _) => defaultPoolSize
    end.
Proof.
  unfold poolSizeFromEnv.
  destruct (Atoi _) as [n [e|]]; simpl; [done|].
  destruct (Z.leb_spec n 0), (Z.ltb_spec 0 n); done || lia.
Qed.

Lemma poolSizeFromEnv_pos (env : gmap string string) :
  0 < poolSizeFromEnv env.
Proof.
  rewrite poolSizeFromEnv_cases. unfold defaultPoolSize.
  destruct (Atoi _) as [n [e|]]; [done|].
  destruct (Z.ltb_spec 0 n); lia.
Qed.

Lemma Atoi_empty : Atoi "" = (0, Some ErrSyntax).
Proof. reflexivity. Qed.

(** The bounds of [int], and which error wins: a digit that overflows
    [uint64] is a range error even with a bad character after it; a bad
    character after digits that fit [uint64] is a syntax error. *)
Example Atoi_examples :
  Atoi "9223372036854775807" = (maxInt64, None)
  ∧ Atoi "9223372036854775808" = (maxInt64, Some ErrRange)
  ∧ Atoi "-9223372036854775808" = (minInt64, None)
  ∧ Atoi "-9223372036854775809" = (minInt64, Some ErrRange)
  ∧ Atoi "18446744073709551616" = (maxInt64, Some ErrRange)
  ∧ Atoi "99999999999999999999x" = (maxInt64, Some ErrRange)
  ∧ Atoi "-99999999999999999999x" = (minInt64, Some ErrRange)
  ∧ Atoi "18446744073709551615x" = (0, Some ErrSyntax)
  ∧ Atoi "x99999999999999999999" = (0, Some ErrSyntax)
  ∧ Atoi "+" = (0, Some ErrSyntax)
  ∧ Atoi "-" = (0, Some ErrSyntax)
  ∧ Atoi "+-5" = (0, Some ErrSyntax)
  ∧ Atoi "-0" = (0, None)
  ∧ Atoi "+007" = (7, None).
Proof. repeat split; vm_compute; reflexivity. Qed.

(** C6: the pool size [CheckCSV] computes in its first statement, from the
    one reading of [CONNECTION_POOL_SIZE]: 16 when the variable is unset,
    16 when [strconv.Atoi] rejects its value (not a number, or outside
    [int]), 16 when the number is zero or negative, and the number itself
    when it is positive; a decimal numeral for a positive [int] is used as
    given.  The pool size is positive in every case. *)
Theorem pool_size_default (env : gmap string string) :
  let value := env !! "CONNECTION_POOL_SIZE" in
  let size := poolSizeFromEnv env in
  defaultPoolSize = 16
  ∧ (value = None → size = 16)
  ∧ (∀ s, value = Some s → (Atoi s).2 ≠ None → size = 16)
  ∧ (∀ s, value = Some s → (Atoi s).1 ≤ 0 → size = 16)
  ∧ (∀ s n, value = Some s → Atoi s = (n, None) → 0 < n → size = n)
  ∧ (∀ ds, value = Some (numeral ds) → ds ≠ [] →
       Forall (λ d, (d < 10)%nat) ds →
       0 < numeralValue ds ≤ maxInt64 → size = numeralValue ds)
  ∧ 0 < size.
Proof.
  intros value size. subst value size.
  rewrite poolSizeFromEnv_cases. unfold Getenv, defaultPoolSize.
  split; [done|]. split; [by intros ->|].
  split.
  { intros s -> Herr. simpl. by destruct (Atoi s) as [n [e|]]. }
  split.
  { intros s -> Hn. simpl. destruct (Atoi s) as [n [e|]]; [done|].
    simpl in Hn. destruct (Z.ltb_spec 0 n); [lia | done]. }
  split.
  { intros s n -> Hs Hn. simpl. rewrite Hs.
    destruct (Z.ltb_spec 0 n); [done | lia]. }
  split.
  { intros ds -> Hne Hds [Hpos Hmax]. simpl.
    rewrite Atoi_numeral by (done || lia).
    destruct (Z.ltb_spec 0 (numeralValue ds)); [done | lia]. }
  destruct (Atoi _) as [n [e|]]; [done|].
  destruct (Z.ltb_spec 0 n); lia.
Qed.

(** The settings of the specification: unset, not a number, zero, negative,
    beyond [int], and a valid size. *)
Example pool_size_examples :
  poolSizeFromEnv ∅ = 16
  ∧ poolSizeFromEnv {["CONNECTION_POOL_SIZE" := ""]} = 16
  ∧ poolSizeFromEnv {["CONNECTION_POOL_SIZE" := "many"]} = 16
  ∧ poolSizeFromEnv {["CONNECTION_POOL_SIZE" := "1_0"]} = 16
  ∧ poolSizeFromEnv {["CONNECTION_POOL_SIZE" := " 4"]} = 16
  ∧ poolSizeFromEnv {["CONNECTION_POOL_SIZE" := "0"]} = 16
  ∧ poolSizeFromEnv {["CONNECTION_POOL_SIZE" := "-3"]} = 16
  ∧ poolSizeFromEnv {["CONNECTION_POOL_SIZE" := "9223372036854775808"]} = 16
  ∧ poolSizeFromEnv {["CONNECTION_POOL_SIZE" := "1"]} = 1
  ∧ poolSizeFromEnv {["CONNECTION_POOL_SIZE" := "2"]} = 2
  ∧ poolSizeFromEnv {["CONNECTION_POOL_SIZE" := "+32"]} = 32.
Proof. repeat split; vm_compute; reflexivity. Qed.

(** ** DomainTotals *)

Section totals.
Import DomainTotals.

Lemma handleAll_snoc (x : t) (rs : list DomainResult) (r : DomainResult) :
  (handleAll x (rs ++ [r])).1 = (HandleDomain (handleAll x rs).1 r).1.
Proof.
  unfold handleAll. rewrite foldl_snoc.
  destruct (foldl _ _ rs) as [x' log]. simpl.
  by destruct (HandleDomain x' r).
Qed.

(** What one call does to each field. *)
Lemma HandleDomain_Attempted (x : t) (r : DomainResult) :
  Attempted (HandleDomain x r).1 = wrap64 (Attempted x + 1).
Proof.
  unfold HandleDomain. repeat case_match; done.
Qed.

Lemma HandleDomain_WithMXs (x : t) (r : DomainResult) :
  WithMXs (HandleDomain x r).1 =
    if decide (hasMXs r) then wrap64 (WithMXs x + 1) else WithMXs x.
Proof.
  unfold HandleDomain, hasMXs.
  destruct (decide (size (HostnameResults r) = 0%nat)) as [Hz|Hnz].
  - by rewrite decide_False by (intros Hne; apply Hne, Hz).
  - rewrite decide_True by done. repeat case_match; done.
Qed.

Lemma HandleDomain_MTASTSEnforce (x : t) (r : DomainResult) :
  MTASTSEnforce (HandleDomain x r).1 =
    MTASTSEnforce x ++ (if decide (hasMode "enforce" r) then [Domain r] else []).
Proof.
  unfold HandleDomain.
  destruct (decide (hasMode "enforce" r)) as [[Hm He]|Hne].
  - unfold hasMXs in Hm. rewrite decide_False by done.
    destruct (MTASTS r) as [mr|]; simplify_eq/=.
    by rewrite decide_True.
  - destruct (decide (size (HostnameResults r) = 0%nat)) as [Hz|Hnz];
      [simpl; by rewrite app_nil_r|].
    destruct (MTASTS r) as [mr|] eqn:Hmr; [|simpl; by rewrite app_nil_r].
    rewrite decide_False.
    + destruct (decide (Mode mr = "testing")); simpl; by rewrite app_nil_r.
    + intros He. apply Hne. split; [done|]. by rewrite Hmr, <- He.
Qed.

Lemma HandleDomain_MTASTSTesting (x : t) (r : DomainResult) :
  MTASTSTesting (HandleDomain x r).1 =
    MTASTSTesting x ++ (if decide (hasMode "testing" r) then [Domain r] else []).
Proof.
  unfold HandleDomain.
  destruct (decide (hasMode "testing" r)) as [[Hm Ht]|Hnt].
  - unfold hasMXs in Hm. rewrite decide_False by done.
    destruct (MTASTS r) as [mr|]; simplify_eq/=.
    rewrite decide_False by (by rewrite Ht). by rewrite decide_True.
  - destruct (decide (size (HostnameResults r) = 0%nat)) as [Hz|Hnz];
      [simpl; by rewrite app_nil_r|].
    destruct (MTASTS r) as [mr|] eqn:Hmr; [|simpl; by rewrite app_nil_r].
    destruct (decide (Mode mr = "enforce")); [simpl; by rewrite app_nil_r|].
    rewrite decide_False; [simpl; by rewrite app_nil_r|].
    intros Ht. apply Hnt. split; [done|]. by rewrite Hmr, <- Ht.
Qed.

Lemma filter_snoc_dec {A} (P : A → Prop) `{∀ a, Decision (P a)}
    (l : list A) (a : A) :
  filter P (l ++ [a]) = filter P l ++ (if decide (P a) then [a] else []).
Proof.
  rewrite filter_app, filter_cons, filter_nil. done.
Qed.

(** The state of the totals after the calls [rs], from the zero value,
    while the counters are inside [int]. *)
Lemma handleAll_zero (rs : list DomainResult) :
  Z.of_nat (length rs) ≤ maxInt64 →
  let x := (handleAll zero rs).1 in
  Attempted x = Z.of_nat (length rs)
  ∧ WithMXs x = Z.of_nat (length (filter hasMXs rs))
  ∧ MTASTSEnforce x = Domain <$> filter (hasMode "enforce") rs
  ∧ MTASTSTesting x = Domain <$> filter (hasMode "testing") rs.
Proof.
  induction rs as [|r rs IH] using rev_ind; [done|].
  rewrite length_app, Nat.add_1_r. intros Hlen x. subst x.
  destruct IH as (IHa & IHw & IHe & IHt); [lia|].
  rewrite handleAll_snoc.
  rewrite HandleDomain_Attempted, HandleDomain_WithMXs,
    HandleDomain_MTASTSEnforce, HandleDomain_MTASTSTesting.
  rewrite IHa, IHw, IHe, IHt, !filter_snoc_dec, !fmap_app, !length_app.
  pose proof (length_filter hasMXs rs) as Hle.
  unfold maxInt64 in Hlen.
  split; [rewrite wrap64_id; unfold inInt64, minInt64, maxInt64; lia|].
  split.
  { destruct (decide (hasMXs r)); simpl; [|lia].
    rewrite wrap64_id; unfold inInt64, minInt64, maxInt64; lia. }
  split; by destruct (decide _).
Qed.

(** A domain counted with a mode is counted with MX records, and no
    domain has both modes. *)
Lemma modes_within_hasMXs (rs : list DomainResult) :
  (length (filter (hasMode "enforce") rs)
   + length (filter (hasMode "testing") rs)
   ≤ length (filter hasMXs rs))%nat.
Proof.
  induction rs as [|r rs IH]; [done|].
  rewrite !filter_cons.
  destruct (decide (hasMode "enforce" r)) as [[Hm He]|Hne];
    destruct (decide (hasMode "testing" r)) as [[Hm' Ht]|Hnt];
    destruct (decide (hasMXs r)); simpl; try lia; try done.
  rewrite He in Ht. done.
Qed.
End totals.

(** C9: from the zero value of [DomainTotals], after the [HandleDomain]
    calls [rs] (fewer than 2^63 of them, so that the [int] counters have
    not wrapped): [Attempted] is the number of calls; [WithMXs] is the
    number of results with a non-empty [HostnameResults], and is at most
    [Attempted]; [MTASTSEnforce] (respectively [MTASTSTesting]) holds, in
    order, the domains of exactly the results with a non-empty
    [HostnameResults] and an MTA-STS result of mode "enforce" (respectively
    "testing"); and the two lists together are no longer than [WithMXs]. *)
Theorem totals_counts (rs : list DomainResult) :
  Z.of_nat (length rs) ≤ maxInt64 →
  let x := (DomainTotals.handleAll DomainTotals.zero rs).1 in
  DomainTotals.Attempted x = Z.of_nat (length rs)
  ∧ DomainTotals.WithMXs x = Z.of_nat (length (filter hasMXs rs))
  ∧ DomainTotals.WithMXs x ≤ DomainTotals.Attempted x
  ∧ DomainTotals.MTASTSEnforce x = Domain <$> filter (hasMode "enforce") rs
  ∧ DomainTotals.MTASTSTesting x = Domain <$> filter (hasMode "testing") rs
  ∧ Z.of_nat (length (DomainTotals.MTASTSEnforce x)
              + length (DomainTotals.MTASTSTesting x))
    ≤ DomainTotals.WithMXs x.
Proof.
  intros Hlen x. subst x.
  destruct (handleAll_zero rs Hlen) as (Ha & Hw & He & Ht).
  rewrite Ha, Hw, He, Ht, !length_fmap.
  pose proof (length_filter hasMXs rs).
  pose proof (modes_within_hasMXs rs).
  repeat split; lia.
Qed.

Lemma totals_counts_witness :
  let rs :=
    [ mkDomainResult "a.example" {["mx.a.example" := zeroHostnameResult]}
        (Some (mkMTASTSResult "enforce" [] Success)) 0;
      mkDomainResult "b.example" ∅
        (Some (mkMTASTSResult "enforce" [] Success)) 0;
      mkDomainResult "c.example" {["mx.c.example" := zeroHostnameResult]}
        (Some (mkMTASTSResult "testing" [] Success)) 0;
      mkDomainResult "d.example" {["mx.d.example" := zeroHostnameResult]}
        None 0 ] in
  let x := (DomainTotals.handleAll DomainTotals.zero rs).1 in
  DomainTotals.Attempted x = 4
  ∧ DomainTotals.WithMXs x = 3
  ∧ DomainTotals.MTASTSEnforce x = ["a.example"]
  ∧ DomainTotals.MTASTSTesting x = ["c.example"].
Proof.
  intros rs x.
  destruct (totals_counts rs) as (Ha & Hw & _ & He & Ht & _);
    [vm_compute; discriminate|].
  subst x. rewrite Ha, Hw, He, Ht. repeat split.
Defined.

(** ** Domain.PolicyListCheck *)

Section policy_list_check.
Context {S L : Type} `{!Models.DomainStore S} `{!Models.policyList L}.
Variable PolicyList : string.
Implicit Types (d : Models.Domain) (store : S) (plist : L).

Lemma found_iff store name state :
  Models.found store name state = true ↔
  (Models.GetDomain store name state).2 = None.
Proof. unfold Models.found. by rewrite bool_decide_eq_true. Qed.

Lemma found_false_iff store name state :
  Models.found store name state = false ↔
  (Models.GetDomain store name state).2 ≠ None.
Proof. unfold Models.found. by rewrite bool_decide_eq_false. Qed.

(** C10: [PolicyListCheck] returns a [Result] for every domain, store and
    list, named after the check, and decided by the first condition that
    holds, in this order: the list has the domain: success; the store
    holds the domain in state "added": success; in state "queued":
    warning; in state "unvalidated": failure, with the message about the
    pending email validation; none of these: failure, with the message
    that the domain is not on the list. *)
Theorem PolicyListCheck_precedence d store plist :
  let result := (Models.PolicyListCheck PolicyList d store plist).1 in
  let onList := Models.HasDomain plist (Models.Name d) = true in
  let held (state : Models.DomainState) :=
    (Models.GetDomain store (Models.Name d) state).2 = None in
  Name result = PolicyList
  ∧ (Status result = Success ↔ onList ∨ held "added")
  ∧ (Status result = Warning ↔ ¬ onList ∧ ¬ held "added" ∧ held "queued")
  ∧ (Status result = Failure ↔
       ¬ onList ∧ ¬ held "added" ∧ ¬ held "queued")
  ∧ (¬ onList → ¬ held "added" → held "queued" →
       Message result =
         "Domain " +:+ Models.Name d
           +:+ " is queued to be added to the policy list.")
  ∧ (¬ onList → ¬ held "added" → ¬ held "queued" → held "unvalidated" →
       Message result =
         "The policy addition request for " +:+ Models.Name d
           +:+ " is waiting on email validation")
  ∧ (¬ onList → ¬ held "added" → ¬ held "queued" → ¬ held "unvalidated" →
       Message result =
         "Domain " +:+ Models.Name d +:+ " is not on the policy list.").
Proof.
  intros result onList held. subst result onList held.
  unfold Models.PolicyListCheck.
  change Models.StateEnforce with "added"%string.
  change Models.StateTesting with "queued"%string.
  change Models.StateUnconfirmed with "unvalidated"%string.
  destruct (Models.HasDomain plist (Models.Name d)) eqn:Hlist;
    [cbn; intuition congruence|].
  destruct (Models.found store (Models.Name d) "added") eqn:Hadded.
  { apply found_iff in Hadded. cbn. intuition congruence. }
  apply found_false_iff in Hadded.
  destruct (Models.found store (Models.Name d) "queued") eqn:Hqueued.
  { apply found_iff in Hqueued. cbn. intuition congruence. }
  apply found_false_iff in Hqueued.
  destruct (Models.found store (Models.Name d) "unvalidated") eqn:Hunconf.
  { apply found_iff in Hunconf. cbn. intuition congruence. }
  apply found_false_iff in Hunconf. cbn. intuition congruence.
Qed.

(** The warning logged: only for a domain the store has as "added" and
    the list does not have. *)
Lemma PolicyListCheck_log d store plist :
  (Models.PolicyListCheck PolicyList d store plist).2 ≠ [] ↔
  Models.HasDomain plist (Models.Name d) = false
  ∧ (Models.GetDomain store (Models.Name d) Models.StateEnforce).2 = None.
Proof.
  unfold Models.PolicyListCheck.
  destruct (Models.HasDomain plist (Models.Name d)); [cbn; intuition congruence|].
  destruct (Models.found store (Models.Name d) Models.StateEnforce) eqn:Hadded.
  { apply found_iff in Hadded. cbn. intuition congruence. }
  apply found_false_iff in Hadded.
  repeat case_match; cbn; intuition congruence.
Qed.
End policy_list_check.

(** The order matters: a domain the store has both as "queued" and as
    "unvalidated" gets the warning, and one on the list gets success,
    whatever the store holds. *)
Example PolicyListCheck_examples :
  let d := Models.mkDomain "example.com" "" [] "" "" 0 0 0 in
  let row state := Models.mkDomain "example.com" "" [] "" state 0 0 0 in
  Status (Models.PolicyListCheck "policylist" d
            [row "unvalidated"; row "queued"] ([] : list string)).1 = Warning
  ∧ Status (Models.PolicyListCheck "policylist" d
              [row "unvalidated"] ["example.com"]).1 = Success
  ∧ Status (Models.PolicyListCheck "policylist" d
              [row "unvalidated"] ([] : list string)).1 = Failure
  ∧ Status (Models.PolicyListCheck "policylist" d
              [row "failed"] ([] : list string)).1 = Failure
  ∧ Status (Models.PolicyListCheck "policylist" d
              [row "added"; row "queued"] ([] : list string)).1 = Success.
Proof. repeat split; vm_compute; reflexivity. Qed.

(** ** The overall status of a domain result *)

Lemma worse_l (a b : CheckStatus) : (severity a ≤ severity (worse a b))%nat.
Proof. unfold worse. destruct (decide _); lia. Qed.

Lemma worse_r (a b : CheckStatus) : (severity b ≤ severity (worse a b))%nat.
Proof. unfold worse. destruct (decide _); lia. Qed.

Lemma worse_either (a b : CheckStatus) : worse a b = a ∨ worse a b = b.
Proof. unfold worse. destruct (decide _); auto. Qed.

Lemma worse_Success_r (a : CheckStatus) : worse a Success = a.
Proof. by destruct a. Qed.

Lemma severity_inj (a b : CheckStatus) : severity a = severity b → a = b.
Proof. by destruct a, b. Qed.

Lemma severity_le_2 (a : CheckStatus) : (severity a ≤ 2)%nat.
Proof. destruct a; simpl; lia. Qed.

(** The fold of [worse] over a list is above each of its elements ... *)
Lemma worst_upper_bound (l : list CheckStatus) (x : CheckStatus) :
  x ∈ l → (severity x ≤ severity (foldr worse Success l))%nat.
Proof.
  induction 1 as [x l|x y l _ IH]; simpl.
  - apply worse_l.
  - etrans; [apply IH | apply worse_r].
Qed.

(** ... and is one of them. *)
Lemma worst_attained (l : list CheckStatus) :
  l ≠ [] → foldr worse Success l ∈ l.
Proof.
  induction l as [|a l IH]; [done|]. intros _. simpl.
  destruct l as [|b l].
  - simpl. rewrite worse_Success_r. apply list_elem_of_here.
  - destruct (worse_either a (foldr worse Success (b :: l))) as [-> | ->].
    + apply list_elem_of_here.
    + apply list_elem_of_further, IH. done.
Qed.

Lemma elem_of_hostname_statuses (hrs : gmap string HostnameResult)
    (x : CheckStatus) :
  x ∈ HostnameStatus <$> (map_to_list hrs).*2 ↔
  ∃ hostname r, hrs !! hostname = Some r ∧ HostnameStatus r = x.
Proof.
  rewrite list_elem_of_fmap. split.
  - intros (r & -> & Hr). apply list_elem_of_fmap in Hr as ([h r'] & -> & Hin).
    apply elem_of_map_to_list in Hin. eauto.
  - intros (h & r & Hlook & <-). exists r. split; [done|].
    apply list_elem_of_fmap. exists (h, r). split; [done|].
    by apply elem_of_map_to_list.
Qed.

Section domain_check.
Variable matchesPattern : string → string → bool.
Variable tier : InconsistencyTier.

Abbreviation overall := (overallStatus matchesPattern tier).
Abbreviation verdict := (mtastsVerdict matchesPattern tier).

(** The cross-validation fails exactly when a declared pattern is satisfied
    by no hostname that was probed with success. *)
Lemma crossValidates_false_iff (policy : MTASTSResult)
    (hrs : gmap string HostnameResult) :
  crossValidates matchesPattern policy hrs = false ↔
  ∃ pattern, pattern ∈ MXs policy
    ∧ ∀ hostname hr, hrs !! hostname = Some hr →
        HostnameStatus hr = Success → matchesPattern hostname pattern = false.
Proof.
  unfold crossValidates.
  induction (MXs policy) as [|p ps IH]; simpl.
  - split; [done|]. intros (p & Hp & _). by apply elem_of_nil in Hp.
  - rewrite andb_false_iff, IH. clear IH.
    assert (Hp : existsb (λ '(hostname, r),
                   bool_decide (HostnameStatus r = Success)
                   && matchesPattern hostname p) (map_to_list hrs) = false
                 ↔ ∀ hostname hr, hrs !! hostname = Some hr →
                     HostnameStatus hr = Success →
                     matchesPattern hostname p = false).
    { setoid_rewrite <- (elem_of_map_to_list hrs).
      induction (map_to_list hrs) as [|[h r] l IHl]; simpl.
      - split; [|done]. intros _ h r Hin. by apply elem_of_nil in Hin.
      - rewrite orb_false_iff, IHl, andb_false_iff.
        rewrite bool_decide_eq_false. split.
        + intros [Hhere Hrest] h' r' Hin Hok.
          apply elem_of_cons in Hin as [[= -> ->]|Hin]; [|by eapply Hrest].
          by destruct Hhere.
        + intros Hall. split.
          * destruct (decide (HostnameStatus r = Success)) as [Hok|Hko];
              [right | by left].
            apply (Hall h r); [left | done].
          * intros h' r' Hin. apply Hall. by right. }
    rewrite Hp. split.
    + intros [Hhere|(q & Hq & Hrest)].
      * exists p. split; [left | done].
      * exists q. split; [by right | done].
    + intros (q & Hq & Hrest).
      apply elem_of_cons in Hq as [->|Hq]; [by left | right; eauto].
Qed.

(** The verdict of the MTA-STS result is the tier of an inconsistency when
    there is one, and success otherwise. *)
Lemma mtastsVerdict_cases (mr : option MTASTSResult)
    (hrs : gmap string HostnameResult) :
  (inconsistent matchesPattern mr hrs
   ∧ verdict mr hrs = inconsistencyStatus tier)
  ∨ (¬ inconsistent matchesPattern mr hrs ∧ verdict mr hrs = Success).
Proof.
  unfold mtastsVerdict, inconsistent. destruct mr as [policy|].
  - destruct (crossValidates matchesPattern policy hrs) eqn:Hcv.
    + right. split; [|done]. intros (policy' & pattern & [= <-] & Hbad).
      assert (crossValidates matchesPattern policy hrs = false) as Hf
        by (apply crossValidates_false_iff; eauto).
      congruence.
    + left. split; [|done].
      apply crossValidates_false_iff in Hcv as (pattern & Hbad).
      by exists policy, pattern.
  - right. split; [|done]. by intros (policy' & pattern & [=] & _).
Qed.

Lemma inconsistencyStatus_not_Success :
  (1 ≤ severity (inconsistencyStatus tier))%nat.
Proof. destruct tier; simpl; lia. Qed.

(** C3: the status of the composed [DomainResult] is the code of the most
    severe verdict among the hostname results together with any
    inconsistency of the MTA-STS cross-validation.  It is at least as
    severe as each hostname result; an inconsistency counts with its tier,
    so with one the status is never success; and the status is attained:
    it is the status of a hostname result, or the tier of an inconsistency
    that is there, or success when there is neither a hostname nor an
    inconsistency.  So a failure among the hostname results makes the whole
    a failure, whatever the other results are, and the whole is a success
    exactly when all hostname results succeed and there is no
    inconsistency. *)
Theorem overall_status_most_severe (domain : string)
    (hrs : gmap string HostnameResult) (mr : option MTASTSResult) :
  let r := composeDomainResult matchesPattern tier domain hrs mr in
  let status := overallStatus matchesPattern tier hrs mr in
  let inconsistency := inconsistent matchesPattern mr hrs in
  DomainStatus r = statusCode status
  ∧ (∀ hostname hr, hrs !! hostname = Some hr →
       (severity (HostnameStatus hr) ≤ severity status)%nat)
  ∧ (inconsistency →
       (severity (inconsistencyStatus tier) ≤ severity status)%nat
       ∧ status ≠ Success ∧ DomainStatus r ≠ 0)
  ∧ ((∃ hostname hr, hrs !! hostname = Some hr
                     ∧ HostnameStatus hr = status)
     ∨ (inconsistency ∧ status = inconsistencyStatus tier)
     ∨ (hrs = ∅ ∧ ¬ inconsistency ∧ status = Success))
  ∧ ((∃ hostname hr, hrs !! hostname = Some hr
                     ∧ HostnameStatus hr = Failure) →
     status = Failure ∧ DomainStatus r = 2)
  ∧ (status = Success ↔
       (∀ hostname hr, hrs !! hostname = Some hr →
          HostnameStatus hr = Success)
       ∧ ¬ inconsistency)
  ∧ (DomainStatus r = 0 ↔ status = Success).
Proof.
  intros r status inconsistency. subst r inconsistency.
  unfold composeDomainResult. simpl. fold status.
  set (l := verdict mr hrs :: (HostnameStatus <$> (map_to_list hrs).*2)).
  assert (Hub : ∀ x, x ∈ l → (severity x ≤ severity status)%nat)
    by apply worst_upper_bound.
  assert (Hin : status ∈ l) by (by apply worst_attained).
  assert (Hhost : ∀ hostname hr, hrs !! hostname = Some hr →
            (severity (HostnameStatus hr) ≤ severity status)%nat).
  { intros h hr Hl. apply Hub, list_elem_of_further, elem_of_hostname_statuses.
    eauto. }
  assert (Hinc : inconsistent matchesPattern mr hrs →
            (severity (inconsistencyStatus tier) ≤ severity status)%nat).
  { intros Hi. destruct (mtastsVerdict_cases mr hrs) as [[_ <-]|[Hno _]];
      [apply Hub, list_elem_of_here | done]. }
  pose proof inconsistencyStatus_not_Success as Htier.
  assert (Hcode : statusCode status = 0 ↔ status = Success).
  { unfold statusCode. split; [|by intros ->].
    intros Hz. apply severity_inj. simpl. lia. }
  assert (Hsucc : status = Success ↔
            (∀ hostname hr, hrs !! hostname = Some hr →
               HostnameStatus hr = Success)
            ∧ ¬ inconsistent matchesPattern mr hrs).
  { split.
    - intros Hs. split.
      + intros h hr Hl. apply severity_inj.
        pose proof (Hhost h hr Hl) as Hle. rewrite Hs in Hle. simpl in *. lia.
      + intros Hi. apply Hinc in Hi. rewrite Hs in Hi. simpl in Hi. lia.
    - intros [Hall Hno].
      apply elem_of_cons in Hin as [Hv|Hh].
      + destruct (mtastsVerdict_cases mr hrs) as [[Hi _]|[_ Hv']];
          [done | congruence].
      + apply elem_of_hostname_statuses in Hh as (h & hr & Hl & <-).
        by apply (Hall h). }
  split; [done|]. split; [done|]. split.
  { intros Hi. pose proof (Hinc Hi) as Hle. split; [done|].
    assert (status ≠ Success) as Hne.
    { intros Hs. rewrite Hs in Hle. simpl in Hle. lia. }
    split; [done|]. by rewrite Hcode. }
  split.
  { apply elem_of_cons in Hin as [Hv|Hh].
    - destruct (mtastsVerdict_cases mr hrs) as [[Hi Hv']|[Hno Hv']].
      + right. left. split; [done | congruence].
      + destruct (decide (hrs = ∅)) as [Hempty|Hne].
        * right. right. split; [done|]. split; [done | congruence].
        * left. apply map_choose in Hne as (h & hr & Hl).
          exists h, hr. split; [done|].
          assert (status = Success) as Hs by congruence.
          rewrite Hs. apply severity_inj.
          pose proof (Hhost h hr Hl) as Hle. rewrite Hs in Hle.
          simpl in *. lia.
    - left. apply elem_of_hostname_statuses in Hh as (h & hr & ? & ?). eauto. }
  split.
  { intros (h & hr & Hl & Hf).
    assert (status = Failure) as ->; [|done].
    apply severity_inj. pose proof (severity_le_2 status).
    pose proof (Hhost h hr Hl) as Hle. rewrite Hf in Hle.
    simpl in *. lia. }
  split; [exact Hsucc | exact Hcode].
Qed.
End domain_check.

(** One hostname that succeeds and one that fails: the domain fails.  Two
    that succeed and no MTA-STS result: the domain succeeds.  One that
    succeeds and a policy with a pattern it does not satisfy: the domain has
    the tier of the inconsistency. *)
Example overall_status_examples :
  let ok := mkHostnameResult "mx1.example.com" Success [] 0 in
  let ko := mkHostnameResult "mx2.example.com" Failure [] 0 in
  let matches := λ hostname pattern : string, bool_decide (hostname = pattern) in
  let policy := mkMTASTSResult "enforce" ["mx9.example.com"] Success in
  DomainStatus (composeDomainResult matches InconsistencyFailure "example.com"
                  {["mx1.example.com" := ok; "mx2.example.com" := ko]} None) = 2
  ∧ DomainStatus (composeDomainResult matches InconsistencyFailure
                    "example.com"
                    {["mx1.example.com" := ok; "mx3.example.com" := ok]} None)
    = 0
  ∧ DomainStatus (composeDomainResult matches InconsistencyFailure
                    "example.com" {["mx1.example.com" := ok]} (Some policy))
    = 2
  ∧ DomainStatus (composeDomainResult matches InconsistencyWarning
                    "example.com" {["mx1.example.com" := ok]} (Some policy))
    = 1.
Proof. repeat split; vm_compute; reflexivity. Qed.

(** ** The validator *)

Section validator.
Import Validator.
Context {S : Type} `{!DomainPolicyStore S}.
Implicit Types (v : Validator.t S) (e : Event).

Abbreviation hostnamesOf v d := (HostnamesForDomain (Validator.Store v) d).
Abbreviation verdictOf v d := (checkPerformer v d (hostnamesOf v d)).






End validator.

(** The scenario of [TestRegularValidationReportsErrors]: the reporter is
    called for "fail" and "error", and not for "normal". *)
Example validator_test_scenario :
  let v := Validator.mk "mock" (100 * Millisecond)
             ({["fail" := ["hostname"]; "error" := ["hostname"];
                "normal" := ["hostname"]]} : gmap string (list string))
             Validator.fakeChecker in
  filter isReport (Validator.tick v) ≡ₚ
    [Validator.Reported "mock" "fail" (mkDomainResult "" ∅ None 5);
     Validator.Reported "mock" "error" (mkDomainResult "" ∅ None 5)]
  ∧ length (filter isCheck (Validator.tick v)) = 3%nat.
Proof.
  split; [|vm_compute; reflexivity].
  vm_compute. apply perm_swap.
Qed.

(** ** CheckCSV *)

Section pipeline.
Context {H : Type} `{!ResultHandler H}.
Variable CheckDomain : string → DomainResult.
Variable domainColumn : Z.
Variable poolSize : nat.

Abbreviation stp := (step (H := H) CheckDomain domainColumn poolSize).
Abbreviation reach := (rtc (step (H := H) CheckDomain domainColumn poolSize)).

(** *** Termination: every step uses up some of the work left *)

Lemma step_measure (s s' : System H) : stp s s' → (measure s' < measure s)%nat.
Proof.
  destruct 1; simpl; rewrite ?sum_list_with_app; simpl; lia.
Qed.

Lemma step_sn (s : System H) : sn stp s.
Proof.
  remember (measure s) as n eqn:Hn. revert s Hn.
  induction n as [n IH] using lt_wf_ind. intros s ->.
  constructor. intros s' Hstep. apply (IH (measure s')); [|done].
  by apply step_measure.
Qed.

Lemma Halted_stuck (h : Halt) (cs : list DomainResult) :
  stuck CheckDomain domainColumn poolSize (Halted h cs : System H).
Proof. intros s' Hstep. inversion Hstep. Qed.

(** *** The states that go together *)

Lemma count_all_Forall {A} (P : A → Prop) `{∀ a, Decision (P a)} (l : list A) :
  (length l ≤ length (filter P l))%nat → Forall P l.
Proof.
  induction l as [|a l IH]; [constructor|].
  rewrite filter_cons. pose proof (length_filter P l).
  destruct (decide (P a)); simpl; intros Hle; [|lia].
  constructor; [done|]. apply IH. lia.
Qed.

Lemma filter_exited_none (ws : list Worker) :
  Forall (λ w, finishing w = false) ws →
  filter (λ w, exited w = true) ws = [].
Proof.
  induction 1 as [|w ws Hw _ IH]; [done|].
  rewrite filter_cons, IH. destruct w; done.
Qed.

Lemma start_wf (rows : list ReadOutcome) (h : H) :
  wf poolSize (mkState rows PRead false (replicate poolSize WRecv) (CWait 0)
                 false MRecv h []).
Proof.
  assert (Forall (λ w, finishing w = false) (replicate poolSize WRecv))
    by (by apply Forall_replicate).
  unfold wf; simpl. rewrite length_replicate, filter_exited_none by done.
  repeat split; by right.
Qed.

Ltac wf_normal :=
  unfold wf, producerOK, workersOK, closerOK, collectorOK; simpl;
  intros (Hlen & Hprod & Hwork & Hclo & Hmain);
  repeat match goal with
  | Hyp : context [Forall _ (_ ++ _)] |- _ => rewrite Forall_app in Hyp
  | Hyp : context [Forall _ (_ :: _)] |- _ => rewrite Forall_cons in Hyp
  | Hyp : context [filter _ (_ ++ _)] |- _ => rewrite filter_app in Hyp
  | Hyp : context [filter _ (_ :: _)] |- _ => rewrite filter_cons in Hyp
  | Hyp : context [length (_ ++ _)] |- _ => rewrite length_app in Hyp
  | |- context [Forall _ (_ ++ _)] => rewrite Forall_app
  | |- context [Forall _ (_ :: _)] => rewrite Forall_cons
  | |- context [filter _ (_ ++ _)] => rewrite filter_app
  | |- context [filter _ (_ :: _)] => rewrite filter_cons
  | |- context [length (_ ++ _)] => rewrite length_app
  end;
  simpl in *.

Lemma step_wf (s s' : System H) :
  stp s s' → ∀ σ σ', s = Run σ → s' = Run σ' →
  wf poolSize σ → wf poolSize σ'.
Proof.
  destruct 1; intros σ σ' [= <-] [= <-];
    try match goal with c : Closer |- _ => destruct c end;
    wf_normal.
  all: try (intuition (congruence || lia)).
  destruct Hclo as [_ ->]. repeat split; try done.
  - apply (count_all_Forall (λ w, exited w = true)). lia.
  - by destruct m.
Qed.

(** *** Every result is in exactly one place *)

Lemma perm_move_in {A} (x : A) (l1 l2 k : list A) :
  (l1 ++ l2) ++ x :: k ≡ₚ (l1 ++ x :: l2) ++ k.
Proof.
  rewrite <- !app_assoc. apply Permutation_app_head. simpl.
  symmetry. apply Permutation_middle.
Qed.

Lemma perm_move_out {A} (x : A) (l1 l2 k : list A) :
  (l1 ++ x :: l2) ++ k ≡ₚ x :: (l1 ++ l2) ++ k.
Proof.
  rewrite <- !app_assoc. simpl. symmetry. apply Permutation_middle.
Qed.

Lemma step_accounted (s s' : System H) :
  stp s s' → ∀ σ σ', s = Run σ → s' = Run σ' →
  accounted CheckDomain domainColumn σ ≡ₚ accounted CheckDomain domainColumn σ'.
Proof.
  destruct 1; intros σ σ' [= <-] [= <-]; unfold accounted; simpl;
    rewrite ?bind_app, ?bind_cons; simpl; try reflexivity.
  - (* an empty record *)
    by rewrite decide_True.
  - (* a record with a domain *)
    rewrite decide_False by done.
    match goal with Hi : index _ _ = Some _ |- _ => rewrite Hi end.
    reflexivity.
  - (* the domain goes to a worker *)
    do 2 apply Permutation_app_head. apply perm_move_in.
  - (* the result goes to the collector *)
    apply Permutation_app_head. apply perm_move_out.
  - (* the result is handled *)
    by rewrite <- app_assoc.
Qed.

Lemma calls_accounted (σ : State H) :
  calls σ ⊆+ accounted CheckDomain domainColumn σ.
Proof. unfold accounted. apply submseteq_inserts_r. done. Qed.

Lemma step_handlerOK (h0 : H) (s s' : System H) :
  stp s s' → ∀ σ σ', s = Run σ → s' = Run σ' →
  handlerOK h0 σ → handlerOK h0 σ'.
Proof.
  destruct 1; intros σ σ' [= <-] [= <-]; unfold handlerOK; simpl; try done.
  intros ->. by rewrite foldl_snoc.
Qed.

(** The reader leaves a property of the input in place when the property
    holds of the rest of an input that starts with a record. *)
Lemma step_input (P : list ReadOutcome → Prop) (s s' : System H) :
  (∀ data rows, P (Row data :: rows) → P rows) →
  stp s s' → ∀ σ σ', s = Run σ → s' = Run σ' →
  P (input σ) → P (input σ').
Proof.
  intros HP. destruct 1; intros σ σ' [= <-] [= <-]; simpl; eauto.
Qed.

(** How a run ends other than by returning. *)
Lemma step_Halted (σ : State H) (h : Halt) (cs : list DomainResult) :
  stp (Run σ) (Halted h cs) →
  cs = calls σ
  ∧ ((∃ err rows, h = Fatal err ∧ input σ = ReadError err :: rows)
     ∨ (∃ data rows, input σ = Row data :: rows
                     ∧ index data domainColumn = None)
     ∨ (resultsClosed σ = true
        ∧ ∃ ws1 r ws2, workers σ = ws1 ++ WSend r :: ws2)).
Proof.
  inversion 1; subst; simpl; (split; [done|]).
  - right; left. eauto.
  - left. eauto.
  - right; right. eauto 6.
Qed.

(** With the states that go together, no worker sends on the closed
    channel. *)
Lemma wf_no_send_on_closed (σ : State H) (ws1 ws2 : list Worker)
    (r : DomainResult) :
  wf poolSize σ → resultsClosed σ = true →
  workers σ ≠ ws1 ++ WSend r :: ws2.
Proof.
  intros (_ & _ & _ & Hclo & _) Hrc Hws. unfold closerOK in Hclo.
  destruct (closer σ); [destruct Hclo; congruence|].
  destruct Hclo as [_ Hall]. rewrite Hws, Forall_app, Forall_cons in Hall.
  by destruct Hall as (_ & ? & _).
Qed.

(** *** What holds of every state of a run *)

Lemma reach_runInv (rows : list ReadOutcome) (h0 : H) (s : System H) :
  reach (start poolSize rows h0) s →
  runInv CheckDomain domainColumn poolSize rows h0 s.
Proof.
  revert s.
  apply (rtc_ind_r (runInv CheckDomain domainColumn poolSize rows h0)).
  - split; [apply start_wf|].
    split; [|split; [done | by intros P _ ?]].
    unfold accounted. simpl.
    assert (replicate poolSize WRecv ≫= workerItems CheckDomain = []) as ->;
      [|done].
    induction poolSize; [done|]. simpl. done.
  - intros s s' _ Hstep IH.
    destruct s as [σ0|h cs]; [|by inversion Hstep].
    destruct s' as [σ|h cs]; [|done].
    destruct IH as (Hwf & Hacc & Hh & Hin).
    split; [by eapply step_wf|].
    split; [by rewrite <- (step_accounted _ _ Hstep σ0 σ)|].
    split; [by eapply step_handlerOK|].
    intros P HP HP0.
    exact (step_input P _ _ HP Hstep σ0 σ eq_refl eq_refl (Hin P HP HP0)).
Qed.

(** A run that has ended other than by returning was running one step
    before. *)
Lemma reach_Halted (s0 : System H) (h : Halt) (cs : list DomainResult) :
  reach s0 (Halted h cs) →
  s0 = Halted h cs ∨ ∃ σ, reach s0 (Run σ) ∧ stp (Run σ) (Halted h cs).
Proof.
  intros Hreach. apply rtc_inv_r in Hreach as [->|(s & Hreach & Hstep)];
    [by left|right].
  destruct s as [σ|h' cs']; [eauto | by inversion Hstep].
Qed.
(** The calls made are among the results of the input, each at most as
    often as its domain is there, in every state of a run. *)
Lemma reach_calls (rows : list ReadOutcome) (h0 : H) (s : System H) :
  reach (start poolSize rows h0) s →
  callsOf s ⊆+ CheckDomain <$> domainsOf domainColumn rows.
Proof.
  intros Hreach. destruct s as [σ|h cs]; simpl.
  - destruct (reach_runInv _ _ _ Hreach) as (_ & Hacc & _).
    rewrite <- Hacc. apply calls_accounted.
  - apply reach_Halted in Hreach as [[=]|(σ & Hreach & Hstep)].
    apply step_Halted in Hstep as [-> _].
    destruct (reach_runInv _ _ _ Hreach) as (_ & Hacc & _).
    rewrite <- Hacc. apply calls_accounted.
Qed.

(** *** No deadlock *)

Lemma workers_cases (ws : list Worker) :
  (∃ ws1 r ws2, ws = ws1 ++ WSend r :: ws2)
  ∨ (∃ ws1 d ws2, ws = ws1 ++ WCheck d :: ws2)
  ∨ (∃ ws1 ws2, ws = ws1 ++ WDone :: ws2)
  ∨ (∃ ws1 ws2, ws = ws1 ++ WRecv :: ws2)
  ∨ Forall (λ w, exited w = true) ws.
Proof.
  induction ws as [|w ws IH]; [do 4 right; constructor|].
  destruct w as [|d|r| |].
  - do 3 right; left. by exists [], ws.
  - right; left. by exists [], d, ws.
  - left. by exists [], r, ws.
  - do 2 right; left. by exists [], ws.
  - destruct IH as [(ws1 & r & ws2 & ->)|[(ws1 & d & ws2 & ->)|
      [(ws1 & ws2 & ->)|[(ws1 & ws2 & ->)|Hall]]]].
    + left. by exists (WExit :: ws1), r, ws2.
    + right; left. by exists (WExit :: ws1), d, ws2.
    + do 2 right; left. by exists (WExit :: ws1), ws2.
    + do 3 right; left. by exists (WExit :: ws1), ws2.
    + do 4 right. by constructor.
Qed.

Lemma filter_exited_all (ws : list Worker) :
  Forall (λ w, exited w = true) ws →
  filter (λ w, exited w = true) ws = ws.
Proof.
  induction 1 as [|w ws Hw _ IH]; [done|].
  by rewrite filter_cons, decide_True, IH.
Qed.

(** A pool that is not empty and has finished has found [work] closed. *)
Lemma exited_pool_work_closed (wc : bool) (ws : list Worker) :
  (0 < length ws)%nat → workersOK wc ws →
  Forall (λ w, exited w = true) ws → wc = true.
Proof.
  intros Hlen [->|Hnone] Hall; [done|].
  destruct ws as [|w ws]; [simpl in Hlen; lia|].
  apply Forall_cons in Hnone as [Hw _]. apply Forall_cons in Hall as [Hw' _].
  by destruct w.
Qed.

(** The reader can always take its next step at [domains.Read()]. *)
Lemma read_progress rows wc ws c rc m (h : H) cs :
  ∃ s', stp (Run (mkState rows PRead wc ws c rc m h cs)) s'.
Proof.
  destruct rows as [|[data|err] rows].
  - eexists. apply step_read_eof.
  - destruct (decide (length data = 0%nat)) as [Hz|Hnz].
    + eexists. by apply step_read_empty.
    + destruct (index data domainColumn) as [d|] eqn:Hd.
      * eexists. by eapply step_read_row.
      * eexists. by apply step_read_index_panic.
  - eexists. apply step_read_fatal.
Qed.

(** With at least one worker, a run that has not returned has a step. *)
Lemma progress (σ : State H) :
  (0 < poolSize)%nat → wf poolSize σ → main σ ≠ MExit → ∃ s', stp (Run σ) s'.
Proof.
  intros Hpos (Hlen & Hprod & Hwork & Hclo & _) Hmain.
  destruct σ as [rows p wc ws c rc m h cs]. simpl in *.
  destruct m as [|r|]; [|eexists; apply step_handle|done].
  destruct (workers_cases ws) as [(ws1 & r & ws2 & ->)|[(ws1 & d & ws2 & ->)|
    [(ws1 & ws2 & ->)|[(ws1 & ws2 & ->)|Hall]]]].
  - destruct rc; eexists; [apply step_result_closed | apply step_result].
  - eexists. apply step_check.
  - destruct c as [i|].
    + destruct (decide (i < poolSize)%nat).
      * eexists. by apply step_done.
      * eexists. by apply step_close_results.
    + destruct Hclo as [_ Hall].
      rewrite Forall_app, Forall_cons in Hall. by destruct Hall as (_ & ? & _).
  - destruct p as [|d| |]; simpl in Hprod.
    + apply read_progress.
    + subst wc. eexists. apply step_work.
    + eexists. apply step_close_work.
    + destruct Hprod as [-> _]. eexists. apply step_work_closed.
  - assert (wc = true) as ->
      by (apply (exited_pool_work_closed _ ws); [lia|done..]).
    destruct p as [|d| |]; simpl in Hprod; try done.
    + by destruct Hprod.
    + destruct c as [i|].
      * destruct Hclo as [_ ->]. rewrite filter_exited_all by done.
        eexists. apply step_close_results. lia.
      * destruct Hclo as [-> _]. eexists. apply step_return.
Qed.

(** *** When CheckCSV returns *)

Lemma returned_final (σ : State H) :
  (0 < poolSize)%nat → wf poolSize σ → main σ = MExit →
  input σ = [] ∧ producer σ = PExit ∧ workClosed σ = true
  ∧ resultsClosed σ = true ∧ closer σ = CExit
  ∧ Forall (λ w, exited w = true) (workers σ)
  ∧ accounted CheckDomain domainColumn σ = calls σ.
Proof.
  intros Hpos (Hlen & Hprod & Hwork & Hclo & Hcol) Hmain.
  unfold accounted.
  destruct σ as [rows p wc ws c rc m h cs]. simpl in *. subst m.
  simpl in Hcol. subst rc.
  destruct c as [i|]; simpl in Hclo; [by destruct Hclo|].
  destruct Hclo as [_ Hall].
  assert (wc = true) as ->
    by (apply (exited_pool_work_closed _ ws); [lia|done..]).
  destruct p; simpl in Hprod; try done; try (by destruct Hprod).
  destruct Hprod as [_ ->].
  repeat split; try done.
  assert (ws ≫= workerItems CheckDomain = []) as ->.
  { clear Hlen Hwork. induction Hall as [|w ws Hw _ IH]; [done|].
    rewrite bind_cons, IH. by destruct w. }
  simpl. by rewrite app_nil_r.
Qed.

(** Once [CheckCSV] has returned nothing is left to run. *)
Lemma returned_stuck (σ : State H) :
  (0 < poolSize)%nat → wf poolSize σ → main σ = MExit →
  stuck CheckDomain domainColumn poolSize (Run σ).
Proof.
  intros Hpos Hwf Hmain s' Hstep.
  destruct (returned_final σ Hpos Hwf Hmain)
    as (Hin & Hp & Hwc & Hrc & Hc & Hall & _).
  inversion Hstep; subst; simpl in *; try done;
    rewrite Forall_app, Forall_cons in Hall; by destruct Hall as (_ & ? & _).
Qed.

(** In a run, a state with no step is one where [CheckCSV] has returned or
    the process has ended. *)
Lemma stuck_Run_returned (rows : list ReadOutcome) (h0 : H) (σ : State H) :
  (0 < poolSize)%nat →
  reach (start poolSize rows h0) (Run σ) →
  stuck CheckDomain domainColumn poolSize (Run σ) ↔ main σ = MExit.
Proof.
  intros Hpos Hreach.
  destruct (reach_runInv _ _ _ Hreach) as (Hwf & _).
  split; [|by apply returned_stuck].
  intros Hstuck. destruct (main σ) eqn:Hm; [| |done].
  - destruct (progress σ Hpos Hwf) as [s' Hs']; [congruence|].
    by apply Hstuck in Hs'.
  - destruct (progress σ Hpos Hwf) as [s' Hs']; [congruence|].
    by apply Hstuck in Hs'.
Qed.

(** From every state of a run some schedule leads to a state with no
    step. *)
Lemma run_completes (rows : list ReadOutcome) (h0 : H) (s : System H) :
  (0 < poolSize)%nat →
  reach (start poolSize rows h0) s →
  ∃ s', reach s s' ∧ stuck CheckDomain domainColumn poolSize s'.
Proof.
  intros Hpos. induction (step_sn s) as [s _ IH]. intros Hreach.
  destruct s as [σ|h cs]; [|exists (Halted h cs); split;
                             [done | apply Halted_stuck]].
  destruct (reach_runInv _ _ _ Hreach) as (Hwf & _).
  destruct (main σ) eqn:Hmain.
  - destruct (progress σ Hpos Hwf) as [s1 Hs1]; [congruence|].
    destruct (IH s1 Hs1) as (s' & Hreach' & Hstuck); [by eapply rtc_r|].
    exists s'. split; [by eapply rtc_l | done].
  - destruct (progress σ Hpos Hwf) as [s1 Hs1]; [congruence|].
    destruct (IH s1 Hs1) as (s' & Hreach' & Hstuck); [by eapply rtc_r|].
    exists s'. split; [by eapply rtc_l | done].
  - exists (Run σ). split; [done | by apply returned_stuck].
Qed.

(** *** Inputs *)

Lemma domainRow_index (data : list string) :
  is_Some (index data domainColumn) → length data ≠ 0%nat.
Proof.
  intros [d Hd] Hlen. destruct data; [|done].
  unfold index in Hd. destruct (domainColumn <? 0); [done|].
  by rewrite lookup_nil in Hd.
Qed.

(** The domains of an input of domain rows: one for each row, the one in
    its column. *)
Lemma domainsOf_domainRows (rows : list ReadOutcome) :
  Forall (domainRow domainColumn) rows →
  Forall2 (λ o d, ∃ data, o = Row data ∧ index data domainColumn = Some d)
    rows (domainsOf domainColumn rows).
Proof.
  induction 1 as [|[data|err] rows Hrow _ IH]; [constructor| |done].
  simpl in *. rewrite decide_False by (by apply domainRow_index).
  destruct Hrow as [d Hd]. rewrite Hd. constructor; eauto.
Qed.

(** Up to a read error after domain rows, the domains are those of the
    rows. *)
Lemma domainsOf_until_error (good rest : list ReadOutcome) (err : error) :
  Forall (domainRow domainColumn) good →
  domainsOf domainColumn (good ++ ReadError err :: rest) =
  domainsOf domainColumn good.
Proof.
  induction 1 as [|[data|e] rows Hrow _ IH]; [done| |done].
  simpl in *. rewrite !decide_False by (by apply domainRow_index).
  destruct Hrow as [d Hd]. by rewrite Hd, IH.
Qed.

(** On an input of domain rows the process does not end by [log.Fatal] or
    by a panic. *)
Lemma domainRows_no_Halted (rows : list ReadOutcome) (h0 : H) (h : Halt)
    (cs : list DomainResult) :
  Forall (domainRow domainColumn) rows →
  ¬ reach (start poolSize rows h0) (Halted h cs).
Proof.
  intros Hrows Hreach.
  apply reach_Halted in Hreach as [[=]|(σ & Hreach & Hstep)].
  destruct (reach_runInv _ _ _ Hreach) as (Hwf & _ & _ & Hin).
  assert (Forall (domainRow domainColumn) (input σ)) as Hrest.
  { apply (Hin (Forall (domainRow domainColumn))); [|done].
    intros data rows'. by inversion 1. }
  apply step_Halted in Hstep as
    [_ [(err & rows' & _ & Hi)|[(data & rows' & Hi & Hidx)|
        (Hrc & ws1 & r & ws2 & Hws)]]].
  - rewrite Hi in Hrest. by inversion Hrest.
  - rewrite Hi in Hrest. apply Forall_cons in Hrest as [[d Hd] _]. congruence.
  - by apply (wf_no_send_on_closed σ ws1 ws2 r Hwf Hrc).
Qed.

(** What is left to read of an input with a read error after domain rows,
    before the error is read: some of the domain rows, the error, and all
    that comes after it. *)
Lemma error_not_passed (good rest : list ReadOutcome) (err : error) (h0 : H)
    (σ : State H) :
  Forall (domainRow domainColumn) good →
  reach (start poolSize (good ++ ReadError err :: rest) h0) (Run σ) →
  ∃ k, input σ = k ++ ReadError err :: rest
       ∧ Forall (domainRow domainColumn) k.
Proof.
  intros Hgood Hreach.
  destruct (reach_runInv _ _ _ Hreach) as (_ & _ & _ & Hin).
  apply (Hin (λ l, ∃ k, l = k ++ ReadError err :: rest
                        ∧ Forall (domainRow domainColumn) k)); [|eauto].
  intros data rows' (k & Hk & Hfa). destruct k as [|o k]; [done|].
  injection Hk as <- ->. apply Forall_cons in Hfa as [_ Hfa]. eauto.
Qed.

(** On such an input the process ends by [log.Fatal] with that error, and
    in no other way. *)
Lemma error_Halted (good rest : list ReadOutcome) (err : error) (h0 : H)
    (h : Halt) (cs : list DomainResult) :
  Forall (domainRow domainColumn) good →
  reach (start poolSize (good ++ ReadError err :: rest) h0) (Halted h cs) →
  h = Fatal err.
Proof.
  intros Hgood Hreach.
  apply reach_Halted in Hreach as [[=]|(σ & Hreach & Hstep)].
  destruct (error_not_passed _ _ _ _ _ Hgood Hreach) as (k & Hk & Hfa).
  destruct (reach_runInv _ _ _ Hreach) as (Hwf & _).
  apply step_Halted in Hstep as
    [_ [(err' & rows' & -> & Hi)|[(data & rows' & Hi & Hidx)|
        (Hrc & ws1 & r & ws2 & Hws)]]].
  - rewrite Hi in Hk. destruct k as [|o k]; [by injection Hk as ->|].
    injection Hk as <- _. by apply Forall_cons in Hfa as [? _].
  - rewrite Hi in Hk. destruct k as [|o k]; [done|].
    injection Hk as <- _. apply Forall_cons in Hfa as [[d Hd] _]. congruence.
  - by destruct (wf_no_send_on_closed σ ws1 ws2 r Hwf Hrc).
Qed.
End pipeline.

(** With the pool size [CheckCSV] reads, the pool is never empty. *)
Lemma pool_not_empty (env : gmap string string) :
  (0 < Z.to_nat (poolSizeFromEnv env))%nat.
Proof. pose proof (poolSizeFromEnv_pos env). lia. Qed.

(** C2: on an input of N domain rows (records that hold a domain in the
    domain column), with the pool size of any environment and under every
    interleaving of the goroutines: the run has no infinite schedule; it
    does not end by [log.Fatal] or a panic; [results] is closed only when
    every worker has finished; the handler has received, by [HandleDomain]
    calls made one after the other, results of the input, none more often
    than its domain is in the input; the run can go on until [CheckCSV]
    returns, and at that point the calls are, up to their order, the results
    of the domains of the rows, one for each row: N calls. *)
Theorem CheckCSV_each_domain_once {H : Type} `{!ResultHandler H}
    (CheckDomain : string → DomainResult) (domainColumn : Z)
    (env : gmap string string) (rows : list ReadOutcome) (h0 : H)
    (s : System H) :
  let run := step CheckDomain domainColumn (Z.to_nat (poolSizeFromEnv env)) in
  Forall (domainRow domainColumn) rows →
  rtc run (CheckCSV env rows h0) s →
  Forall2 (λ o d, ∃ data, o = Row data ∧ index data domainColumn = Some d)
    rows (domainsOf domainColumn rows)
  ∧ sn run s
  ∧ ∃ σ, s = Run σ
      ∧ (resultsClosed σ = true → Forall (λ w, exited w = true) (workers σ))
      ∧ handler σ = foldl HandleDomain h0 (calls σ)
      ∧ calls σ ⊆+ CheckDomain <$> domainsOf domainColumn rows
      ∧ ((∀ s', ¬ run s s') ↔ main σ = MExit)
      ∧ (∃ σ', rtc run s (Run σ') ∧ main σ' = MExit)
      ∧ (main σ = MExit →
           calls σ ≡ₚ CheckDomain <$> domainsOf domainColumn rows
           ∧ length (calls σ) = length rows).
Proof.
  intros run Hrows Hreach. subst run. unfold CheckCSV in Hreach.
  pose proof (pool_not_empty env) as Hpos.
  pose proof (domainsOf_domainRows domainColumn rows Hrows) as Hdoms.
  split; [done|]. split; [apply step_sn|].
  destruct s as [σ|h cs];
    [|by destruct (domainRows_no_Halted _ _ _ _ _ _ _ Hrows Hreach)].
  exists σ. split; [done|].
  pose proof (reach_runInv _ _ _ _ _ _ Hreach) as (Hwf & Hacc & Hh & _).
  split.
  { intros Hrc. destruct Hwf as (_ & _ & _ & Hclo & _).
    unfold closerOK in Hclo. destruct (closer σ); destruct Hclo; congruence. }
  split; [done|].
  split; [apply (reach_calls _ _ _ _ _ _ Hreach)|].
  split; [by apply (stuck_Run_returned _ _ _ rows h0)|].
  split.
  { destruct (run_completes _ _ _ rows h0 (Run σ) Hpos Hreach)
      as (s' & Hreach' & Hstuck).
    assert (Hreach0 : rtc (step CheckDomain domainColumn
                             (Z.to_nat (poolSizeFromEnv env)))
                        (start (Z.to_nat (poolSizeFromEnv env)) rows h0) s')
      by (by etrans).
    destruct s' as [σ'|h cs];
      [|by destruct (domainRows_no_Halted _ _ _ _ _ _ _ Hrows Hreach0)].
    exists σ'. split; [done|].
    by apply (stuck_Run_returned _ _ _ rows h0 σ' Hpos Hreach0). }
  intros Hret.
  destruct (returned_final CheckDomain domainColumn _ σ Hpos Hwf Hret)
    as (_ & _ & _ & _ & _ & _ & Hcalls).
  rewrite Hcalls in Hacc. split; [done|].
  by rewrite Hacc, length_fmap, <- (Forall2_length _ _ _ Hdoms).
Qed.

(** A run of [CheckCSV] with one worker on one row, from the start to the
    return, and what the property above says of its last state. *)
Lemma CheckCSV_each_domain_once_witness :
  let check := λ d : string, mkDomainResult d ∅ None 0 in
  let env : gmap string string := {["CONNECTION_POOL_SIZE" := "1"]} in
  let rows := [Row ["example.com"]] in
  let h0 : DomainTotals.t * list (LogLine DomainTotals.t) :=
    (DomainTotals.zero, []) in
  ∃ σ, rtc (step check 0 (Z.to_nat (poolSizeFromEnv env)))
           (CheckCSV env rows h0) (Run σ)
       ∧ main σ = MExit
       ∧ calls σ ≡ₚ [check "example.com"]
       ∧ length (calls σ) = 1%nat
       ∧ DomainTotals.Attempted (handler σ).1 = 1.
Proof.
  intros check env rows h0.
  set (h1 := HandleDomain h0 (check "example.com")).
  set (σ := mkState [] PExit true [WExit] CExit true MExit h1
              [check "example.com"]).
  assert (Hreach : rtc (step check 0 (Z.to_nat (poolSizeFromEnv env)))
                     (CheckCSV env rows h0) (Run σ)).
  { change (Z.to_nat (poolSizeFromEnv env)) with 1%nat.
    change (CheckCSV env rows h0) with
      (Run (mkState rows PRead false [WRecv] (CWait 0) false MRecv h0 [])).
    eapply rtc_l; [by eapply step_read_row|].
    eapply rtc_l; [eapply step_work with (ws1 := []) (ws2 := [])|].
    eapply rtc_l; [eapply step_check with (ws1 := []) (ws2 := [])|].
    eapply rtc_l; [eapply step_result with (ws1 := []) (ws2 := [])|].
    eapply rtc_l; [eapply step_handle|].
    eapply rtc_l; [eapply step_read_eof|].
    eapply rtc_l; [eapply step_close_work|].
    eapply rtc_l; [eapply step_work_closed with (ws1 := []) (ws2 := [])|].
    eapply rtc_l;
      [eapply step_done with (ws1 := []) (ws2 := []); lia|].
    eapply rtc_l; [eapply step_close_results; lia|].
    eapply rtc_l; [eapply step_return|].
    apply rtc_refl. }
  destruct (CheckCSV_each_domain_once check 0 env rows h0 (Run σ))
    as (_ & _ & σ' & [= <-] & _ & Hh & _ & _ & _ & Hret);
    [repeat constructor; by eexists | exact Hreach |].
  exists σ. destruct (Hret eq_refl) as [Hperm Hlen].
  split; [exact Hreach|]. split; [done|]. split; [exact Hperm|].
  split; [exact Hlen|]. rewrite Hh. reflexivity.
Defined.

(** C4: the end of the input ends the reading cleanly: on an input of
    domain rows no run ends by [log.Fatal] or a panic, every run comes to an
    end, and it ends with [CheckCSV] returned, the input read to its end
    and [work] closed.  A read error ends the whole process: on an input
    with a read error after domain rows no run returns from [CheckCSV];
    every run comes to an end, and its end is the exit by [log.Fatal] with
    that error; until then [work] is not closed, the error and all the
    rows after it are still unread, and only results of rows before the
    error have been handled.  No row is skipped. *)
Theorem read_error_aborts_batch {H : Type} `{!ResultHandler H}
    (CheckDomain : string → DomainResult) (domainColumn : Z)
    (env : gmap string string) (h0 : H) :
  let run := step CheckDomain domainColumn (Z.to_nat (poolSizeFromEnv env)) in
  (∀ rows s,
     Forall (domainRow domainColumn) rows →
     rtc run (CheckCSV env rows h0) s →
     sn run s
     ∧ ∃ σ, s = Run σ
         ∧ (workClosed σ = true → producer σ = PExit ∧ input σ = [])
         ∧ ((∀ s', ¬ run s s') →
              main σ = MExit ∧ producer σ = PExit ∧ workClosed σ = true
              ∧ input σ = []))
  ∧ (∀ good err rest s,
       Forall (domainRow domainColumn) good →
       rtc run (CheckCSV env (good ++ ReadError err :: rest) h0) s →
       sn run s
       ∧ ¬ returned s
       ∧ ((∀ s', ¬ run s s') ↔ ∃ cs, s = Halted (Fatal err) cs)
       ∧ callsOf s ⊆+ CheckDomain <$> domainsOf domainColumn good
       ∧ (∀ σ, s = Run σ →
            workClosed σ = false
            ∧ ∃ k, input σ = k ++ ReadError err :: rest)).
Proof.
  intros run. subst run. pose proof (pool_not_empty env) as Hpos.
  unfold CheckCSV. split.
  - intros rows s Hrows Hreach. split; [apply step_sn|].
    destruct s as [σ|h cs];
      [|by destruct (domainRows_no_Halted _ _ _ _ _ _ _ Hrows Hreach)].
    exists σ. split; [done|].
    pose proof (reach_runInv _ _ _ _ _ _ Hreach) as (Hwf & _).
    split.
    + intros Hwc. destruct Hwf as (_ & Hprod & _). rewrite Hwc in Hprod.
      unfold producerOK in Hprod.
      destruct (producer σ); try done; by destruct Hprod.
    + intros Hstuck.
      apply (stuck_Run_returned _ _ _ rows h0 σ Hpos Hreach) in Hstuck.
      destruct (returned_final CheckDomain domainColumn _ σ Hpos Hwf Hstuck)
        as (? & ? & ? & _). done.
  - intros good err rest s Hgood Hreach.
    assert (Hopen : ∀ σ, s = Run σ →
              wf (Z.to_nat (poolSizeFromEnv env)) σ
              ∧ ∃ k, input σ = k ++ ReadError err :: rest).
    { intros σ ->.
      pose proof (reach_runInv _ _ _ _ _ _ Hreach) as (Hwf & _).
      destruct (error_not_passed _ _ _ _ _ _ _ _ Hgood Hreach)
        as (k & Hk & _). eauto. }
    assert (Hnoret : ¬ returned s).
    { destruct s as [σ|h cs]; [|intros []]. simpl. intros Hret.
      destruct (Hopen σ eq_refl) as (Hwf & k & Hk).
      destruct (returned_final CheckDomain domainColumn _ σ Hpos Hwf Hret)
        as (Hin & _).
      rewrite Hin in Hk. by destruct k. }
    split; [apply step_sn|]. split; [done|].
    split; [split|split].
    + intros Hstuck. destruct s as [σ|h cs].
      * apply (stuck_Run_returned _ _ _ _ h0 σ Hpos Hreach) in Hstuck.
        by destruct Hnoret.
      * rewrite (error_Halted _ _ _ _ _ _ _ _ _ Hgood Hreach). eauto.
    + intros [cs ->]. apply Halted_stuck.
    + rewrite <- (domainsOf_until_error domainColumn good rest err Hgood).
      apply (reach_calls _ _ _ _ _ _ Hreach).
    + intros σ Hσ. destruct (Hopen σ Hσ) as ((_ & Hprod & _) & k & Hk).
      split; [|eauto]. unfold producerOK in Hprod. rewrite Hk in Hprod.
      destruct (producer σ); try done; destruct Hprod as [_ ?]; by destruct k.
Qed.

(** A run on three rows of which the second cannot be read: the first
    domain is with a worker when the reader meets the error, the process
    exits, and no result has been handled. *)
Lemma read_error_aborts_batch_witness :
  let check := λ d : string, mkDomainResult d ∅ None 0 in
  let env : gmap string string := ∅ in
  let rows := [Row ["a.example"]; ReadError "bare quote in field";
               Row ["b.example"]] in
  let h0 : DomainTotals.t * list (LogLine DomainTotals.t) :=
    (DomainTotals.zero, []) in
  let run := step check 0 (Z.to_nat (poolSizeFromEnv env)) in
  rtc run (CheckCSV env rows h0) (Halted (Fatal "bare quote in field") [])
  ∧ (∀ s', ¬ run (Halted (Fatal "bare quote in field") []) s').
Proof.
  intros check env rows h0 run.
  assert (Hreach : rtc run (CheckCSV env rows h0)
                     (Halted (Fatal "bare quote in field") [])).
  { subst run. change (Z.to_nat (poolSizeFromEnv env)) with 16%nat.
    change (CheckCSV env rows h0) with
      (Run (mkState rows PRead false (replicate 16 WRecv) (CWait 0) false
              MRecv h0 [])).
    eapply rtc_l; [by eapply step_read_row|].
    eapply rtc_l;
      [eapply step_work with (ws1 := []) (ws2 := replicate 15 WRecv)|].
    eapply rtc_l; [eapply step_read_fatal|].
    apply rtc_refl. }
  split; [exact Hreach|].
  destruct (read_error_aborts_batch check 0 env h0) as [_ Herr].
  destruct (Herr [Row ["a.example"]] "bare quote in field"
              [Row ["b.example"]] _
              ltac:(repeat constructor; by eexists) Hreach)
    as (_ & _ & Hstuck & _).
  apply Hstuck. by eexists.
Defined.

(** * Further properties *)

(** ** The cache over the in-memory store *)

Lemma Sub_mono (t t' u : Time) : t ≤ t' → Sub t u ≤ Sub t' u.
Proof.
  unfold Sub, minInt64, maxInt64. intros Hle.
  repeat match goal with
  | |- context [?a <? ?b] => destruct (Z.ltb_spec a b)
  end; lia.
Qed.

Lemma Sub_same (t : Time) : Sub t t = 0.
Proof. unfold Sub. by rewrite Z.sub_diag. Qed.

(** X1: a lookup in a cache over the in-memory store has one of three
    outcomes, and the error tells which: no error, for a key of the map
    whose scan is inside the window; the error "Couldn't find scan for
    hostname ..." with the zero [HostnameResult], for a hostname that is not
    a key; the error "most recent scan for ... expired" with the stored
    scan, for a key whose scan is outside the window.  The two errors are
    never the same text. *)
Theorem simple_cache_outcomes (c : ScanCache.t SimpleStore.t) (now : Time)
    (hostname : string) :
  let missing := "Couldn't find scan for hostname " +:+ hostname in
  let expired := "most recent scan for " +:+ hostname +:+ " expired" in
  let got := ScanCache.GetHostnameScan c now hostname in
  missing ≠ expired
  ∧ match SimpleStore.m (ScanCache.Store c) !! hostname with
    | None => got = (zeroHostnameResult, Some missing)
    | Some r =>
        if decide (Sub now (Timestamp r) ≤ ScanCache.ExpireTime c)
        then got = (r, None)
        else got = (r, Some expired)
    end.
Proof.
  intros missing expired got. subst missing expired got. split; [done|].
  destruct (SimpleStore.m (ScanCache.Store c) !! hostname) as [r|] eqn:Hm.
  - destruct (decide _) as [Hfresh|Hstale].
    + apply cache_get_fresh; [|done]. simpl.
      unfold SimpleStore.GetHostnameScan. by rewrite Hm.
    + apply cache_get_stale; [|lia]. simpl.
      unfold SimpleStore.GetHostnameScan. by rewrite Hm.
  - apply cache_get_store_error. simpl.
    unfold SimpleStore.GetHostnameScan. by rewrite Hm.
Qed.

(** X2: putting a scan for one hostname changes no lookup of another
    hostname, at any time. *)
Theorem put_other_hostname (c : ScanCache.t SimpleStore.t)
    (hostname other : string) (result : HostnameResult) (now : Time) :
  hostname ≠ other →
  ScanCache.GetHostnameScan (ScanCache.PutHostnameScan c hostname result).1
    now other
  = ScanCache.GetHostnameScan c now other.
Proof.
  intros Hne. rewrite cache_put_simple_store.
  unfold ScanCache.GetHostnameScan. simpl.
  unfold SimpleStore.GetHostnameScan.
  by rewrite simple_store_put_lookup_ne.
Qed.

Lemma put_other_hostname_witness :
  let c := (ScanCache.PutHostnameScan (MakeSimpleCache (60 * Second))
              "mx1.example.com"
              (mkHostnameResult "mx1.example.com" Success [] 50)).1 in
  ScanCache.GetHostnameScan
    (ScanCache.PutHostnameScan c "mx2.example.com"
       (mkHostnameResult "mx2.example.com" Failure [] 70)).1
    100 "mx1.example.com"
  = ScanCache.GetHostnameScan c 100 "mx1.example.com".
Proof.
  intros c. apply put_other_hostname. discriminate.
Defined.

(** X3: the last scan put for a hostname is the one kept: putting twice for
    the same hostname leaves the cache as putting the second scan alone
    does. *)
Theorem put_overwrites (c : ScanCache.t SimpleStore.t) (hostname : string)
    (first second : HostnameResult) :
  (ScanCache.PutHostnameScan
     (ScanCache.PutHostnameScan c hostname first).1 hostname second).1
  = (ScanCache.PutHostnameScan c hostname second).1.
Proof.
  rewrite !cache_put_simple_store. simpl. f_equal.
  rewrite !simple_store_put.
  destruct (SimpleStore.m (ScanCache.Store c)) as [|entries] eqn:Hm; simpl.
  - by rewrite Hm.
  - by rewrite insert_insert_eq.
Qed.

(** X4: for any store behind the cache, a scan that is returned at some time
    is returned at every earlier time too: once a stored scan has expired
    it stays expired, until the store changes. *)
Theorem cache_expiry_monotone {S : Type} `{!ScanStore.Ops S}
    (c : ScanCache.t S) (hostname : string) (now later : Time) :
  now ≤ later →
  (ScanCache.GetHostnameScan c later hostname).2 = None →
  ScanCache.GetHostnameScan c now hostname
  = ScanCache.GetHostnameScan c later hostname.
Proof.
  intros Hle Hhit.
  apply cache_get_no_error_iff in Hhit as [Hstore Hage].
  destruct (ScanStore.GetHostnameScan (ScanCache.Store c) hostname)
    as [result err] eqn:Hst. simpl in *. subst err.
  rewrite (cache_get_fresh c later hostname result Hst Hage).
  apply cache_get_fresh; [done|].
  pose proof (Sub_mono now later (Timestamp result) Hle). lia.
Qed.

Lemma cache_expiry_monotone_witness :
  let c := (ScanCache.PutHostnameScan (MakeSimpleCache (60 * Second))
              "mx.example.com"
              (mkHostnameResult "mx.example.com" Success [] 50)).1 in
  ScanCache.GetHostnameScan c 60 "mx.example.com"
  = ScanCache.GetHostnameScan c (50 + 60 * Second) "mx.example.com".
Proof.
  intros c. apply cache_expiry_monotone; [vm_compute; discriminate|].
  vm_compute. reflexivity.
Defined.

(** X5: a scan put and looked up at the very instant of its timestamp is
    returned exactly when the put returned, which it does when the map of
    the store is allocated and only then, and [ExpireTime] is not negative:
    a cache with a negative window does not even return a scan made now,
    and on the zero-value store, where the put panics, the lookup finds
    nothing. *)
Theorem get_at_timestamp (c : ScanCache.t SimpleStore.t) (hostname : string)
    (result : HostnameResult) :
  let put := ScanCache.PutHostnameScan c hostname result in
  let got := ScanCache.GetHostnameScan put.1 (Timestamp result) hostname in
  (put.2 = Returns None ↔ SimpleStore.m (ScanCache.Store c) ≠ nilMap)
  ∧ (got.2 = None ↔ put.2 = Returns None ∧ 0 ≤ ScanCache.ExpireTime c)
  ∧ (got.2 = None → got.1 = result)
  ∧ (put.2 ≠ Returns None →
     put.2 = Panics "assignment to entry in nil map"
     ∧ got = (zeroHostnameResult,
              Some ("Couldn't find scan for hostname " +:+ hostname))).
Proof.
  intros put got. subst put got. rewrite cache_put_simple_store. simpl.
  rewrite simple_store_put_returns. split; [done|].
  rewrite cache_get_no_error_iff. simpl.
  unfold ScanCache.GetHostnameScan. simpl.
  unfold SimpleStore.GetHostnameScan.
  rewrite simple_store_put.
  destruct (SimpleStore.m (ScanCache.Store c)) as [|entries] eqn:Hm; simpl.
  - rewrite Hm. simpl.
    split; [split; [by intros [? _] | by intros [? _]]|].
    split; [by intros [? _] | done].
  - rewrite madeMap_lookup, lookup_insert_eq. simpl. rewrite Sub_same.
    split; [split; [by intros [_ ?] | by intros [_ ?]]|]. split.
    + intros _. by destruct (ScanCache.ExpireTime c <? 0).
    + intros Hnil. by destruct Hnil.
Qed.

(** ** DomainTotals from any start *)

Lemma wrap64_succ (a : Z) : wrap64 (wrap64 a + 1) = wrap64 (a + 1).
Proof.
  unfold wrap64.
  replace ((a + 2 ^ 63) mod 2 ^ 64 - 2 ^ 63 + 1 + 2 ^ 63)
    with ((a + 2 ^ 63) mod 2 ^ 64 + 1) by lia.
  replace (a + 1 + 2 ^ 63) with ((a + 2 ^ 63) + 1) by lia.
  by rewrite Zplus_mod_idemp_l.
Qed.

Lemma wrap64_add_succ (a : Z) (n : nat) :
  wrap64 (wrap64 (a + Z.of_nat n) + 1) = wrap64 (a + Z.of_nat (S n)).
Proof. rewrite wrap64_succ. f_equal. lia. Qed.

Lemma handleAll_log_snoc (x : DomainTotals.t) (rs : list DomainResult)
    (r : DomainResult) :
  (DomainTotals.handleAll x (rs ++ [r])).2 =
    (DomainTotals.handleAll x rs).2
    ++ (DomainTotals.HandleDomain (DomainTotals.handleAll x rs).1 r).2.
Proof.
  unfold DomainTotals.handleAll. rewrite foldl_snoc.
  destruct (foldl _ _ rs) as [x' log]. simpl.
  by destruct (DomainTotals.HandleDomain x' r).
Qed.

(** The lines one call logs: three when the new [Attempted] is a multiple of
    1000, none otherwise. *)
Lemma HandleDomain_log_length (x : DomainTotals.t) (r : DomainResult) :
  length (DomainTotals.HandleDomain x r).2 =
    if Z.rem (wrap64 (DomainTotals.Attempted x + 1)) 1000 =? 0
    then 3%nat else 0%nat.
Proof.
  unfold DomainTotals.HandleDomain. simpl.
  destruct (Z.rem _ 1000 =? 0); repeat case_match; done.
Qed.

Lemma HandleDomain_Time_Source (x : DomainTotals.t) (r : DomainResult) :
  DomainTotals.Time (DomainTotals.HandleDomain x r).1 = DomainTotals.Time x
  ∧ DomainTotals.Source (DomainTotals.HandleDomain x r).1
    = DomainTotals.Source x.
Proof. unfold DomainTotals.HandleDomain. repeat case_match; done. Qed.

(** On the lists of elements, a sequence of calls leaves [Time] and
    [Source] as they were and appends the domains of the results with MX
    records and mode "enforce" (respectively "testing"), in order. *)
Lemma handleAll_lists (x : DomainTotals.t) (rs : list DomainResult) :
  let y := (DomainTotals.handleAll x rs).1 in
  DomainTotals.Time y = DomainTotals.Time x
  ∧ DomainTotals.Source y = DomainTotals.Source x
  ∧ DomainTotals.MTASTSEnforce y =
      DomainTotals.MTASTSEnforce x
      ++ (Domain <$> filter (hasMode "enforce") rs)
  ∧ DomainTotals.MTASTSTesting y =
      DomainTotals.MTASTSTesting x
      ++ (Domain <$> filter (hasMode "testing") rs).
Proof.
  induction rs as [|r rs IH] using rev_ind.
  - simpl. by rewrite !app_nil_r.
  - destruct IH as (IHt & IHs & IHe & IHm). intros y. subst y.
    rewrite handleAll_snoc.
    destruct (HandleDomain_Time_Source (DomainTotals.handleAll x rs).1 r)
      as [-> ->].
    rewrite HandleDomain_MTASTSEnforce, HandleDomain_MTASTSTesting.
    rewrite IHe, IHm, !filter_snoc_dec, !fmap_app, <- !app_assoc.
    repeat split; try done; f_equal; by destruct (decide _).
Qed.

(** ** The slices of a DomainTotals *)

Section slices.
Variable spare : nat → nat.
Implicit Types (mem : Slice.Memory) (s o : Slice.t) (x : string).

(** A slice has as many elements as its length says. *)
Lemma slice_elems_length mem s :
  Slice.wf mem s → length (Slice.elems mem s) = Slice.len s.
Proof.
  intros [Hle Hcap]. unfold Slice.elems.
  destruct (decide (Slice.cap s = 0%nat)) as [Hz|Hnz].
  - assert (Slice.len s = 0%nat) as -> by lia. done.
  - destruct Hcap as (a & -> & Ha); [lia|]. simpl.
    rewrite length_take, length_drop. lia.
Qed.

(** The slice [append] returns holds the elements of the one it was given
    and then the new element, with room or without. *)
Lemma slice_append_elems mem s x :
  Slice.wf mem s →
  Slice.elems (Slice.append spare mem s x).1 (Slice.append spare mem s x).2
  = Slice.elems mem s ++ [x].
Proof.
  intros Hwf. pose proof (slice_elems_length mem s Hwf) as Hlen.
  destruct Hwf as [Hle Hcap]. unfold Slice.append.
  destruct (decide _) as [Hroom|Hfull]; simpl.
  - destruct Hcap as (a & Ha & Hsz); [lia|].
    unfold Slice.elems. simpl.
    rewrite list_lookup_alter_eq, Ha. simpl.
    rewrite drop_insert_ge by lia.
    replace (Slice.offset s + Slice.len s - Slice.offset s)%nat
      with (Slice.len s) by lia.
    rewrite (take_S_r _ _ x).
    + by rewrite take_insert_ge.
    + apply list_lookup_insert_eq. rewrite length_drop. lia.
  - unfold Slice.elems at 1. simpl.
    rewrite lookup_app_r, Nat.sub_diag by lia. simpl. rewrite drop_0.
    rewrite take_app, Hlen, take_ge by lia.
    by replace (S (Slice.len s) - Slice.len s)%nat with 1%nat by lia.
Qed.

Lemma slice_append_wf mem s x :
  Slice.wf mem s →
  Slice.wf (Slice.append spare mem s x).1 (Slice.append spare mem s x).2.
Proof.
  intros Hwf. pose proof (slice_elems_length mem s Hwf) as Hlen.
  destruct Hwf as [Hle Hcap]. unfold Slice.append.
  destruct (decide _) as [Hroom|Hfull]; simpl.
  - destruct Hcap as (a & Ha & Hsz); [lia|].
    split; simpl; [lia|]. intros _.
    exists (<[(Slice.offset s + Slice.len s)%nat := x]> a).
    rewrite list_lookup_alter_eq, Ha, length_insert. done.
  - split; simpl; [lia|]. intros _. eexists.
    rewrite lookup_app_r, Nat.sub_diag by lia. split; [done|].
    rewrite length_app, Hlen. simpl. rewrite length_replicate. lia.
Qed.

(** [append] leaves a slice that shares no memory with the one it is given
    as it was, and the slice it returns shares none with it either. *)
Lemma slice_append_other mem s o x :
  Slice.wf mem s → Slice.wf mem o → Slice.separate s o →
  Slice.elems (Slice.append spare mem s x).1 o = Slice.elems mem o
  ∧ Slice.wf (Slice.append spare mem s x).1 o
  ∧ Slice.separate (Slice.append spare mem s x).2 o.
Proof.
  intros [Hle Hcap] [Hleo Hcapo] Hsep. unfold Slice.append.
  destruct (decide (Slice.cap o = 0%nat)) as [Hz|Hnz].
  { assert (Slice.len o = 0%nat) as Hlo by lia.
    unfold Slice.elems, Slice.wf, Slice.separate. rewrite Hlo, Hz.
    split; [done|]. split; [split; [lia|]; lia|]. right. by left. }
  destruct Hcapo as (b & Hb & Hszo); [lia|].
  destruct (decide _) as [Hroom|Hfull]; simpl.
  - destruct Hcap as (a & Ha & Hsz); [lia|].
    unfold Slice.wf, Slice.separate, Slice.elems in *. simpl.
    destruct (decide (Slice.array s = Slice.array o)) as [Heq|Hne].
    + rewrite <- Heq in *. rewrite list_lookup_alter_eq, Ha. simpl.
      assert (b = a) as -> by congruence.
      split; [|split; [split; [lia|] | tauto]].
      * destruct Hsep as [?|[?|[?|[Hlo|Hhi]]]]; [lia|lia|done| |].
        -- by rewrite drop_insert_lt by lia.
        -- rewrite drop_insert_ge, take_insert_ge by lia. done.
      * intros _. eexists. split; [done|]. by rewrite length_insert.
    + rewrite list_lookup_alter_ne by done. rewrite Hb.
      split; [done|]. split; [split; [lia|]; eauto | tauto].
  - assert (Slice.array o < length mem)%nat as Hlt
      by (apply lookup_lt_is_Some; eauto).
    unfold Slice.wf, Slice.separate, Slice.elems. simpl.
    rewrite lookup_app_l by done. rewrite Hb.
    split; [done|]. split; [split; [lia|]; eauto|].
    right. right. left. lia.
Qed.

Lemma slice_separate_sym s o : Slice.separate s o → Slice.separate o s.
Proof. unfold Slice.separate. intuition. Qed.


Import DomainTotalsSlices.

(** On totals whose slices share no memory, a call does to the elements of
    the slices what [DomainTotals.HandleDomain] does to the lists, and logs
    the same; the slices share no memory afterwards. *)
Lemma HandleDomain_refines mem (x : DomainTotalsSlices.t) (r : DomainResult) :
  ownSlices mem x →
  ownSlices (DomainTotalsSlices.HandleDomain spare mem x r).1.1
            (DomainTotalsSlices.HandleDomain spare mem x r).1.2
  ∧ (contents (DomainTotalsSlices.HandleDomain spare mem x r).1.1
              (DomainTotalsSlices.HandleDomain spare mem x r).1.2,
     (DomainTotalsSlices.HandleDomain spare mem x r).2)
    = DomainTotals.HandleDomain (contents mem x) r.
Proof.
  intros (He & Ht & Hsep).
  unfold DomainTotalsSlices.HandleDomain, DomainTotals.HandleDomain.
  destruct (decide (size (HostnameResults r) = 0%nat)); [done|].
  destruct (MTASTS r) as [mr|]; [|done].
  destruct (decide (Mode mr = "enforce")).
  - pose proof (slice_append_elems mem _ (Domain r) He) as Hnew.
    pose proof (slice_append_wf mem _ (Domain r) He) as Hwf.
    destruct (slice_append_other mem _ _ (Domain r) He Ht Hsep)
      as (Hold & Hwfo & Hsepo).
    simpl in *.
    destruct (Slice.append spare mem (MTASTSEnforce x) (Domain r))
      as [mem' s'].
    simpl in *. split; [done|].
    unfold contents, DomainTotals.appendEnforce. simpl.
    by rewrite Hnew, Hold.
  - destruct (decide (Mode mr = "testing")); [|done].
    pose proof (slice_append_elems mem _ (Domain r) Ht) as Hnew.
    pose proof (slice_append_wf mem _ (Domain r) Ht) as Hwf.
    destruct (slice_append_other mem _ _ (Domain r) Ht He (slice_separate_sym _ _ Hsep))
      as (Hold & Hwfo & Hsepo).
    simpl in *.
    destruct (Slice.append spare mem (MTASTSTesting x) (Domain r))
      as [mem' s'].
    simpl in *. split; [by split; [|split; [|apply slice_separate_sym]]|].
    unfold contents, DomainTotals.appendTesting. simpl.
    by rewrite Hnew, Hold.
Qed.

Lemma handleAll_slices_snoc mem (x : DomainTotalsSlices.t) rs r :
  DomainTotalsSlices.handleAll spare mem x (rs ++ [r])
  = let done := DomainTotalsSlices.handleAll spare mem x rs in
    let step := DomainTotalsSlices.HandleDomain spare done.1.1 done.1.2 r in
    (step.1, done.2 ++ step.2).
Proof.
  unfold DomainTotalsSlices.handleAll. rewrite foldl_snoc.
  destruct (foldl _ _ rs) as [[mem' x'] log]. simpl.
  by destruct (DomainTotalsSlices.HandleDomain spare mem' x' r) as [[? ?] ?].
Qed.

Lemma handleAll_lists_snoc (x : DomainTotals.t) rs r :
  DomainTotals.handleAll x (rs ++ [r])
  = let done := DomainTotals.handleAll x rs in
    let step := DomainTotals.HandleDomain done.1 r in
    (step.1, done.2 ++ step.2).
Proof.
  unfold DomainTotals.handleAll. rewrite foldl_snoc.
  destruct (foldl _ _ rs) as [x' log]. simpl.
  by destruct (DomainTotals.HandleDomain x' r).
Qed.

Lemma handleAll_refines mem (x : DomainTotalsSlices.t) rs :
  ownSlices mem x →
  ownSlices (DomainTotalsSlices.handleAll spare mem x rs).1.1
            (DomainTotalsSlices.handleAll spare mem x rs).1.2
  ∧ (contents (DomainTotalsSlices.handleAll spare mem x rs).1.1
              (DomainTotalsSlices.handleAll spare mem x rs).1.2,
     (DomainTotalsSlices.handleAll spare mem x rs).2)
    = DomainTotals.handleAll (contents mem x) rs.
Proof.
  intros Hown. induction rs as [|r rs IH] using rev_ind; [done|].
  destruct IH as [IHown IHeq].
  rewrite handleAll_slices_snoc, handleAll_lists_snoc. simpl.
  destruct (HandleDomain_refines _ _ r IHown) as [Hown' Heq].
  split; [done|]. rewrite <- IHeq. simpl. rewrite <- Heq. done.
Qed.

End slices.

(** The zero value, whose slices are nil, has slices that share no memory,
    in any memory. *)
Lemma zero_ownSlices (mem : Slice.Memory) :
  DomainTotalsSlices.ownSlices mem DomainTotalsSlices.zero.
Proof.
  repeat split; simpl; try lia. by left.
Qed.

(** X6: from totals whose two slices are slices of the memory and share
    none of it, as those of the zero value, a sequence of [HandleDomain]
    calls only appends: afterwards [MTASTSEnforce] (respectively
    [MTASTSTesting]) holds the elements it held, followed, in order, by the
    domains of the results with MX records and mode "enforce" (respectively
    "testing"); [Time] and [Source] are as they were; the slices still
    share no memory; and the elements, the counters and the log are those
    of [DomainTotals.handleAll] on the lists of elements. *)
Theorem totals_append_only (spare : nat → nat) (mem : Slice.Memory)
    (x : DomainTotalsSlices.t) (rs : list DomainResult) :
  DomainTotalsSlices.ownSlices mem x →
  let done := DomainTotalsSlices.handleAll spare mem x rs in
  let mem' := done.1.1 in
  let y := done.1.2 in
  (DomainTotalsSlices.contents mem' y, done.2)
  = DomainTotals.handleAll (DomainTotalsSlices.contents mem x) rs
  ∧ DomainTotalsSlices.ownSlices mem' y
  ∧ DomainTotalsSlices.Time y = DomainTotalsSlices.Time x
  ∧ DomainTotalsSlices.Source y = DomainTotalsSlices.Source x
  ∧ Slice.elems mem' (DomainTotalsSlices.MTASTSEnforce y) =
      Slice.elems mem (DomainTotalsSlices.MTASTSEnforce x)
      ++ (Domain <$> filter (hasMode "enforce") rs)
  ∧ Slice.elems mem' (DomainTotalsSlices.MTASTSTesting y) =
      Slice.elems mem (DomainTotalsSlices.MTASTSTesting x)
      ++ (Domain <$> filter (hasMode "testing") rs).
Proof.
  intros Hown done mem' y. subst mem' y done.
  destruct (handleAll_refines spare mem x rs Hown) as [Hown' Heq].
  split; [done|]. split; [done|].
  destruct (handleAll_lists (DomainTotalsSlices.contents mem x) rs)
    as (Ht & Hs & He & Hm).
  rewrite <- Heq in Ht, Hs, He, Hm. simpl in *. done.
Qed.

Lemma totals_append_only_witness :
  let spare := λ n : nat, n in
  let mem := [["x"; ""; ""]; ["y"]] in
  let x := DomainTotalsSlices.mk 0 "" 0 0 (Slice.mk 1 0 1 1) (Slice.mk 0 0 1 3) in
  let r := λ domain mode,
    mkDomainResult domain
      {["mx." +:+ domain := mkHostnameResult ("mx." +:+ domain) Success [] 0]}
      (Some (mkMTASTSResult mode [] Success)) 0 in
  let rs := [r "a.example" "enforce"; r "b.example" "testing";
             r "c.example" "enforce"; r "d.example" "testing"] in
  let done := DomainTotalsSlices.handleAll spare mem x rs in
  Slice.elems done.1.1 (DomainTotalsSlices.MTASTSEnforce done.1.2)
  = ["x"; "a.example"; "c.example"]
  ∧ Slice.elems done.1.1 (DomainTotalsSlices.MTASTSTesting done.1.2)
    = ["y"; "b.example"; "d.example"].
Proof.
  intros spare mem x r rs done.
  destruct (totals_append_only spare mem x rs) as (_ & _ & _ & _ & He & Ht).
  - split; [|split].
    + split; simpl; [lia|]. intros _. eexists. split; [reflexivity|].
      simpl. lia.
    + split; simpl; [lia|]. intros _. eexists. split; [reflexivity|].
      simpl. lia.
    + right. right. left. simpl. lia.
  - split; [exact He | exact Ht].
Defined.



(** X7: the counters are 64-bit: from totals whose counters are Go [int]s,
    after the calls [rs] [Attempted] is the old value plus the number of
    calls, wrapped around, and [WithMXs] the old value plus the number of
    results with MX records, wrapped around.  So the call after
    [Attempted] = 2^63-1 makes it the most negative [int]. *)
Theorem totals_counters_wrap (x : DomainTotals.t) (rs : list DomainResult) :
  inInt64 (DomainTotals.Attempted x) →
  inInt64 (DomainTotals.WithMXs x) →
  let y := (DomainTotals.handleAll x rs).1 in
  DomainTotals.Attempted y =
    wrap64 (DomainTotals.Attempted x + Z.of_nat (length rs))
  ∧ DomainTotals.WithMXs y =
      wrap64 (DomainTotals.WithMXs x
              + Z.of_nat (length (filter hasMXs rs))).
Proof.
  intros Ha Hw. induction rs as [|r rs IH] using rev_ind.
  - simpl. rewrite !Z.add_0_r, !wrap64_id by done. done.
  - destruct IH as [IHa IHw]. intros y. subst y.
    rewrite handleAll_snoc, HandleDomain_Attempted, HandleDomain_WithMXs.
    rewrite IHa, IHw, filter_snoc_dec, !length_app. simpl.
    rewrite Nat.add_1_r, wrap64_add_succ. split; [done|].
    destruct (decide (hasMXs r)); simpl.
    + by rewrite Nat.add_1_r, wrap64_add_succ.
    + by rewrite Nat.add_0_r.
Qed.

Lemma totals_counters_wrap_witness :
  let x := DomainTotals.mk 0 "" maxInt64 7 [] [] in
  let r := mkDomainResult "a.example" ∅ None 0 in
  DomainTotals.Attempted (DomainTotals.handleAll x [r]).1 = minInt64
  ∧ DomainTotals.WithMXs (DomainTotals.handleAll x [r]).1 = 7.
Proof.
  intros x r.
  destruct (totals_counters_wrap x [r]) as [Ha Hw];
    [vm_compute; split; discriminate..|].
  rewrite Ha, Hw. split; reflexivity.
Defined.

Lemma thousands_succ (n : Z) :
  0 ≤ n →
  (n + 1) / 1000 = n / 1000 + (if Z.rem (n + 1) 1000 =? 0 then 1 else 0).
Proof.
  intros Hn. rewrite Z.rem_mod_nonneg by lia.
  destruct (Z.eqb_spec ((n + 1) mod 1000) 0) as [Hz|Hnz];
    Z.div_mod_to_equations; lia.
Qed.

(** X8: progress is logged once in a thousand calls: from the zero totals,
    and while the counter has not wrapped, the calls [rs] have logged three
    lines for each full thousand of calls and nothing else; fewer than 1000
    calls log nothing. *)
Theorem totals_log_every_thousand (rs : list DomainResult) :
  Z.of_nat (length rs) ≤ maxInt64 →
  Z.of_nat (length (DomainTotals.handleAll DomainTotals.zero rs).2)
  = 3 * (Z.of_nat (length rs) / 1000).
Proof.
  induction rs as [|r rs IH] using rev_ind; [done|].
  rewrite length_app, Nat.add_1_r. intros Hlen.
  rewrite handleAll_log_snoc, length_app, Nat2Z.inj_add, IH by lia.
  rewrite HandleDomain_log_length.
  destruct (handleAll_zero rs) as (-> & _); [lia|].
  unfold maxInt64 in Hlen.
  rewrite wrap64_id by (unfold inInt64, minInt64, maxInt64; lia).
  replace (Z.of_nat (S (length rs))) with (Z.of_nat (length rs) + 1) by lia.
  rewrite (thousands_succ (Z.of_nat (length rs))) by lia.
  destruct (Z.rem _ 1000 =? 0); simpl; lia.
Qed.

Lemma totals_log_every_thousand_witness :
  Z.of_nat (length (DomainTotals.handleAll DomainTotals.zero
                      (replicate 2500 (mkDomainResult "" ∅ None 0))).2) = 6.
Proof.
  rewrite totals_log_every_thousand; [|rewrite length_replicate; done].
  rewrite length_replicate. reflexivity.
Defined.

(** ** CheckCSV on any input *)

Section pipeline_more.
Context {H : Type} `{!ResultHandler H}.
Variable CheckDomain : string → DomainResult.
Variable domainColumn : Z.
Variable poolSize : nat.

Abbreviation stp' := (step (H := H) CheckDomain domainColumn poolSize).
Abbreviation reach' := (rtc (step (H := H) CheckDomain domainColumn poolSize)).

(** The three ways in which the process ends without returning. *)
Lemma step_Halted_why (σ : State H) (h : Halt) (cs : list DomainResult) :
  stp' (Run σ) (Halted h cs) →
  cs = calls σ
  ∧ ((∃ err rows, h = Fatal err ∧ input σ = ReadError err :: rows)
     ∨ (∃ data rows, h = Panic "index out of range"
                     ∧ input σ = Row data :: rows
                     ∧ length data ≠ 0%nat
                     ∧ index data domainColumn = None)
     ∨ (h = Panic "send on closed channel"
        ∧ resultsClosed σ = true
        ∧ ∃ ws1 r ws2, workers σ = ws1 ++ WSend r :: ws2)).
Proof.
  inversion 1; subst; simpl; (split; [done|]).
  - right; left. eauto 7.
  - left. eauto.
  - right; right. eauto 7.
Qed.

(** The reader takes from the input only records it gets past. *)
Lemma step_input_readable (P : list ReadOutcome → Prop) (s s' : System H) :
  (∀ data rows, readableRow domainColumn (Row data) →
                P (Row data :: rows) → P rows) →
  stp' s s' → ∀ σ σ', s = Run σ → s' = Run σ' →
  P (input σ) → P (input σ').
Proof.
  intros HP. destruct 1; intros σ σ' [= <-] [= <-]; simpl; try done.
  - apply HP. by left.
  - apply HP. right. eauto.
Qed.

Lemma reach_input_readable (P : list ReadOutcome → Prop)
    (rows : list ReadOutcome) (h0 : H) (s : System H) :
  (∀ data rows', readableRow domainColumn (Row data) →
                 P (Row data :: rows') → P rows') →
  P rows →
  reach' (start poolSize rows h0) s →
  ∀ σ, s = Run σ → P (input σ).
Proof.
  intros HP HP0. revert s.
  apply (rtc_ind_r (λ s, ∀ σ, s = Run σ → P (input σ))).
  - by intros σ [= <-].
  - intros s s' _ Hstep IH σ' ->.
    destruct s as [σ|h cs]; [|by inversion Hstep].
    exact (step_input_readable P _ _ HP Hstep σ σ' eq_refl eq_refl
             (IH σ eq_refl)).
Qed.

(** What is left of the input is an end of the input. *)
Lemma reach_input_suffix (rows : list ReadOutcome) (h0 : H) (σ : State H) :
  reach' (start poolSize rows h0) (Run σ) → ∀ o, o ∈ input σ → o ∈ rows.
Proof.
  intros Hreach.
  apply (reach_input_readable (λ l, ∀ o, o ∈ l → o ∈ rows) rows h0 (Run σ));
    [|done..].
  intros data rows' _ Hin o Ho. apply Hin. by apply list_elem_of_further.
Qed.

(** A worker owes at most one result. *)
Lemma workerItems_length (ws : list Worker) :
  (length (ws ≫= workerItems CheckDomain) ≤ length ws)%nat.
Proof.
  induction ws as [|w ws IH]; [done|].
  rewrite bind_cons, length_app. destruct w; simpl; lia.
Qed.

(** The results that are neither handled nor still in the input are with
    the reader, the workers or the collector. *)
Lemma reach_in_flight (rows : list ReadOutcome) (h0 : H) (σ : State H) :
  reach' (start poolSize rows h0) (Run σ) →
  (length (domainsOf domainColumn rows)
   ≤ length (calls σ) + length (domainsOf domainColumn (input σ))
     + poolSize + 2)%nat.
Proof.
  intros Hreach.
  destruct (reach_runInv _ _ _ _ _ _ Hreach) as ((Hlen & _) & Hacc & _).
  apply Permutation_length in Hacc. unfold accounted in Hacc.
  rewrite !length_app, !length_fmap, !length_app in Hacc.
  pose proof (workerItems_length (workers σ)).
  assert (length (collectorItems (main σ)) ≤ 1)%nat
    by (destruct (main σ); simpl; lia).
  assert (length (producerPending (producer σ)) ≤ 1)%nat
    by (destruct (producer σ); simpl; lia).
  lia.
Qed.

(** With one worker nothing overtakes: each step leaves the results in
    their order. *)
Lemma step_accounted_single (s s' : System H) :
  stp' s s' → ∀ σ σ', s = Run σ → s' = Run σ' →
  length (workers σ) = 1%nat →
  accounted CheckDomain domainColumn σ = accounted CheckDomain domainColumn σ'.
Proof.
  destruct 1; intros σ σ' [= <-] [= <-]; unfold accounted; simpl;
    rewrite ?length_app; simpl; intros Hone;
    try (destruct ws1; [|simpl in Hone; lia]);
    try (destruct ws2; [|simpl in Hone; lia]);
    simpl; try reflexivity.
  - by rewrite decide_True.
  - rewrite decide_False by done.
    match goal with Hi : index _ _ = Some _ |- _ => rewrite Hi end.
    reflexivity.
  - by rewrite <- app_assoc.
Qed.

Lemma reach_accounted_single (rows : list ReadOutcome) (h0 : H)
    (s : System H) :
  poolSize = 1%nat →
  reach' (start poolSize rows h0) s →
  ∀ σ, s = Run σ →
  accounted CheckDomain domainColumn σ
  = CheckDomain <$> domainsOf domainColumn rows.
Proof.
  intros Hone. revert s.
  apply (rtc_ind_r (λ s, ∀ σ, s = Run σ →
           accounted CheckDomain domainColumn σ
           = CheckDomain <$> domainsOf domainColumn rows)).
  - intros σ [= <-]. unfold accounted. simpl. rewrite Hone. done.
  - intros s s' Hreach Hstep IH σ' ->.
    destruct s as [σ|h cs]; [|by inversion Hstep].
    rewrite <- (IH σ eq_refl). symmetry.
    apply (step_accounted_single _ _ Hstep σ σ' eq_refl eq_refl).
    destruct (reach_runInv _ _ _ _ _ _ Hreach) as ((Hlen & _) & _).
    congruence.
Qed.

(** The domains of an input the reader gets past: one for each record that
    is not empty. *)
Lemma domainsOf_readable (rows : list ReadOutcome) :
  Forall (readableRow domainColumn) rows →
  length (domainsOf domainColumn rows)
  = length (filter (λ o, nonEmptyRow o = true) rows).
Proof.
  induction 1 as [|[data|err] rows Hrow _ IH]; [done| |done].
  rewrite filter_cons. simpl domainsOf.
  destruct data as [|field data].
  - rewrite decide_True by done. by rewrite decide_False by done.
  - rewrite decide_False by done. rewrite decide_True by done.
    destruct Hrow as [Hz|[d Hd]]; [done|]. rewrite Hd. simpl. by rewrite IH.
Qed.

Lemma domainsOf_until_bad (good rest : list ReadOutcome) (o : ReadOutcome) :
  Forall (readableRow domainColumn) good →
  ¬ readableRow domainColumn o →
  domainsOf domainColumn (good ++ o :: rest) = domainsOf domainColumn good.
Proof.
  intros Hgood Hbad.
  induction Hgood as [|[data|e] rows Hrow _ IH]; [| |done].
  - destruct o as [data|err]; [|done]. simpl in *.
    destruct (decide (length data = 0%nat)) as [Hz|Hnz]; [by destruct Hbad; left|].
    destruct (index data domainColumn) eqn:Hd; [|done].
    destruct Hbad. right. eauto.
  - simpl in *. destruct (decide (length data = 0%nat)); [done|].
    destruct Hrow as [?|[d Hd]]; [done|]. by rewrite Hd, IH.
Qed.

(** On an input the reader gets past, the process does not end other than
    by returning. *)
Lemma readable_no_Halted (rows : list ReadOutcome) (h0 : H) (h : Halt)
    (cs : list DomainResult) :
  Forall (readableRow domainColumn) rows →
  ¬ reach' (start poolSize rows h0) (Halted h cs).
Proof.
  intros Hrows Hreach.
  apply reach_Halted in Hreach as [[=]|(σ & Hreach & Hstep)].
  destruct (reach_runInv _ _ _ _ _ _ Hreach) as (Hwf & _ & _ & Hin).
  assert (Forall (readableRow domainColumn) (input σ)) as Hrest.
  { apply (Hin (Forall (readableRow domainColumn))); [|done].
    intros data rows'. by inversion 1. }
  apply step_Halted_why in Hstep as
    [_ [(err & rows' & _ & Hi)|[(data & rows' & _ & Hi & Hlen & Hidx)|
        (_ & Hrc & ws1 & r & ws2 & Hws)]]].
  - rewrite Hi in Hrest. by inversion Hrest.
  - rewrite Hi in Hrest. apply Forall_cons in Hrest as [[?|[d Hd]] _];
      [done | congruence].
  - by apply (wf_no_send_on_closed poolSize σ ws1 ws2 r Hwf Hrc).
Qed.

(** What is left to read of an input with a record the reader does not get
    past, before it reaches that record. *)
Lemma bad_not_passed (good rest : list ReadOutcome) (bad : ReadOutcome)
    (h0 : H) (σ : State H) :
  Forall (readableRow domainColumn) good →
  ¬ readableRow domainColumn bad →
  reach' (start poolSize (good ++ bad :: rest) h0) (Run σ) →
  ∃ k, input σ = k ++ bad :: rest
       ∧ Forall (readableRow domainColumn) k.
Proof.
  intros Hgood Hbad Hreach.
  apply (reach_input_readable
           (λ l, ∃ k, l = k ++ bad :: rest
                      ∧ Forall (readableRow domainColumn) k)
           (good ++ bad :: rest) h0 (Run σ)); [|eauto|done..].
  intros data rows' Hok (k & Hk & Hfa). destruct k as [|o k].
  - injection Hk as <- _. done.
  - injection Hk as <- ->. apply Forall_cons in Hfa as [_ Hfa]. eauto.
Qed.
End pipeline_more.

Lemma index_None_iff (data : list string) (i : Z) :
  index data i = None ↔ i < 0 ∨ Z.of_nat (length data) ≤ i.
Proof.
  unfold index. destruct (Z.ltb_spec i 0) as [Hneg|Hpos].
  - split; [by left | done].
  - rewrite lookup_ge_None. split; [intros; right; lia | intros [?|?]; lia].
Qed.

(** Runs used as examples below: one worker, the totals as handler. *)
Lemma example_run_two_rows :
  let h0 : DomainTotals.t * list (LogLine DomainTotals.t) :=
    (DomainTotals.zero, []) in
  let h2 := HandleDomain (HandleDomain h0 (exampleCheck "a.example"))
              (exampleCheck "b.example") in
  rtc (step exampleCheck 0 1)
    (start 1 [Row ["a.example"]; Row []; Row ["b.example"]] h0)
    (Run (mkState [] PExit true [WExit] CExit true MExit h2
            [exampleCheck "a.example"; exampleCheck "b.example"])).
Proof.
  intros h0 h2. unfold start. simpl replicate.
  eapply rtc_l; [by eapply step_read_row|].
  eapply rtc_l; [eapply step_work with (ws1 := []) (ws2 := [])|].
  eapply rtc_l; [eapply step_check with (ws1 := []) (ws2 := [])|].
  eapply rtc_l; [eapply step_result with (ws1 := []) (ws2 := [])|].
  eapply rtc_l; [eapply step_handle|].
  eapply rtc_l; [by eapply step_read_empty|].
  eapply rtc_l; [by eapply step_read_row|].
  eapply rtc_l; [eapply step_work with (ws1 := []) (ws2 := [])|].
  eapply rtc_l; [eapply step_check with (ws1 := []) (ws2 := [])|].
  eapply rtc_l; [eapply step_result with (ws1 := []) (ws2 := [])|].
  eapply rtc_l; [eapply step_handle|].
  eapply rtc_l; [eapply step_read_eof|].
  eapply rtc_l; [eapply step_close_work|].
  eapply rtc_l; [eapply step_work_closed with (ws1 := []) (ws2 := [])|].
  eapply rtc_l; [eapply step_done with (ws1 := []) (ws2 := []); lia|].
  eapply rtc_l; [eapply step_close_results; lia|].
  eapply rtc_l; [eapply step_return|].
  apply rtc_refl.
Qed.

Lemma example_run_short_record :
  let h0 : DomainTotals.t * list (LogLine DomainTotals.t) :=
    (DomainTotals.zero, []) in
  rtc (step exampleCheck 1 1)
    (start 1 [Row ["1"; "a.example"]; Row ["2"]; Row ["3"; "c.example"]] h0)
    (Halted (Panic "index out of range") []).
Proof.
  intros h0. unfold start. simpl replicate.
  eapply rtc_l; [by eapply step_read_row|].
  eapply rtc_l; [eapply step_work with (ws1 := []) (ws2 := [])|].
  eapply rtc_l; [by eapply step_read_index_panic|].
  apply rtc_refl.
Qed.

Lemma pool_size_one :
  Z.to_nat (poolSizeFromEnv {["CONNECTION_POOL_SIZE" := "1"]}) = 1%nat.
Proof. reflexivity. Qed.

(** X9: on any input whatever and with the pool size of any environment,
    every run of [CheckCSV] comes to an end, and it ends in one of three
    ways only: [CheckCSV] returns; the process exits by [log.Fatal] with a
    read error of the input; or it panics with an index out of range, on a
    record of the input that is not empty and has no field at the domain
    column.  There is no deadlock, and no worker ever sends on the closed
    [results]. *)
Theorem CheckCSV_outcomes {H : Type} `{!ResultHandler H}
    (CheckDomain : string → DomainResult) (domainColumn : Z)
    (env : gmap string string) (rows : list ReadOutcome) (h0 : H)
    (s : System H) :
  let run := step CheckDomain domainColumn (Z.to_nat (poolSizeFromEnv env)) in
  rtc run (CheckCSV env rows h0) s →
  sn run s
  ∧ ((∀ s', ¬ run s s') ↔ returned s ∨ ∃ h cs, s = Halted h cs)
  ∧ (∀ h cs, s = Halted h cs →
       (∃ err, h = Fatal err ∧ ReadError err ∈ rows)
       ∨ (h = Panic "index out of range"
          ∧ ∃ data, Row data ∈ rows ∧ data ≠ []
                    ∧ (domainColumn < 0
                       ∨ Z.of_nat (length data) ≤ domainColumn))).
Proof.
  intros run Hreach. subst run. unfold CheckCSV in Hreach.
  pose proof (pool_not_empty env) as Hpos.
  split; [apply step_sn|]. split.
  - destruct s as [σ|h cs].
    + rewrite (stuck_Run_returned _ _ _ rows h0 σ Hpos Hreach). simpl.
      split; [by left | by intros [?|(? & ? & ?)]].
    + split; [eauto|]. intros _. apply Halted_stuck.
  - intros h cs ->.
    apply reach_Halted in Hreach as [[=]|(σ & Hreach & Hstep)].
    pose proof (reach_input_suffix _ _ _ _ _ _ Hreach) as Hsuffix.
    destruct (reach_runInv _ _ _ _ _ _ Hreach) as (Hwf & _).
    apply step_Halted_why in Hstep as
      [_ [(err & rows' & -> & Hi)|[(data & rows' & -> & Hi & Hlen & Hidx)|
          (_ & Hrc & ws1 & r & ws2 & Hws)]]].
    + left. exists err. split; [done|]. apply Hsuffix. rewrite Hi. left.
    + right. split; [done|]. exists data.
      split; [apply Hsuffix; rewrite Hi; left|].
      split; [by destruct data|]. by apply index_None_iff.
    + by destruct (wf_no_send_on_closed _ σ ws1 ws2 r Hwf Hrc).
Qed.

Lemma CheckCSV_outcomes_witness :
  let env : gmap string string := {["CONNECTION_POOL_SIZE" := "1"]} in
  let rows := [Row ["1"; "a.example"]; Row ["2"]; Row ["3"; "c.example"]] in
  let h0 : DomainTotals.t * list (LogLine DomainTotals.t) :=
    (DomainTotals.zero, []) in
  sn (step exampleCheck 1 (Z.to_nat (poolSizeFromEnv env)))
    (Halted (H := DomainTotals.t * list (LogLine DomainTotals.t))
       (Panic "index out of range") [])
  ∧ ∃ data, Row data ∈ rows ∧ data ≠ []
            ∧ (1 < 0 ∨ Z.of_nat (length data) ≤ 1).
Proof.
  intros env rows h0.
  destruct (CheckCSV_outcomes exampleCheck 1 env rows h0
              (Halted (Panic "index out of range") []))
    as (Hsn & _ & Hwhy); [exact example_run_short_record|].
  split; [exact Hsn|].
  destruct (Hwhy _ _ eq_refl) as [(err & [=] & _)|(_ & Hdata)].
  exact Hdata.
Defined.

(** X10: the reader never runs far ahead of the handler: in every state of
    a run, on any input, the pool has as many workers as the pool size, and
    the results of the domains taken from the input and not yet handled
    number at most the pool size plus two (one with the reader, one with
    each worker, one with the collector). *)
Theorem CheckCSV_bounded_in_flight {H : Type} `{!ResultHandler H}
    (CheckDomain : string → DomainResult) (domainColumn : Z)
    (env : gmap string string) (rows : list ReadOutcome) (h0 : H)
    (σ : State H) :
  let size := Z.to_nat (poolSizeFromEnv env) in
  rtc (step CheckDomain domainColumn size) (CheckCSV env rows h0) (Run σ) →
  length (workers σ) = size
  ∧ (length (domainsOf domainColumn rows)
     ≤ length (calls σ) + length (domainsOf domainColumn (input σ))
       + size + 2)%nat.
Proof.
  intros size Hreach. subst size. unfold CheckCSV in Hreach.
  destruct (reach_runInv _ _ _ _ _ _ Hreach) as ((Hlen & _) & _).
  split; [done|].
  exact (reach_in_flight CheckDomain domainColumn _ rows h0 σ Hreach).
Qed.

Lemma CheckCSV_bounded_in_flight_witness :
  let env : gmap string string := {["CONNECTION_POOL_SIZE" := "1"]} in
  let rows := [Row ["a.example"]; Row []; Row ["b.example"]] in
  let h0 : DomainTotals.t * list (LogLine DomainTotals.t) :=
    (DomainTotals.zero, []) in
  (length (domainsOf 0 rows) ≤ 2 + 0 + 1 + 2)%nat.
Proof.
  intros env rows h0.
  destruct (CheckCSV_bounded_in_flight exampleCheck 0 env rows h0 _
              example_run_two_rows) as [_ Hle].
  exact Hle.
Defined.

(** X11: with a pool of one worker the results are handled in the order of
    the input: in every state of a run, on any input, the calls made are a
    beginning of the list of the results of the input's domains, and when
    [CheckCSV] returns they are that list. *)
Theorem CheckCSV_single_worker_in_order {H : Type} `{!ResultHandler H}
    (CheckDomain : string → DomainResult) (domainColumn : Z)
    (env : gmap string string) (rows : list ReadOutcome) (h0 : H)
    (s : System H) :
  poolSizeFromEnv env = 1 →
  rtc (step CheckDomain domainColumn (Z.to_nat (poolSizeFromEnv env)))
    (CheckCSV env rows h0) s →
  callsOf s `prefix_of` CheckDomain <$> domainsOf domainColumn rows
  ∧ (returned s → callsOf s = CheckDomain <$> domainsOf domainColumn rows).
Proof.
  intros Hone Hreach. unfold CheckCSV in Hreach.
  assert (Hsize : Z.to_nat (poolSizeFromEnv env) = 1%nat) by (by rewrite Hone).
  assert (Hprefix : ∀ σ,
    rtc (step CheckDomain domainColumn (Z.to_nat (poolSizeFromEnv env)))
      (start (Z.to_nat (poolSizeFromEnv env)) rows h0) (Run σ) →
    calls σ `prefix_of` CheckDomain <$> domainsOf domainColumn rows).
  { intros σ Hσ.
    rewrite <- (reach_accounted_single _ _ _ rows h0 _ Hsize Hσ σ eq_refl).
    unfold accounted. by eexists. }
  destruct s as [σ|h cs]; simpl.
  - split; [by apply Hprefix|]. intros Hret.
    destruct (reach_runInv _ _ _ _ _ _ Hreach) as (Hwf & _).
    rewrite <- (reach_accounted_single _ _ _ rows h0 _ Hsize Hreach σ eq_refl).
    symmetry. apply returned_final with (poolSize := 1%nat); [lia| |done].
    by rewrite <- Hsize.
  - split; [|done].
    apply reach_Halted in Hreach as [[=]|(σ & Hreach & Hstep)].
    apply step_Halted in Hstep as [-> _]. by apply Hprefix.
Qed.

Lemma CheckCSV_single_worker_in_order_witness :
  let env : gmap string string := {["CONNECTION_POOL_SIZE" := "1"]} in
  let rows := [Row ["a.example"]; Row []; Row ["b.example"]] in
  [exampleCheck "a.example"; exampleCheck "b.example"]
  = exampleCheck <$> domainsOf 0 rows.
Proof.
  intros env rows.
  destruct (CheckCSV_single_worker_in_order exampleCheck 0 env rows _ _
              eq_refl example_run_two_rows) as [_ Hret].
  exact (Hret eq_refl).
Defined.

Ltac readable_rows :=
  repeat (apply List.Forall_cons; [first [by left | right; by eexists]|]);
  apply List.Forall_nil.

(** X12: empty records are skipped and nothing else is: on an input of
    empty records and records with a domain in the domain column, no run
    ends by [log.Fatal] or a panic, a run can always go on until [CheckCSV]
    returns, and at the return the calls are, up to their order, the
    results of the domains of the records that are not empty, one call for
    each such record. *)
Theorem CheckCSV_skips_empty_records {H : Type} `{!ResultHandler H}
    (CheckDomain : string → DomainResult) (domainColumn : Z)
    (env : gmap string string) (rows : list ReadOutcome) (h0 : H)
    (s : System H) :
  let run := step CheckDomain domainColumn (Z.to_nat (poolSizeFromEnv env)) in
  Forall (readableRow domainColumn) rows →
  rtc run (CheckCSV env rows h0) s →
  ∃ σ, s = Run σ
    ∧ (∃ σ', rtc run s (Run σ') ∧ main σ' = MExit)
    ∧ (main σ = MExit →
         calls σ ≡ₚ CheckDomain <$> domainsOf domainColumn rows
         ∧ length (calls σ)
           = length (filter (λ o, nonEmptyRow o = true) rows)).
Proof.
  intros run Hrows Hreach. subst run. unfold CheckCSV in Hreach.
  pose proof (pool_not_empty env) as Hpos.
  destruct s as [σ|h cs];
    [|by destruct (readable_no_Halted _ _ _ _ _ _ _ Hrows Hreach)].
  exists σ. split; [done|].
  pose proof (reach_runInv _ _ _ _ _ _ Hreach) as (Hwf & Hacc & _).
  split.
  { destruct (run_completes _ _ _ rows h0 (Run σ) Hpos Hreach)
      as (s1 & Hreach1 & Hstuck).
    assert (Hreach0 : rtc (step CheckDomain domainColumn
                             (Z.to_nat (poolSizeFromEnv env)))
                        (start (Z.to_nat (poolSizeFromEnv env)) rows h0) s1)
      by (by etrans).
    destruct s1 as [σ1|h cs];
      [|by destruct (readable_no_Halted _ _ _ _ _ _ _ Hrows Hreach0)].
    exists σ1. split; [done|].
    by apply (stuck_Run_returned _ _ _ rows h0 σ1 Hpos Hreach0). }
  intros Hret.
  destruct (returned_final CheckDomain domainColumn _ σ Hpos Hwf Hret)
    as (_ & _ & _ & _ & _ & _ & Hcalls).
  rewrite Hcalls in Hacc. split; [done|].
  by rewrite Hacc, length_fmap, domainsOf_readable.
Qed.

Lemma CheckCSV_skips_empty_records_witness :
  let env : gmap string string := {["CONNECTION_POOL_SIZE" := "1"]} in
  let rows := [Row ["a.example"]; Row []; Row ["b.example"]] in
  let h0 : DomainTotals.t * list (LogLine DomainTotals.t) :=
    (DomainTotals.zero, []) in
  ∃ σ, rtc (step exampleCheck 0 (Z.to_nat (poolSizeFromEnv env)))
         (CheckCSV env rows h0) (Run σ)
       ∧ length (calls σ) = 2%nat.
Proof.
  intros env rows h0.
  destruct (CheckCSV_skips_empty_records exampleCheck 0 env rows h0 _
              ltac:(readable_rows)
              example_run_two_rows)
    as (σ & [= <-] & _ & Hret).
  eexists. split; [exact example_run_two_rows|].
  exact (proj2 (Hret eq_refl)).
Defined.

(** X13: a record that is not empty and has no field at the domain column
    (the column is negative, or the record too short) stops the whole
    process: on an input with such a record after records the reader gets
    past, no run returns from [CheckCSV]; every run comes to an end, and its
    end is the panic with an index out of range; only results of records
    before that one are ever handled. *)
Theorem CheckCSV_short_record_panics {H : Type} `{!ResultHandler H}
    (CheckDomain : string → DomainResult) (domainColumn : Z)
    (env : gmap string string) (h0 : H)
    (good rest : list ReadOutcome) (data : list string) (s : System H) :
  let run := step CheckDomain domainColumn (Z.to_nat (poolSizeFromEnv env)) in
  Forall (readableRow domainColumn) good →
  data ≠ [] →
  domainColumn < 0 ∨ Z.of_nat (length data) ≤ domainColumn →
  rtc run (CheckCSV env (good ++ Row data :: rest) h0) s →
  sn run s
  ∧ ¬ returned s
  ∧ ((∀ s', ¬ run s s') ↔ ∃ cs, s = Halted (Panic "index out of range") cs)
  ∧ callsOf s ⊆+ CheckDomain <$> domainsOf domainColumn good.
Proof.
  intros run Hgood Hne Hcol Hreach. subst run. unfold CheckCSV in Hreach.
  pose proof (pool_not_empty env) as Hpos.
  apply index_None_iff in Hcol.
  assert (Hbad : ¬ readableRow domainColumn (Row data)).
  { intros [Hz|[d Hd]]; [by destruct data | congruence]. }
  assert (Hopen : ∀ σ,
    rtc (step CheckDomain domainColumn (Z.to_nat (poolSizeFromEnv env)))
      (start (Z.to_nat (poolSizeFromEnv env)) (good ++ Row data :: rest) h0)
      (Run σ) →
    wf (Z.to_nat (poolSizeFromEnv env)) σ
    ∧ ∃ k, input σ = k ++ Row data :: rest
           ∧ Forall (readableRow domainColumn) k).
  { intros σ Hσ. split; [by destruct (reach_runInv _ _ _ _ _ _ Hσ)|].
    exact (bad_not_passed CheckDomain domainColumn _ good rest (Row data)
             h0 σ Hgood Hbad Hσ). }
  assert (Hnoret : ¬ returned s).
  { destruct s as [σ|h cs]; [|intros []]. simpl. intros Hret.
    destruct (Hopen σ Hreach) as (Hwf & k & Hk & _).
    destruct (returned_final CheckDomain domainColumn _ σ Hpos Hwf Hret)
      as (Hin & _).
    rewrite Hin in Hk. by destruct k. }
  split; [apply step_sn|]. split; [done|]. split; [split|].
  - intros Hstuck. destruct s as [σ|h cs].
    + apply (stuck_Run_returned _ _ _ _ h0 σ Hpos Hreach) in Hstuck.
      by destruct Hnoret.
    + exists cs. f_equal.
      apply reach_Halted in Hreach as [[=]|(σ & Hreach & Hstep)].
      destruct (Hopen σ Hreach) as (Hwf & k & Hk & Hfa).
      apply step_Halted_why in Hstep as
        [_ [(err & rows1 & -> & Hi)|[(data1 & rows1 & -> & _)|
            (_ & Hrc & ws1 & r & ws2 & Hws)]]]; [|done|].
      * rewrite Hi in Hk. destruct k as [|o k]; [done|].
        injection Hk as <- _. by apply Forall_cons in Hfa as [? _].
      * by destruct (wf_no_send_on_closed _ σ ws1 ws2 r Hwf Hrc).
  - intros [cs ->]. apply Halted_stuck.
  - rewrite <- (domainsOf_until_bad domainColumn good rest (Row data)
                  Hgood Hbad).
    apply (reach_calls _ _ _ _ _ _ Hreach).
Qed.

Lemma CheckCSV_short_record_panics_witness :
  let env : gmap string string := {["CONNECTION_POOL_SIZE" := "1"]} in
  let h0 : DomainTotals.t * list (LogLine DomainTotals.t) :=
    (DomainTotals.zero, []) in
  sn (step exampleCheck 1 (Z.to_nat (poolSizeFromEnv env)))
    (Halted (H := DomainTotals.t * list (LogLine DomainTotals.t))
       (Panic "index out of range") [])
  ∧ callsOf (Halted (H := DomainTotals.t * list (LogLine DomainTotals.t))
               (Panic "index out of range") [])
    ⊆+ exampleCheck <$> domainsOf 1 [Row ["1"; "a.example"]].
Proof.
  intros env h0.
  destruct (CheckCSV_short_record_panics exampleCheck 1 env h0
              [Row ["1"; "a.example"]] [Row ["3"; "c.example"]] ["2"]
              (Halted (Panic "index out of range") []))
    as (Hsn & _ & _ & Hcalls).
  - readable_rows.
  - discriminate.
  - right. simpl. lia.
  - exact example_run_short_record.
  - split; [exact Hsn | exact Hcalls].
Defined.

(** X14: [CheckCSV] with a [DomainTotals] as its handler, on an input of
    empty records and records with a domain: whatever the interleaving,
    when [CheckCSV] returns the totals count one attempt for each record
    that is not empty ([Attempted]) and one for each result with MX records
    ([WithMXs]), and the two lists hold, in the order of completion, the
    domains of the results with mode "enforce" and "testing". *)
Theorem CheckCSV_totals (CheckDomain : string → DomainResult)
    (domainColumn : Z) (env : gmap string string) (rows : list ReadOutcome)
    (σ : State (DomainTotals.t * list (LogLine DomainTotals.t))) :
  let results := CheckDomain <$> domainsOf domainColumn rows in
  Forall (readableRow domainColumn) rows →
  Z.of_nat (length rows) ≤ maxInt64 →
  rtc (step CheckDomain domainColumn (Z.to_nat (poolSizeFromEnv env)))
    (CheckCSV env rows (DomainTotals.zero, [])) (Run σ) →
  main σ = MExit →
  DomainTotals.Attempted (handler σ).1
    = Z.of_nat (length (filter (λ o, nonEmptyRow o = true) rows))
  ∧ DomainTotals.WithMXs (handler σ).1
    = Z.of_nat (length (filter hasMXs results))
  ∧ DomainTotals.MTASTSEnforce (handler σ).1
    ≡ₚ Domain <$> filter (hasMode "enforce") results
  ∧ DomainTotals.MTASTSTesting (handler σ).1
    ≡ₚ Domain <$> filter (hasMode "testing") results.
Proof.
  intros results Hrows Hmax Hreach Hret. subst results.
  unfold CheckCSV in Hreach.
  pose proof (pool_not_empty env) as Hpos.
  pose proof (reach_runInv _ _ _ _ _ _ Hreach) as (Hwf & Hacc & Hh & _).
  destruct (returned_final CheckDomain domainColumn _ σ Hpos Hwf Hret)
    as (_ & _ & _ & _ & _ & _ & Hcalls).
  rewrite Hcalls in Hacc.
  assert (Hlen : length (calls σ)
                 = length (filter (λ o, nonEmptyRow o = true) rows))
    by (by rewrite Hacc, length_fmap, domainsOf_readable).
  pose proof (length_filter (λ o, nonEmptyRow o = true) rows) as Hle.
  assert (Hfold : handler σ
                  = DomainTotals.handleAll DomainTotals.zero (calls σ))
    by exact Hh.
  rewrite Hfold.
  destruct (handleAll_zero (calls σ)) as (-> & -> & -> & ->); [lia|].
  rewrite Hlen, Hacc. done.
Qed.

Lemma CheckCSV_totals_witness :
  let env : gmap string string := {["CONNECTION_POOL_SIZE" := "1"]} in
  let rows := [Row ["a.example"]; Row []; Row ["b.example"]] in
  let h2 := HandleDomain
              (HandleDomain (DomainTotals.zero, []) (exampleCheck "a.example"))
              (exampleCheck "b.example") in
  DomainTotals.Attempted h2.1 = 2 ∧ DomainTotals.WithMXs h2.1 = 2.
Proof.
  intros env rows h2.
  destruct (CheckCSV_totals exampleCheck 0 env rows _
              ltac:(readable_rows)
              ltac:(vm_compute; discriminate)
              example_run_two_rows eq_refl)
    as (Ha & Hw & _).
  split; [exact Ha | exact Hw].
Defined.

(** ** The other methods of Domain *)

Section domain_methods.
Context {S SS L T Scan : Type}.
Context `{!Models.DomainStore S} `{!Models.policyList L}.
Context `{!DomainMethods.scanView Scan} `{!DomainMethods.scanStore SS Scan}.
Context `{!DomainMethods.tokenStore T}.
Variable PolicyMatches : string → list string → bool.
Implicit Types (d : Models.Domain) (domains : S) (scans : SS) (plist : L).

Abbreviation queueable := (DomainMethods.IsQueueable PolicyMatches).

Lemma hostnamesMatch_Forall (hostnames mxs : list string) :
  DomainMethods.hostnamesMatch PolicyMatches hostnames mxs = true ↔
  Forall (λ hostname, PolicyMatches hostname mxs = true) hostnames.
Proof.
  induction hostnames as [|h hs IH]; simpl.
  - split; [constructor | done].
  - rewrite Forall_cons. destruct (PolicyMatches h mxs).
    + rewrite IH. split; [by split | by intros [_ ?]].
    + split; [done | by intros [? _]].
Qed.

Lemma IsQueueable_cases d domains scans plist :
  let scan := (DomainMethods.GetLatestScan scans (Models.Name d)).1 in
  let answer := queueable d domains scans plist in
  answer.2 = scan
  ∧ (answer.1.1 = true ↔
       (DomainMethods.GetLatestScan scans (Models.Name d)).2 = None
       ∧ DomainMethods.DataStatus scan = 0
       ∧ Models.HasDomain plist (Models.Name d) = false
       ∧ (Models.GetDomain domains (Models.Name d) "added").2 ≠ None
       ∧ if decide (Models.MTASTSMode d = "")
         then Forall (λ hostname,
                PolicyMatches hostname (Models.MXs d) = true)
                (DomainMethods.DataPreferredHostnames scan)
         else DomainMethods.SupportsMTASTS scan = true)
  ∧ (answer.1.1 = true ↔ answer.1.2 = "")
  ∧ ((DomainMethods.GetLatestScan scans (Models.Name d)).2 = None →
     DomainMethods.DataStatus scan = 0 →
     (answer.1.2 = "Domain is already on the policy list!" ↔
        Models.HasDomain plist (Models.Name d) = true
        ∨ (Models.GetDomain domains (Models.Name d) "added").2 = None)).
Proof.
  intros scan answer. subst scan answer.
  unfold DomainMethods.IsQueueable.
  change Models.StateEnforce with "added"%string.
  destruct (DomainMethods.GetLatestScan scans (Models.Name d))
    as [scan err]. cbn [fst snd].
  case_bool_decide as Herr.
  { cbn [fst snd]. repeat split; try done; try (by intros [? _]). }
  assert (err = None) as -> by (by destruct err; [destruct Herr|]).
  case_bool_decide as Hst.
  { cbn [fst snd]. repeat split; try done; try (by intros (_ & ? & _)). }
  assert (DomainMethods.DataStatus scan = 0) as Hst0
    by (destruct (decide (DomainMethods.DataStatus scan = 0)); done).
  destruct (Models.HasDomain plist (Models.Name d)) eqn:Hlist; cbn [fst snd].
  { repeat split; try done; try (by intros (_ & _ & ? & _)); eauto. }
  destruct (Models.found domains (Models.Name d) "added") eqn:Hadded;
    cbn [fst snd].
  { apply found_iff in Hadded.
    repeat split; try done; try (by intros (_ & _ & _ & ? & _)); eauto. }
  apply found_false_iff in Hadded.
  case_bool_decide as Hmode.
  - rewrite decide_True by done.
    destruct (DomainMethods.hostnamesMatch _ _ _) eqn:Hmatch; cbn [fst snd].
    + apply hostnamesMatch_Forall in Hmatch.
      repeat split; try done; intros [?|?]; done.
    + assert (¬ Forall (λ hostname,
                 PolicyMatches hostname (Models.MXs d) = true)
                (DomainMethods.DataPreferredHostnames scan)) as Hno.
      { rewrite <- hostnamesMatch_Forall. by rewrite Hmatch. }
      repeat split; try done; try (by intros (_ & _ & _ & _ & ?));
        intros [?|?]; done.
  - rewrite decide_False by done.
    destruct (DomainMethods.SupportsMTASTS scan); cbn [fst snd negb];
      repeat split; try done; try (by intros (_ & _ & _ & _ & ?));
      intros [?|?]; done.
Qed.

(** X15: [IsQueueable] answers with the latest scan of the domain, and says
    yes exactly when: there is such a scan; its status is 0; the list does
    not have the domain; the store does not hold it as "added"; and, for a
    domain without MTA-STS mode, every preferred hostname of the scan
    matches the domain's MXs (none at all is enough), for a domain with a
    mode, the scan supports MTA-STS.  The message is empty exactly when the
    answer is yes. *)
Theorem IsQueueable_iff d domains scans plist :
  let scan := (DomainMethods.GetLatestScan scans (Models.Name d)).1 in
  let answer :=
    DomainMethods.IsQueueable PolicyMatches d domains scans plist in
  answer.2 = scan
  ∧ (answer.1.1 = true ↔
       (DomainMethods.GetLatestScan scans (Models.Name d)).2 = None
       ∧ DomainMethods.DataStatus scan = 0
       ∧ Models.HasDomain plist (Models.Name d) = false
       ∧ (Models.GetDomain domains (Models.Name d) "added").2 ≠ None
       ∧ if decide (Models.MTASTSMode d = "")
         then Forall (λ hostname,
                PolicyMatches hostname (Models.MXs d) = true)
                (DomainMethods.DataPreferredHostnames scan)
         else DomainMethods.SupportsMTASTS scan = true)
  ∧ (answer.1.1 = true ↔ answer.1.2 = "").
Proof.
  intros scan answer.
  destruct (IsQueueable_cases d domains scans plist) as (Hs & Hiff & Hmsg & _).
  split; [exact Hs|]. split; [exact Hiff | exact Hmsg].
Qed.

Lemma PolicyListCheck_success_iff (PolicyList : string) d domains plist :
  Status (Models.PolicyListCheck PolicyList d domains plist).1 = Success ↔
  Models.HasDomain plist (Models.Name d) = true
  ∨ (Models.GetDomain domains (Models.Name d) "added").2 = None.
Proof.
  unfold Models.PolicyListCheck.
  change Models.StateEnforce with "added"%string.
  destruct (Models.HasDomain plist (Models.Name d)); [cbn; split; eauto|].
  destruct (Models.found domains (Models.Name d) "added") eqn:Hadded.
  { apply found_iff in Hadded. cbn. split; eauto. }
  apply found_false_iff in Hadded.
  repeat case_match; cbn; (split; [done | intros [?|?]; done]).
Qed.

(** X16: [IsQueueable] and [PolicyListCheck] agree on what is on the list:
    for a domain whose latest scan exists and has status 0,
    [PolicyListCheck] gives a success exactly when [IsQueueable] refuses
    with "Domain is already on the policy list!"; so a domain that can be
    queued never has a successful policy-list check. *)
Theorem IsQueueable_PolicyListCheck (PolicyList : string) d domains scans
    plist :
  (DomainMethods.GetLatestScan scans (Models.Name d)).2 = None →
  DomainMethods.DataStatus
    (DomainMethods.GetLatestScan scans (Models.Name d)).1 = 0 →
  (Status (Models.PolicyListCheck PolicyList d domains plist).1 = Success ↔
   (queueable d domains scans plist).1.2
   = "Domain is already on the policy list!")
  ∧ ((queueable d domains scans plist).1.1 = true →
     Status (Models.PolicyListCheck PolicyList d domains plist).1 ≠ Success).
Proof.
  intros Hscan Hstatus.
  destruct (IsQueueable_cases d domains scans plist)
    as (_ & Hiff & _ & Hlist).
  specialize (Hlist Hscan Hstatus).
  pose proof (PolicyListCheck_success_iff PolicyList d domains plist)
    as Hsucc.
  split; [by rewrite Hsucc, Hlist|].
  intros Hq Hs. apply Hiff in Hq as (_ & _ & Hno & Hnot & _).
  apply Hsucc in Hs as [?|?]; congruence.
Qed.

(** X17: [PopulateFromScan] changes nothing but [MTASTSMode] and [MXs], and
    changes nothing at all for a scan without MTA-STS result or one that
    does not support MTA-STS; otherwise the mode becomes that of the scan,
    MXs that are not empty are kept, and empty ones are taken from the
    scan.  Populating twice from the same scan is populating once. *)
Theorem PopulateFromScan_spec d (scan : Scan) :
  let d' := DomainMethods.PopulateFromScan d scan in
  DomainMethods.PopulateFromScan d' scan = d'
  ∧ (Models.Name d', Models.Email d', Models.State d',
     Models.LastUpdated d', Models.TestingStart d', Models.QueueWeeks d')
    = (Models.Name d, Models.Email d, Models.State d,
       Models.LastUpdated d, Models.TestingStart d, Models.QueueWeeks d)
  ∧ (Models.MXs d ≠ [] → Models.MXs d' = Models.MXs d)
  ∧ (DomainMethods.DataMTASTSResult scan = None
     ∨ DomainMethods.SupportsMTASTS scan = false → d' = d)
  ∧ (∀ mr, DomainMethods.DataMTASTSResult scan = Some mr →
       DomainMethods.SupportsMTASTS scan = true →
       Models.MTASTSMode d' = Mode mr
       ∧ (Models.MXs d = [] → Models.MXs d' = MXs mr)).
Proof.
  intros d'. subst d'. unfold DomainMethods.PopulateFromScan.
  destruct (DomainMethods.DataMTASTSResult scan) as [mr|];
    [|repeat split; done || (intros; done)].
  destruct (DomainMethods.SupportsMTASTS scan);
    [|repeat split; done || (intros; done) || by intros [?|?]].
  destruct d as [name email mxs mode state updated testing weeks]. simpl.
  destruct mxs as [|mx mxs]; simpl.
  - destruct (MXs mr) as [|m ms] eqn:Hmr; simpl;
      (split; [done|]); (split; [done|]); (split; [done|]);
      (split; [by intros [?|?]|]); by intros ? [= <-] _.
  - (split; [done|]); (split; [done|]); (split; [done|]);
      (split; [by intros [?|?]|]). by intros ? [= <-] _.
Qed.

(** X18: [InitializeWithToken] returns an error exactly when [PutDomain] or,
    after it, [PutToken] does, and then the token it returns is empty.  When
    [PutDomain] fails the token store is not touched; when [PutToken] fails
    the domain store stays as [PutDomain] left it: the domain is not taken
    out again. *)
Theorem InitializeWithToken_errors d (store : S) (tokens : T) :
  let answer := DomainMethods.InitializeWithToken d store tokens in
  let put := Models.PutDomain store d in
  let token := DomainMethods.PutToken tokens (Models.Name d) in
  answer.1.1 = put.1
  ∧ (answer.2.2 = None ↔ put.2 = None ∧ token.2.2 = None)
  ∧ (answer.2.2 ≠ None → answer.2.1 = "")
  ∧ (put.2 ≠ None → answer.1.2 = tokens ∧ answer.2.2 = put.2)
  ∧ (put.2 = None →
     answer.1.2 = token.1 ∧ answer.2.2 = token.2.2
     ∧ (token.2.2 = None → answer.2.1 = token.2.1)).
Proof.
  intros answer put token. subst answer put token.
  unfold DomainMethods.InitializeWithToken.
  destruct (Models.PutDomain store d) as [store' [e|]]; simpl.
  { repeat split; try done. by intros [? _]. }
  destruct (DomainMethods.PutToken tokens (Models.Name d))
    as [tokens' [token [e|]]]; simpl.
  - repeat split; try done. by intros [_ ?].
  - repeat split; done.
Qed.

(** X19: after [PopulateFromScan] from a scan that supports MTA-STS with a
    mode that is not empty, the MXs of the domain no longer count: with
    that scan as the latest one, the domain can be queued exactly when the
    scan has status 0, the list does not have the domain and the store does
    not hold it as "added". *)
Theorem IsQueueable_after_populate d domains scans plist (scan : Scan)
    (mr : MTASTSResult) :
  DomainMethods.GetLatestScan scans (Models.Name d) = (scan, None) →
  DomainMethods.DataMTASTSResult scan = Some mr →
  DomainMethods.SupportsMTASTS scan = true →
  Mode mr ≠ "" →
  (queueable (DomainMethods.PopulateFromScan d scan) domains scans
     plist).1.1 = true
  ↔ DomainMethods.DataStatus scan = 0
    ∧ Models.HasDomain plist (Models.Name d) = false
    ∧ (Models.GetDomain domains (Models.Name d) "added").2 ≠ None.
Proof.
  intros Hlatest Hmr Hsup Hmode.
  set (d' := DomainMethods.PopulateFromScan d scan).
  assert (Hname : Models.Name d' = Models.Name d).
  { subst d'. unfold DomainMethods.PopulateFromScan. rewrite Hmr, Hsup.
    by destruct (decide _). }
  assert (Hm : Models.MTASTSMode d' = Mode mr).
  { subst d'. unfold DomainMethods.PopulateFromScan. rewrite Hmr, Hsup.
    by destruct (decide _). }
  destruct (IsQueueable_cases d' domains scans plist) as (_ & Hiff & _).
  rewrite Hiff. rewrite Hname, Hlatest. simpl.
  rewrite decide_False by congruence.
  split; [intros (_ & ? & ? & ? & _); done | intros (? & ? & ?); done].
Qed.
End domain_methods.

Lemma IsQueueable_PolicyListCheck_witness :
  let matches := λ (hostname : string) (mxs : list string),
    bool_decide (hostname ∈ mxs) in
  let d := Models.mkDomain "example.com" "" ["mx.example.com"] "" "" 0 0 0 in
  let scans : gmap string DomainMethods.exampleScan :=
    {["example.com" := DomainMethods.mkExampleScan 0 ["mx.example.com"] None]} in
  let stored := [Models.mkDomain "example.com" "" [] "" "added" 0 0 0] in
  Status (Models.PolicyListCheck "policylist" d stored
            ([] : list string)).1 = Success
  ∧ (DomainMethods.IsQueueable matches d stored scans ([] : list string)).1.2
    = "Domain is already on the policy list!".
Proof.
  intros matches d scans stored.
  destruct (IsQueueable_PolicyListCheck matches "policylist" d stored scans
              ([] : list string)) as [Hiff _];
    [vm_compute; reflexivity..|].
  assert (Hs : Status (Models.PolicyListCheck "policylist" d stored
                         ([] : list string)).1 = Success)
    by (vm_compute; reflexivity).
  split; [exact Hs | exact (proj1 Hiff Hs)].
Defined.

Lemma IsQueueable_after_populate_witness :
  let matches := λ (hostname : string) (mxs : list string),
    bool_decide (hostname ∈ mxs) in
  let d := Models.mkDomain "example.com" "" [] "" "" 0 0 0 in
  let mr := mkMTASTSResult "enforce" ["mx.example.com"] Success in
  let scan := DomainMethods.mkExampleScan 0 ["mx.example.com"; "mx2.example.com"]
                (Some mr) in
  let scans : gmap string DomainMethods.exampleScan :=
    {["example.com" := scan]} in
  (DomainMethods.IsQueueable matches (DomainMethods.PopulateFromScan d scan)
     ([] : list Models.Domain) scans ([] : list string)).1.1 = true.
Proof.
  intros matches d mr scan scans.
  apply (IsQueueable_after_populate matches d ([] : list Models.Domain) scans
           ([] : list string) scan mr);
    [vm_compute; reflexivity.. | discriminate |].
  vm_compute. repeat split; discriminate.
Defined.

(** ** The list API *)

Lemma Atoi_negative_numeral (ds : list nat) :
  ds ≠ [] → Forall (λ d, (d < 10)%nat) ds → numeralValue ds ≤ 2 ^ 63 →
  Atoi (String "-" (numeral ds)) = (- numeralValue ds, None).
Proof.
  intros Hne Hds Hmax. destruct ds as [|d ds]; [done|].
  assert (Hparse : parseDigits (numeral (d :: ds)) 0
                   = ParsedValue (numeralValue (d :: ds))).
  { apply parseDigits_numeral; [done..|].
    fold (numeralValue (d :: ds)). unfold maxUint64. lia. }
  unfold Atoi.
  change (splitSign (String "-" (numeral (d :: ds))))
    with (true, numeral (d :: ds)).
  revert Hparse. cbn [numeral]. intros Hparse. cbv beta match.
  rewrite Hparse. cbv beta match. cbn [negb andb].
  destruct (Z.ltb_spec (2 ^ 63) (numeralValue (d :: ds))) as [Hgt|_];
    [lia | done].
Qed.

Section list_api.
Context {R S P : Type} `{!Models.DomainStore S}.
Variable getParam : string → R → string * option error.
Variable Add : ListAPI.List P → string → ListAPI.TLSPolicy → ListAPI.List P.
Variable StateQueued : Models.DomainState.

Abbreviation numberParam := (ListAPI.getNumberParam getParam).
Abbreviation getList := (ListAPI.GetList getParam Add StateQueued).

(** X20: [getNumberParam] gives the default when the request has no such
    parameter or when [strconv.Atoi] rejects its value, and the number
    otherwise, whatever its sign: a decimal numeral, "0" too, is read as
    its value, and one with a minus sign as the negative of it.  No value
    is replaced because it is zero or negative. *)
Theorem getNumberParam_spec (r : R) (paramName : string) (defaultNumber : Z) :
  let value := getParam paramName r in
  let result := numberParam r paramName defaultNumber in
  (value.2 ≠ None → result = defaultNumber)
  ∧ (value.2 = None → (Atoi value.1).2 ≠ None → result = defaultNumber)
  ∧ (value.2 = None → (Atoi value.1).2 = None → result = (Atoi value.1).1)
  ∧ (∀ ds, value = (numeral ds, None) → ds ≠ [] →
       Forall (λ d, (d < 10)%nat) ds → numeralValue ds ≤ maxInt64 →
       result = numeralValue ds)
  ∧ (∀ ds, value = (String "-" (numeral ds), None) → ds ≠ [] →
       Forall (λ d, (d < 10)%nat) ds → numeralValue ds ≤ 2 ^ 63 →
       result = - numeralValue ds).
Proof.
  intros value result. subst value result. unfold ListAPI.getNumberParam.
  destruct (getParam paramName r) as [numStr [e|]]; simpl.
  { repeat split; done. }
  split; [done|]. split.
  { intros _ Herr. by destruct (Atoi numStr) as [n [e|]]. }
  split.
  { intros _ Hok. by destruct (Atoi numStr) as [n [e|]]. }
  split.
  - intros ds [= ->] Hne Hds Hmax.
    by rewrite Atoi_numeral by (done || apply numeralValue_nonneg).
  - intros ds [= ->] Hne Hds Hmax. by rewrite Atoi_negative_numeral.
Qed.

(** X21: [GetList] answers with status 500 and the text of the error, and
    no list, exactly when [GetDomains] of the queued domains fails, whatever
    the parameters of the request; otherwise with status 200 and a list. *)
Theorem GetList_status (raw : ListAPI.List P) (db : S) (r : R)
    (now1 now2 : Time) :
  let answer := getList raw db r now1 now2 in
  let queued := Models.GetDomains db StateQueued in
  (ListAPI.StatusCode answer = 500 ↔ queued.2 ≠ None)
  ∧ (ListAPI.StatusCode answer = 200 ↔ queued.2 = None)
  ∧ (∀ e, queued.2 = Some e → answer = ListAPI.mkAPIResponse 500 e None)
  ∧ (queued.2 = None →
     ListAPI.Message answer = "" ∧ is_Some (ListAPI.Response answer)).
Proof.
  intros answer queued. subst answer queued. unfold ListAPI.GetList.
  destruct (Models.GetDomains db StateQueued) as [queued [e|]]; simpl.
  - repeat split; try done; by intros ? [= <-].
  - repeat split; try done; by eexists.
Qed.

Lemma foldl_addQueued_fields (cutoffTime : Time) (queued : list Models.Domain)
    (list : ListAPI.List P) :
  (∀ l name policy,
     ListAPI.Timestamp (Add l name policy) = ListAPI.Timestamp l
     ∧ ListAPI.Expires (Add l name policy) = ListAPI.Expires l) →
  ListAPI.Timestamp (foldl (ListAPI.addQueued Add cutoffTime) list queued)
    = ListAPI.Timestamp list
  ∧ ListAPI.Expires (foldl (ListAPI.addQueued Add cutoffTime) list queued)
    = ListAPI.Expires list.
Proof.
  intros HAdd. revert list.
  induction queued as [|d queued IH]; intros list; [done|].
  simpl. destruct (IH (ListAPI.addQueued Add cutoffTime list d)) as [-> ->].
  unfold ListAPI.addQueued. destruct (_ <? _); [done|]. apply HAdd.
Qed.

Lemma week_ns : ListAPI.Hour * 24 * 7 = 604800000000000.
Proof. reflexivity. Qed.

Lemma weeks_no_wrap (w : Z) :
  -15250 ≤ w ≤ 15250 →
  wrap64 (ListAPI.Hour * 24 * 7 * w) = 604800000000000 * w
  ∧ wrap64 (- ListAPI.Hour * 24 * 7 * w) = - (604800000000000 * w).
Proof.
  intros Hw.
  replace (- ListAPI.Hour * 24 * 7 * w) with (- (ListAPI.Hour * 24 * 7 * w))
    by lia.
  rewrite week_ns.
  split; apply wrap64_id; unfold inInt64, minInt64, maxInt64; lia.
Qed.

(** X22: when [GetDomains] succeeds and [Add] leaves [Timestamp] and
    [Expires] alone, the list [GetList] answers with is stamped with the
    first reading of the clock and expires [expire_weeks] weeks later, for a
    number of weeks up to 15250 either way (beyond that the product of
    durations wraps around): two weeks later when the parameter is missing
    or not a number, and at the very instant of the timestamp when it is
    0. *)
Theorem GetList_expiry (raw : ListAPI.List P) (db : S) (r : R)
    (now1 now2 : Time) :
  (∀ l name policy,
     ListAPI.Timestamp (Add l name policy) = ListAPI.Timestamp l
     ∧ ListAPI.Expires (Add l name policy) = ListAPI.Expires l) →
  (Models.GetDomains db StateQueued).2 = None →
  let weeks := numberParam r "expire_weeks" 2 in
  ∃ list, ListAPI.Response (getList raw db r now1 now2) = Some list
    ∧ ListAPI.Timestamp list = now1
    ∧ ListAPI.Expires list
      = now1 + wrap64 (604800000000000 * weeks)
    ∧ (-15250 ≤ weeks ≤ 15250 →
       ListAPI.Expires list = now1 + 604800000000000 * weeks)
    ∧ (weeks = 0 → ListAPI.Expires list = ListAPI.Timestamp list)
    ∧ ((getParam "expire_weeks" r).2 ≠ None
       ∨ (Atoi (getParam "expire_weeks" r).1).2 ≠ None →
       ListAPI.Expires list = now1 + 2 * 604800000000000).
Proof.
  intros HAdd Hdb weeks. unfold ListAPI.GetList.
  destruct (Models.GetDomains db StateQueued) as [queued err].
  simpl in Hdb. subst err. eexists. split; [reflexivity|].
  match goal with
  | |- context [foldl (ListAPI.addQueued Add ?c) ?l queued] =>
      destruct (foldl_addQueued_fields c queued l HAdd) as [-> ->]
  end.
  simpl. fold weeks. rewrite week_ns.
  split; [done|]. split; [done|]. split.
  { intros Hw. destruct (weeks_no_wrap weeks Hw) as [Hno _].
    rewrite week_ns in Hno. by rewrite Hno. }
  split.
  { intros Hz. rewrite Hz, Z.mul_0_r. change (wrap64 0) with 0. lia. }
  intros Hbad.
  assert (weeks = 2) as Htwo; [|rewrite Htwo; reflexivity].
  subst weeks. unfold ListAPI.getNumberParam.
  destruct (getParam "expire_weeks" r) as [numStr [e|]]; [done|].
  simpl in Hbad. destruct (Atoi numStr) as [n [e|]]; [done|].
  by destruct Hbad.
Qed.

Lemma foldl_addQueued_filter (cutoffTime : Time)
    (queued : list Models.Domain) (list : ListAPI.List P) :
  foldl (ListAPI.addQueued Add cutoffTime) list queued
  = foldl (λ l d, Add l (Models.Name d)
                    (ListAPI.mkTLSPolicy "enforce" (Models.MXs d)))
      list (filter (λ d, Models.LastUpdated d ≤ cutoffTime) queued).
Proof.
  revert list. induction queued as [|d queued IH]; intros list; [done|].
  rewrite filter_cons. simpl. rewrite IH. unfold ListAPI.addQueued.
  destruct (Z.ltb_spec cutoffTime (Models.LastUpdated d)).
  - by rewrite decide_False by lia.
  - by rewrite decide_True by lia.
Qed.

(** X23: the policies [GetList] adds: for the queued domains [queued] that
    [GetDomains] gives, one [Add], in their order, for each domain that was
    last updated at or before the cutoff, with mode "enforce" and the MXs
    of the domain, and none for a domain updated after it.  The cutoff is
    [queued_weeks] weeks before the second reading of the clock, for a
    number of weeks up to 15250 either way; a week before it when the
    parameter is missing. *)
Theorem GetList_adds (raw : ListAPI.List P) (db : S) (r : R)
    (now1 now2 : Time) (queued : list Models.Domain) :
  Models.GetDomains db StateQueued = (queued, None) →
  let weeks := numberParam r "queued_weeks" 1 in
  let cutoff := now2 + wrap64 (- 604800000000000 * weeks) in
  let stamped :=
    ListAPI.mkList now1
      (now1 + wrap64 (604800000000000 * numberParam r "expire_weeks" 2))
      (ListAPI.Policies raw) in
  ListAPI.Response (getList raw db r now1 now2)
  = Some (foldl (λ l d, Add l (Models.Name d)
                          (ListAPI.mkTLSPolicy "enforce" (Models.MXs d)))
            stamped
            (filter (λ d, Models.LastUpdated d ≤ cutoff) queued))
  ∧ (-15250 ≤ weeks ≤ 15250 → cutoff = now2 - 604800000000000 * weeks)
  ∧ ((getParam "queued_weeks" r).2 ≠ None →
     cutoff = now2 - 604800000000000).
Proof.
  intros Hdb weeks cutoff stamped. subst cutoff stamped.
  unfold ListAPI.GetList. rewrite Hdb. simpl. fold weeks.
  rewrite foldl_addQueued_filter.
  change (- ListAPI.Hour * 24 * 7) with (-604800000000000).
  change (ListAPI.Hour * 24 * 7) with 604800000000000.
  split; [done|]. split.
  - intros Hw. rewrite wrap64_id; [lia|].
    unfold inInt64, minInt64, maxInt64. lia.
  - intros Hmissing.
    assert (weeks = 1) as Hone; [|rewrite Hone; reflexivity].
    subst weeks. unfold ListAPI.getNumberParam.
    by destruct (getParam "queued_weeks" r) as [numStr [e|]].
Qed.
End list_api.

Lemma GetList_expiry_witness :
  let raw := ListAPI.mkList 0 0 (∅ : gmap string ListAPI.TLSPolicy) in
  let r : gmap string string := {["expire_weeks" := "0"]} in
  ∃ l,
    ListAPI.Response
      (ListAPI.GetList ListAPI.exampleGetParam ListAPI.exampleAdd "queued"
         raw ([] : list Models.Domain) r 1000 1001) = Some l
    ∧ ListAPI.Timestamp l = 1000
    ∧ ListAPI.Expires l = 1000.
Proof.
  intros raw r.
  destruct (GetList_expiry ListAPI.exampleGetParam ListAPI.exampleAdd
              "queued" raw ([] : list Models.Domain) r 1000 1001)
    as (l & Hl & Ht & _ & _ & Hz & _); [done | done |].
  exists l. split; [exact Hl|]. split; [exact Ht|].
  rewrite Hz, Ht; reflexivity.
Defined.

Lemma GetList_adds_witness :
  let week := 604800000000000 in
  let raw := ListAPI.mkList 0 0 (∅ : gmap string ListAPI.TLSPolicy) in
  let old := Models.mkDomain "old.example" "" ["mx.old.example"] "" "queued"
               (10 * week) 0 4 in
  let new := Models.mkDomain "new.example" "" ["mx.new.example"] "" "queued"
               (10 * week + 1) 0 4 in
  ∃ l,
    ListAPI.Response
      (ListAPI.GetList ListAPI.exampleGetParam ListAPI.exampleAdd "queued"
         raw [old; new] (∅ : gmap string string) (11 * week) (11 * week))
    = Some l
    ∧ ListAPI.Policies l
      = {["old.example" := ListAPI.mkTLSPolicy "enforce" ["mx.old.example"]]}.
Proof.
  intros week raw old new.
  destruct (GetList_adds ListAPI.exampleGetParam ListAPI.exampleAdd "queued"
              raw [old; new] (∅ : gmap string string) (11 * week) (11 * week)
              [old; new]) as (Hl & _); [vm_compute; reflexivity|].
  eexists. split; [exact Hl|]. vm_compute. reflexivity.
Defined.
